(** * Rent ledger: allocation and reconciliation engine

    A shallow embedding of the rule-based split allocator
    ([match_rule], [apply_rule_to_bank], [cmd_apply_rules]) and of the
    open-item aging engine ([fetch_payments], [Charge],
    [apply_payments_fifo], [bucket_for]) of [rent_ledger.py], with the
    properties of the engine proved about it.

    Conventions of the embedding:
    - Python [int] is [Z] (unbounded; the 64-bit range of an SQLite
      [INTEGER] column is not modelled); Python [float] and SQLite [REAL]
      are the kernel's binary64 floats ([PrimFloat]);
    - a nullable column is an [option]; [str] is [string];
    - an SQLite table is the list of its rows, a query is a function of
      the database, [ORDER BY] is a stable sort;
    - a Python function with early [return]s runs in the [flow] monad
      below; a raised exception is an outcome of its own;
    - the [Charge] objects that the aging engine mutates in place live in
      a heap (a list indexed by reference), so that sharing is kept. *)

From stdpp Require Import base list relations.
From Stdlib Require Import ZArith String Ascii Floats Permutation Sorted Lia.

Set Warnings "-inexact-float".

Open Scope Z_scope.

(** ** Dates

    [datetime.date], and the ISO [YYYY-MM-DD] texts of the date columns:
    both are ordered as the triple (year, month, day). *)

Record date := mkDate { year : Z; month : Z; day : Z }.

Definition date_ltb (a b : date) : bool :=
  (year a <? year b)
  || ((year a =? year b)
      && ((month a <? month b) || ((month a =? month b) && (day a <? day b)))).

Definition date_eqb (a b : date) : bool :=
  (year a =? year b) && (month a =? month b) && (day a =? day b).

Definition date_leb (a b : date) : bool := date_ltb a b || date_eqb a b.

(** ** Text helpers

    [str.strip()], [str.strip(chars)] and the substring test [x in s], on
    strings of 8-bit characters. *)

Definition is_space (a : ascii) : bool :=
  let n := nat_of_ascii a in
  ((9 <=? n) && (n <=? 13) || (28 <=? n) && (n <=? 32))%nat.

Fixpoint lstrip (f : ascii -> bool) (s : string) : string :=
  match s with
  | EmptyString => EmptyString
  | String a s' => if f a then lstrip f s' else s
  end.

Fixpoint rstrip (f : ascii -> bool) (s : string) : string :=
  match s with
  | EmptyString => EmptyString
  | String a s' =>
      match rstrip f s' with
      | EmptyString => if f a then EmptyString else String a EmptyString
      | r => String a r
      end
  end.

Definition strip (f : ascii -> bool) (s : string) : string :=
  rstrip f (lstrip f s).

Fixpoint contains (needle hay : string) : bool :=
  String.prefix needle hay
  || match hay with
     | EmptyString => false
     | String _ hay' => contains needle hay'
     end.

Definition or_empty (s : option string) : string :=
  match s with Some x => x | None => EmptyString end.

(** ** Stable sorting

    [list.sort(key=...)] and [ORDER BY] over rows held in insertion order:
    an element goes in front of the first one whose key is not smaller,
    so equal keys keep their order. [ltb y x] reads: the key of [y] is
    strictly below the key of [x]. *)

Fixpoint insert_by {A : Type} (ltb : A -> A -> bool) (x : A) (l : list A)
  : list A :=
  match l with
  | [] => [x]
  | y :: l' => if ltb y x then y :: insert_by ltb x l' else x :: l
  end.

Definition sort_by {A : Type} (ltb : A -> A -> bool) (l : list A) : list A :=
  foldr (insert_by ltb) [] l.

Definition sum_Z (l : list Z) : Z := foldr Z.add 0 l.

(** ** Floating point

    [float(int)] (exact below 2^53, otherwise to nearest even; CPython
    raises [OverflowError] where the result would be infinite) and
    [round(float)] without [ndigits] (to the nearest integer, ties to the
    even one; raises on an infinity or a NaN). *)

Definition float_of_int (z : Z) : option float :=
  let f := SF2Prim (binary_normalize prec emax z 0 false) in
  if PrimFloat.is_infinity f then None else Some f.

Definition round_half_even (m : positive) (e : Z) : Z :=
  if 0 <=? e then Z.pos m * 2 ^ e
  else
    let d := 2 ^ (- e) in
    let q := Z.pos m / d in
    let r := Z.pos m mod d in
    if 2 * r <? d then q
    else if d <? 2 * r then q + 1
    else if Z.even q then q else q + 1.

Inductive exn := OverflowError | ValueError.

Definition py_round (x : float) : exn + Z :=
  match Prim2SF x with
  | S754_zero _ => inr 0
  | S754_finite s m e =>
      let n := round_half_even m e in inr (if s then - n else n)
  | S754_infinity _ => inl OverflowError
  | S754_nan => inl ValueError
  end.

(** [int(round(bank_amt * pct / 100.0))] *)
Definition percent_cents (bank_amt : Z) (pct : float) : exn + Z :=
  match float_of_int bank_amt with
  | None => inl OverflowError
  | Some a => py_round (a * pct / 100.0)%float
  end.

(** ** The store

    One record per table of [ensure_db], with the columns the engine
    reads. [splits_seq] is the [AUTOINCREMENT] counter of [splits]. *)

Record bank_row := mkBank {
  b_id : Z;
  b_op_date : date;
  b_amount_cents : Z;
  b_description : option string }.

Record split_row := mkSplit {
  s_id : Z;
  s_bank_id : Z;
  s_account : string;
  s_tenant_id : option string;
  s_amount_cents : Z;
  s_note : option string }.

Record rule_row := mkRule {
  r_id : Z;
  r_name : string;
  r_match_desc_like : option string;
  r_min_amount_cents : option Z;
  r_max_amount_cents : option Z;
  r_sign : string;
  r_priority : Z;
  r_active : Z;
  r_match_desc_regex : option string }.

Record rule_part := mkPart {
  p_id : Z;
  p_rule_id : Z;
  p_account : string;
  p_tenant_id : option string;
  p_kind : string;
  p_value_cents : option Z;
  p_value_percent : option float;
  p_note_template : option string }.

Record manual_charge := mkManual {
  m_id : Z;
  m_tenant_id : string;
  m_kind : string;
  m_due_date : date;
  m_amount_cents : Z;
  m_note : option string }.

Record db := mkDb {
  bank : list bank_row;
  splits : list split_row;
  splits_seq : Z;
  rules : list rule_row;
  rule_parts : list rule_part;
  manual_charges : list manual_charge }.

(** [SELECT ... FROM bank WHERE id=?] with [fetchone()] *)
Definition select_bank (cx : db) (bank_id : Z) : option bank_row :=
  List.find (fun b => b_id b =? bank_id) (bank cx).

(** [SELECT ... FROM rules WHERE id=?] with [fetchone()] *)
Definition select_rule (cx : db) (rule_id : Z) : option rule_row :=
  List.find (fun r => r_id r =? rule_id) (rules cx).

(** [SELECT ... FROM rule_parts WHERE rule_id=? ORDER BY id] *)
Definition select_rule_parts (cx : db) (rule_id : Z) : list rule_part :=
  sort_by (fun p q => p_id p <? p_id q)
    (List.filter (fun p => p_rule_id p =? rule_id) (rule_parts cx)).

Definition splits_of (cx : db) (bank_id : Z) : list split_row :=
  List.filter (fun s => s_bank_id s =? bank_id) (splits cx).

(** The column [split_sum] of the view [v_bank_with_sum]:
    [IFNULL(SUM(s.amount_cents), 0)] over the splits of one bank row. *)
Definition split_sum (cx : db) (bank_id : Z) : Z :=
  sum_Z (map s_amount_cents (splits_of cx bank_id)).

(** [SELECT split_sum FROM v_bank_with_sum WHERE id=?] with [fetchone()] *)
Definition select_split_sum (cx : db) (bank_id : Z) : option Z :=
  match select_bank cx bank_id with
  | Some _ => Some (split_sum cx bank_id)
  | None => None
  end.

(** [INSERT INTO splits(bank_id,account,tenant_id,amount_cents,note)]:
    the new row takes the next id of the sequence. *)
Definition insert_split (cx : db) (bank_id : Z) (account : string)
    (tenant : option string) (amount : Z) (note : string) : db :=
  let id := Z.max (splits_seq cx) (foldr Z.max 0 (map s_id (splits cx))) + 1 in
  {| bank := bank cx;
     splits := splits cx ++ [mkSplit id bank_id account tenant amount (Some note)];
     splits_seq := id;
     rules := rules cx;
     rule_parts := rule_parts cx;
     manual_charges := manual_charges cx |}.

(** ** Rule matcher *)

(** [re.search(regex, text, flags=re.IGNORECASE)]: [Some true] for a
    match, [Some false] for [None], and [None] when [re.error] is
    raised. The regular-expression engine is Python's; the rule engine
    is stated over any such engine. *)
Class Regex := { re_search : string -> string -> option bool }.

Definition nonempty (s : string) : bool :=
  match s with EmptyString => false | _ => true end.

Definition sign_of (cents : Z) : string :=
  if 0 <? cents then "in" else if cents <? 0 then "out" else "any".

Definition like_rejects (like : option string) (b_desc : option string) : bool :=
  match like with
  | Some like =>
      nonempty like
      && (let like_str := strip is_space like in
          nonempty like_str
          && negb (contains (strip (Ascii.eqb "%") like_str) (or_empty b_desc)))
  | None => false
  end.

Definition regex_rejects `{Regex} (regex : option string)
    (b_desc : option string) : bool :=
  match regex with
  | Some regex =>
      nonempty regex
      && match re_search regex (or_empty b_desc) with
         | Some found => negb found
         | None => true
         end
  | None => false
  end.

Definition match_rule `{Regex} (rule : rule_row) (bank_row : bank_row) : bool :=
  let b_amt := b_amount_cents bank_row in
  let b_desc := b_description bank_row in
  if r_active rule =? 0 then false
  else if like_rejects (r_match_desc_like rule) b_desc then false
  else if regex_rejects (r_match_desc_regex rule) b_desc then false
  else if match r_min_amount_cents rule with
          | Some min_c => b_amt <? min_c | None => false end then false
  else if match r_max_amount_cents rule with
          | Some max_c => max_c <? b_amt | None => false end then false
  else if negb (String.eqb (r_sign rule) "any")
          && negb (String.eqb (sign_of b_amt) (r_sign rule)) then false
  else true.

(** ** Split allocator *)

(** The texts [apply_rule_to_bank] returns beside its flag, in order of
    appearance: "Bank-ID nicht gefunden.", "Regel nicht gefunden.",
    "Regel passt nicht auf diese Bankzeile.", "Regel hat keine Parts.",
    "fixed-Part ohne value_cents.", "percent-Part ohne value_percent.",
    "Percent-Summe ..% > 100%.", "Mehr als ein remainder-Part definiert.",
    "Summe Splits .. ≠ Bankbetrag ..", ".. Splits erzeugt (Regel '..')". *)
Inductive message :=
  | BankNotFound
  | RuleNotFound
  | RuleDoesNotMatch
  | NoParts
  | FixedWithoutValue
  | PercentWithoutValue
  | PercentOverflow (percent_sum : float)
  | MultipleRemainder
  | BalanceMismatch (total bank_amt : Z)
  | SplitsCreated (count : nat) (rule_name : string).

(** How a call ends: [return (ok, msg)], or a raised exception. *)
Inductive outcome :=
  | Returned (ok : bool) (msg : message)
  | Raised (e : exn).

(** A computation that may leave the function early. *)
Definition flow (A : Type) : Type := (outcome + A)%type.

#[global] Instance flow_bind : MBind flow := fun A B k m =>
  match m with
  | inl o => inl o
  | inr a => k a
  end.

Definition reject {A : Type} (msg : message) : flow A := inl (Returned false msg).

Definition raising {A : Type} (r : exn + A) : flow A :=
  match r with
  | inl e => inl (Raised e)
  | inr a => inr a
  end.

(** An entry of [splits_to_insert]: [(account, tenant_id, amt, note_t)]. *)
Record pending := mkPending {
  pd_account : string;
  pd_tenant_id : option string;
  pd_amt : Z;
  pd_note_t : option string }.

(** The amount of a fixed part: [int(val_c)], negated when its sign is
    strictly opposite to the bank amount's. *)
Definition fixed_amount (bank_amt val_c : Z) : Z :=
  let amt := val_c in
  if (0 <? bank_amt) && (amt <? 0) || (bank_amt <? 0) && (0 <? amt)
  then - amt else amt.

(** First loop over [parts]: the fixed parts. The state is
    [(remaining, splits_to_insert)]. *)
Fixpoint fixed_loop (bank_amt : Z) (parts : list rule_part)
    (remaining : Z) (splits_to_insert : list pending)
  : flow (Z * list pending) :=
  match parts with
  | [] => inr (remaining, splits_to_insert)
  | p :: parts' =>
      if String.eqb (p_kind p) "fixed" then
        match p_value_cents p with
        | None => reject FixedWithoutValue
        | Some val_c =>
            let amt := fixed_amount bank_amt val_c in
            fixed_loop bank_amt parts' (remaining - amt)
              (splits_to_insert
                 ++ [mkPending (p_account p) (p_tenant_id p) amt (p_note_template p)])
        end
      else fixed_loop bank_amt parts' remaining splits_to_insert
  end.

(** An entry of [percent_parts]: [(account, tenant_id, float(val_p), note_t)]. *)
Record percent_part := mkPercent {
  pp_account : string;
  pp_tenant_id : option string;
  pp_pct : float;
  pp_note_t : option string }.

(** Second loop over [parts]: sums the percentages, collects the
    percent parts. *)
Fixpoint percent_scan (parts : list rule_part) (percent_sum : float)
    (percent_parts : list percent_part) : flow (float * list percent_part) :=
  match parts with
  | [] => inr (percent_sum, percent_parts)
  | p :: parts' =>
      if String.eqb (p_kind p) "percent" then
        match p_value_percent p with
        | None => reject PercentWithoutValue
        | Some val_p =>
            percent_scan parts' (percent_sum + val_p)%float
              (percent_parts
                 ++ [mkPercent (p_account p) (p_tenant_id p) val_p (p_note_template p)])
        end
      else percent_scan parts' percent_sum percent_parts
  end.

(** The loop over [percent_parts]: rounds each share of the bank amount. *)
Fixpoint percent_loop (bank_amt : Z) (percent_parts : list percent_part)
    (remaining : Z) (splits_to_insert : list pending)
  : flow (Z * list pending) :=
  match percent_parts with
  | [] => inr (remaining, splits_to_insert)
  | pp :: rest =>
      cents ← raising (percent_cents bank_amt (pp_pct pp));
      percent_loop bank_amt rest (remaining - cents)
        (splits_to_insert
           ++ [mkPending (pp_account pp) (pp_tenant_id pp) cents (pp_note_t pp)])
  end.

Definition remainder_parts (parts : list rule_part) : list rule_part :=
  List.filter (fun p => String.eqb (p_kind p) "remainder") parts.

(** The body of [apply_rule_to_bank] between the fetch of the parts and
    the balance check: everything that fills [splits_to_insert]. *)
Definition collect_splits (bank_amt : Z) (parts : list rule_part)
  : flow (list pending) :=
  '(remaining, splits_to_insert) ← fixed_loop bank_amt parts bank_amt [];
  '(percent_sum, percent_parts) ← percent_scan parts 0%float [];
  if (100.000001 <? percent_sum)%float then reject (PercentOverflow percent_sum)
  else
    '(remaining, splits_to_insert) ←
       percent_loop bank_amt percent_parts remaining splits_to_insert;
    match remainder_parts parts with
    | [] => inr splits_to_insert
    | [p] =>
        inr (splits_to_insert
               ++ [mkPending (p_account p) (p_tenant_id p) remaining (p_note_template p)])
    | _ :: _ :: _ => reject MultipleRemainder
    end.

(** [note_t or f"Auto: Regel {r[1]}"] *)
Definition note_or_auto (note_t : option string) (rule_name : string) : string :=
  match note_t with
  | Some n => if nonempty n then n else ("Auto: Regel " ++ rule_name)%string
  | None => ("Auto: Regel " ++ rule_name)%string
  end.

(** The final loop: one [INSERT] per entry of [splits_to_insert]. *)
Definition insert_splits (cx : db) (bank_id : Z) (rule_name : string)
    (splits_to_insert : list pending) : db :=
  fold_left
    (fun cx pd =>
       insert_split cx bank_id (pd_account pd) (pd_tenant_id pd) (pd_amt pd)
         (note_or_auto (pd_note_t pd) rule_name))
    splits_to_insert cx.

Definition total_of (splits_to_insert : list pending) : Z :=
  sum_Z (map pd_amt splits_to_insert).

Definition apply_rule_to_bank `{Regex} (cx : db) (rule_id bank_id : Z)
  : db * outcome :=
  match select_bank cx bank_id with
  | None => (cx, Returned false BankNotFound)
  | Some b =>
      match select_rule cx rule_id with
      | None => (cx, Returned false RuleNotFound)
      | Some r =>
          if negb (match_rule r b) then (cx, Returned false RuleDoesNotMatch)
          else
            let parts := select_rule_parts cx rule_id in
            match parts with
            | [] => (cx, Returned false NoParts)
            | _ :: _ =>
                let bank_amt := b_amount_cents b in
                match collect_splits bank_amt parts with
                | inl o => (cx, o)
                | inr splits_to_insert =>
                    let total := total_of splits_to_insert in
                    if negb (total =? bank_amt)
                    then (cx, Returned false (BalanceMismatch total bank_amt))
                    else
                      (insert_splits cx bank_id (r_name r) splits_to_insert,
                       Returned true
                         (SplitsCreated (List.length splits_to_insert) (r_name r)))
                end
            end
      end
  end.

(** What the final loop writes for one entry of [splits_to_insert]. *)
Definition written_as (bank_id : Z) (rule_name : string) (pd : pending)
    (s : split_row) : Prop :=
  s_bank_id s = bank_id
  /\ s_account s = pd_account pd
  /\ s_tenant_id s = pd_tenant_id pd
  /\ s_amount_cents s = pd_amt pd
  /\ s_note s = Some (note_or_auto (pd_note_t pd) rule_name).

(** ** Batch rule application *)

Record apply_rules_args := mkArgs {
  args_bank_id : option Z;
  args_only_unbalanced : bool }.

Definition bank_by_id (cx : db) : list bank_row :=
  sort_by (fun a b => b_id a <? b_id b) (bank cx).

(** The three ways [cmd_apply_rules] selects [bank_rows]:
    [if args.bank_id] (a given, non-zero id), [elif args.only_unbalanced],
    and all rows otherwise. *)
Definition select_bank_rows (cx : db) (args : apply_rules_args) : list bank_row :=
  let given :=
    match args_bank_id args with
    | Some id => if id =? 0 then None else Some id
    | None => None
    end in
  match given with
  | Some id => List.filter (fun b => b_id b =? id) (bank cx)
  | None =>
      if args_only_unbalanced args
      then List.filter
             (fun b => negb (split_sum cx (b_id b) - b_amount_cents b =? 0))
             (bank_by_id cx)
      else bank_by_id cx
  end.

(** [SELECT ... FROM rules WHERE active=1 ORDER BY priority, id] *)
Definition select_active_rules (cx : db) : list rule_row :=
  sort_by
    (fun r q =>
       (r_priority r <? r_priority q)
       || ((r_priority r =? r_priority q) && (r_id r <? r_id q)))
    (List.filter (fun r => r_active r =? 1) (rules cx)).

(** The inner loop [for r in rules] for one bank row: [inr true] when a
    rule was applied (the [break]), [inr false] when the rules ran out,
    [inl e] when [apply_rule_to_bank] raised. *)
Fixpoint try_rules `{Regex} (cx : db) (b : bank_row) (rs : list rule_row)
  : db * (exn + bool) :=
  match rs with
  | [] => (cx, inr false)
  | r :: rs' =>
      if match_rule r b then
        match apply_rule_to_bank cx (r_id r) (b_id b) with
        | (cx', Returned true _) => (cx', inr true)
        | (cx', Returned false _) => try_rules cx' b rs'
        | (cx', Raised e) => (cx', inl e)
        end
      else try_rules cx b rs'
  end.

(** [v and v[0] == b[2]] for the row [v] of [v_bank_with_sum] *)
Definition balanced (cx : db) (b : bank_row) : bool :=
  match select_split_sum cx (b_id b) with
  | Some v => v =? b_amount_cents b
  | None => false
  end.

(** The outer loop [for b in bank_rows], with the counter [applied]. *)
Fixpoint rows_loop `{Regex} (cx : db) (bank_rows : list bank_row)
    (rs : list rule_row) (applied : Z) : db * (exn + Z) :=
  match bank_rows with
  | [] => (cx, inr applied)
  | b :: rest =>
      if balanced cx b then rows_loop cx rest rs applied
      else
        match try_rules cx b rs with
        | (cx', inr true) => rows_loop cx' rest rs (applied + 1)
        | (cx', inr false) => rows_loop cx' rest rs applied
        | (cx', inl e) => (cx', inl e)
        end
  end.

(** [cmd_apply_rules] runs inside [with conn() as cx]: the connection
    commits when the block ends and rolls back when an exception leaves
    it. The result is the database afterwards and the count printed. *)
Definition cmd_apply_rules `{Regex} (cx : db) (args : apply_rules_args)
  : db * (exn + Z) :=
  let bank_rows := select_bank_rows cx args in
  let rs := select_active_rules cx in
  match rows_loop cx bank_rows rs 0 with
  | (cx', inr applied) => (cx', inr applied)
  | (_, inl e) => (cx, inl e)
  end.

(** ** Aging: payments and charges *)

Definition payment : Type := (date * Z)%type.

(** [fetch_payments]: the splits of a tenant on the given accounts,
    joined with their bank row, dated within [start_date, end_date],
    ordered by [b.op_date, s.id]; only positive amounts are kept. *)
Definition fetch_payments (cx : db) (tenant_id : string) (accounts : list string)
    (start_date end_date : date) : list payment :=
  let rows :=
    flat_map
      (fun s =>
         if match s_tenant_id s with
            | Some t => String.eqb t tenant_id
            | None => false
            end
            && existsb (String.eqb (s_account s)) accounts
         then
           map (fun b => (b_op_date b, s_id s, s_amount_cents s))
             (List.filter
                (fun b => (b_id b =? s_bank_id s)
                          && date_leb start_date (b_op_date b)
                          && date_leb (b_op_date b) end_date)
                (bank cx))
         else [])
      (splits cx) in
  let ordered :=
    sort_by
      (fun x y =>
         let '(d1, i1, _) := x in
         let '(d2, i2, _) := y in
         date_ltb d1 d2 || (date_eqb d1 d2 && (i1 <? i2)))
      rows in
  map (fun x => let '(d, _, c) := x in (d, c))
    (List.filter (fun x => let '(_, _, c) := x in 0 <? c) ordered).

(** The payments [cmd_rent_aging] hands to the allocator: three fetches,
    appended. *)
Definition rent_aging_payments (cx : db) (tid : string)
    (rent_accounts nk_accounts nka_accounts : list string)
    (start_date asof : date) : list payment :=
  fetch_payments cx tid rent_accounts start_date asof
    ++ fetch_payments cx tid nk_accounts start_date asof
    ++ fetch_payments cx tid nka_accounts start_date asof.

Record Charge := mkCharge {
  tenant_id : string;
  kind : string;
  due_date : date;
  amount_cents : Z;
  open_cents : Z }.

(** [Charge.__init__] *)
Definition Charge_init (tenant_id kind : string) (due_date : date)
    (amount_cents : Z) : Charge :=
  mkCharge tenant_id kind due_date amount_cents amount_cents.

(** [fetch_manual_charges], with [kinds or ['nka']] *)
Definition fetch_manual_charges (cx : db) (tid : string)
    (start_date end_date : date) (kinds : list string) : list Charge :=
  let kinds := match kinds with [] => ["nka"%string] | _ => kinds end in
  let rows :=
    sort_by
      (fun x y =>
         date_ltb (m_due_date x) (m_due_date y)
         || (date_eqb (m_due_date x) (m_due_date y) && (m_id x <? m_id y)))
      (List.filter
         (fun m => String.eqb (m_tenant_id m) tid
                   && existsb (String.eqb (m_kind m)) kinds
                   && date_leb start_date (m_due_date m)
                   && date_leb (m_due_date m) end_date)
         (manual_charges cx)) in
  map (fun m => Charge_init (m_tenant_id m) (m_kind m) (m_due_date m) (m_amount_cents m))
    rows.

(** ** Payment-to-charge allocator

    The [Charge] objects are mutated in place; a list of charges is a
    list of references into the heap that holds them. *)

Abbreviation heap := (list Charge).

(** Fresh objects for a list of charges, and the list of their references. *)
Definition allocate (cs : list Charge) : heap * list nat :=
  (cs, seq 0 (List.length cs)).

Inductive key :=
  | KeyDate (d : date)
  | KeyRankDate (pr : Z) (d : date).

Definition sort_key (priority : string) (c : Charge) : key :=
  if String.eqb priority "rent_first" then
    KeyRankDate
      (if String.eqb (kind c) "rent" then 0
       else if String.eqb (kind c) "nk" then 1 else 2)
      (due_date c)
  else if String.eqb priority "nk_first" then
    KeyRankDate
      (if String.eqb (kind c) "nk" then 0
       else if String.eqb (kind c) "rent" then 1 else 2)
      (due_date c)
  else if String.eqb priority "nka_first" then
    KeyRankDate
      (if String.eqb (kind c) "nka" then 0
       else if String.eqb (kind c) "rent" then 1 else 2)
      (due_date c)
  else KeyDate (due_date c).

(** Tuple comparison; one call only ever compares keys of one shape. *)
Definition key_ltb (a b : key) : bool :=
  match a, b with
  | KeyDate d1, KeyDate d2 => date_ltb d1 d2
  | KeyRankDate p1 d1, KeyRankDate p2 d2 =>
      (p1 <? p2) || ((p1 =? p2) && date_ltb d1 d2)
  | _, _ => false
  end.

Definition ref_key_ltb (h : heap) (priority : string) (x y : nat) : bool :=
  match h !! x, h !! y with
  | Some cx, Some cy => key_ltb (sort_key priority cx) (sort_key priority cy)
  | _, _ => false
  end.

(** [[c for c in charges if c.due_date <= asof and c.open_cents > 0]] *)
Definition eligible_charges (h : heap) (charges : list nat) (asof : date)
  : list nat :=
  List.filter
    (fun c =>
       match h !! c with
       | Some ch => date_leb (due_date ch) asof && (0 <? open_cents ch)
       | None => false
       end)
    charges.

(** [[(d, amt) for (d, amt) in payments if d <= asof]] *)
Definition eligible_payments (payments : list payment) (asof : date)
  : list payment :=
  List.filter (fun p => date_leb (fst p) asof) payments.

Definition set_open (ch : Charge) (v : Z) : Charge :=
  mkCharge (tenant_id ch) (kind ch) (due_date ch) (amount_cents ch) v.

(** One pass of the inner loop body, for the charge [c], entered with
    [remaining > 0]: [continue] on a settled charge, otherwise take
    [min(c.open_cents, remaining)]. *)
Definition visit (h : heap) (remaining : Z) (c : nat) : heap * Z :=
  match h !! c with
  | Some ch =>
      if open_cents ch <=? 0 then (h, remaining)
      else
        let take := Z.min (open_cents ch) remaining in
        (<[c := set_open ch (open_cents ch - take)]> h, remaining - take)
  | None => (h, remaining)
  end.

(** The inner loop [for c in charges], with its [break]. *)
Fixpoint walk (charges : list nat) (h : heap) (remaining : Z) : heap * Z :=
  match charges with
  | [] => (h, remaining)
  | c :: rest =>
      if remaining <=? 0 then (h, remaining)
      else let '(h', remaining') := visit h remaining c in walk rest h' remaining'
  end.

(** The outer loop [for _, amt in payments]: what is left of a payment
    after its walk is dropped. *)
Definition pay_all (charges : list nat) (payments : list payment) (h : heap)
  : heap :=
  fold_left (fun h p => fst (walk charges h (snd p))) payments h.

Definition apply_payments_fifo (h : heap) (charges : list nat)
    (payments : list payment) (asof : date) (priority : string)
  : heap * list nat :=
  let charges := eligible_charges h charges asof in
  let charges := sort_by (ref_key_ltb h priority) charges in
  let payments := eligible_payments payments asof in
  (pay_all charges payments h, charges).

(** ** Aging bucketizer *)

Definition bucket_for (days_overdue : Z) : string :=
  if days_overdue <=? 30 then "0-30"
  else if days_overdue <=? 60 then "31-60"
  else if days_overdue <=? 90 then "61-90"
  else "90+".

(** ** Steps and invariants of the allocator *)

(** What may happen to a charge during allocation: everything but the
    open amount stays, the open amount does not grow, and it does not
    fall below zero (a charge that is not open is left as it is). *)
Definition shrinks (ch ch' : Charge) : Prop :=
  tenant_id ch' = tenant_id ch
  /\ kind ch' = kind ch
  /\ due_date ch' = due_date ch
  /\ amount_cents ch' = amount_cents ch
  /\ open_cents ch' <= open_cents ch
  /\ Z.min 0 (open_cents ch) <= open_cents ch'.

Definition heap_shrinks (h h' : heap) : Prop :=
  List.length h' = List.length h
  /\ forall r ch, h !! r = Some ch -> exists ch', h' !! r = Some ch' /\ shrinks ch ch'.

(** One step of the allocator: the inner loop body run on some charge,
    with something left of the payment. *)
Definition alloc_step (h h' : heap) : Prop :=
  exists remaining c, 0 < remaining /\ h' = fst (visit h remaining c).

(** The invariant of a charge. *)
Definition open_within_amount (ch : Charge) : Prop :=
  0 <= open_cents ch <= amount_cents ch.

(** What a list of payments can settle in all: a payment that is not
    positive settles nothing. *)
Definition pooled (payments : list payment) : Z :=
  sum_Z (map (fun p => Z.max 0 (snd p)) payments).

(** The sum of the amounts of the payments dated up to [asof]. *)
Definition eligible_total (payments : list payment) (asof : date) : Z :=
  sum_Z (map snd (eligible_payments payments asof)).

(** What is open of the charge [c], and what the charges in front of
    position [i] of a list have open together. *)
Definition open_part (h : heap) (c : nat) : Z :=
  match h !! c with
  | Some ch => Z.max 0 (open_cents ch)
  | None => 0
  end.

Definition open_before (h : heap) (charges : list nat) (i : nat) : Z :=
  sum_Z (map (open_part h) (take i charges)).

(** ** The allocator as the specification words it

    "Process payments in chronological order (ties broken by original
    insertion order)": the payments are put in date order first, by a
    stable sort, and then walked as the code walks them. *)
Definition spec_chronological (payments : list payment) : list payment :=
  sort_by (fun p q => date_ltb (fst p) (fst q)) payments.

Definition spec_apply_payments (h : heap) (charges : list nat)
    (payments : list payment) (asof : date) (priority : string)
  : heap * list nat :=
  apply_payments_fifo h charges (spec_chronological payments) asof priority.

(** ** The example of the specification

    A rent charge of 850.00 and an operating-cost advance of 200.00, both
    due on 2025-07-03, and one payment of 900.00 on 2025-07-05. *)

Definition d_2025_07_03 : date := mkDate 2025 7 3.
Definition d_2025_07_05 : date := mkDate 2025 7 5.

Definition example_charges (tid : string) : list Charge :=
  [Charge_init tid "rent" d_2025_07_03 85000;
   Charge_init tid "nk" d_2025_07_03 20000].

Definition example_payments : list payment := [(d_2025_07_05, 90000)].

(** ** A small ledger for the examples

    Three bank rows and ten rules. None of the rules carries a regular
    expression, so the engine below, which reports every pattern as
    malformed, is never consulted. *)

Definition no_regex : Regex := {| re_search := fun _ _ => None |}.

Definition example_bank : list bank_row :=
  [mkBank 1 d_2025_07_05 (-12000) (Some "Stadtwerke Abschlag"%string);
   mkBank 2 d_2025_07_05 10000 (Some "Miete Mueller"%string);
   mkBank 3 d_2025_07_05 0 (Some "Storno"%string)].

Definition example_rules : list rule_row :=
  [mkRule 1 "Stadtwerke" (Some "%Stadtwerke%"%string) None None "out" 10 1 None;
   mkRule 2 "Drittel" None None None "any" 20 1 None;
   mkRule 3 "Ueberzogen" None None None "any" 30 1 None;
   mkRule 4 "Ohne Betrag" None None None "any" 40 1 None;
   mkRule 5 "Storno" (Some "Storno"%string) None None "any" 50 1 None;
   mkRule 6 "Unendlich" None None None "any" 60 1 None;
   mkRule 7 "Leer" None None None "any" 70 1 None;
   mkRule 8 "Ohne Prozent" None None None "any" 80 1 None;
   mkRule 9 "Zwei Reste" None None None "any" 90 1 None;
   mkRule 10 "Minus unendlich" (Some "Storno"%string) None None "any" 100 1 None].

Definition example_rule_parts : list rule_part :=
  [mkPart 1 1 "4000" None "fixed" (Some 5000) None None;
   mkPart 2 1 "4010" None "percent" None (Some 50.0%float) None;
   mkPart 3 1 "4020" None "remainder" None None None;
   mkPart 4 2 "3000" (Some "M001"%string) "percent" None (Some 33.33%float) None;
   mkPart 5 2 "3000" (Some "M002"%string) "percent" None (Some 33.33%float) None;
   mkPart 6 2 "3000" (Some "M003"%string) "percent" None (Some 33.33%float) None;
   mkPart 7 3 "3000" None "fixed" (Some 5000) None None;
   mkPart 8 3 "3010" None "percent" None (Some 60.0%float) None;
   mkPart 9 3 "3020" None "percent" None (Some 40.01%float) None;
   mkPart 10 4 "3000" None "fixed" None None None;
   mkPart 11 4 "3010" None "percent" None (Some 60.0%float) None;
   mkPart 12 4 "3020" None "percent" None (Some 40.01%float) None;
   mkPart 13 5 "5300" None "fixed" (Some (-5000)) None None;
   mkPart 14 5 "1000" None "remainder" None None None;
   mkPart 15 6 "3000" None "percent" None (Some infinity) None;
   mkPart 16 8 "3000" None "percent" None None None;
   mkPart 17 9 "3000" None "remainder" None None None;
   mkPart 18 9 "3010" None "remainder" None None None;
   mkPart 19 10 "3000" None "percent" None (Some neg_infinity) None].

Definition example_db : db :=
  {| bank := example_bank;
     splits := [];
     splits_seq := 0;
     rules := example_rules;
     rule_parts := example_rule_parts;
     manual_charges := [] |}.

(** ** A small ledger for the aging examples

    The tenant M001 paid the operating-cost advance on 2025-07-01 and
    the rent on 2025-07-05, and holds a credit of 5.00 from a
    settlement. *)

Definition d_2025_07_01 : date := mkDate 2025 7 1.

Definition aging_db : db :=
  {| bank :=
       [mkBank 1 d_2025_07_01 20000 (Some "NK Juli M001"%string);
        mkBank 2 d_2025_07_05 85000 (Some "Miete Juli M001"%string)];
     splits :=
       [mkSplit 1 1 "3010" (Some "M001"%string) 20000 None;
        mkSplit 2 2 "3000" (Some "M001"%string) 85000 None];
     splits_seq := 2;
     rules := [];
     rule_parts := [];
     manual_charges := [mkManual 1 "M001" "nka" d_2025_07_03 (-500) None] |}.

(** The payments of M001 as [cmd_rent_aging] collects them for the
    as-of date 2025-07-05, with the default accounts. *)
Definition aging_payments : list payment :=
  rent_aging_payments aging_db "M001" ["3000"%string] ["3010"%string]
    ["3020"%string] d_2025_07_01 d_2025_07_05.

(** The example ledger after the rule "Stadtwerke" has split bank row 1. *)
Definition example_db_split : db :=
  {| bank := example_bank;
     splits :=
       [mkSplit 1 1 "4000" None (-5000) (Some "Auto: Regel Stadtwerke"%string);
        mkSplit 2 1 "4010" None (-6000) (Some "Auto: Regel Stadtwerke"%string);
        mkSplit 3 1 "4020" None (-1000) (Some "Auto: Regel Stadtwerke"%string)];
     splits_seq := 3;
     rules := example_rules;
     rule_parts := example_rule_parts;
     manual_charges := [] |}.

(** ** Calendar

    [calendar.monthrange(y, m)[1]], the constructor [date(y, m, d)] and
    [date.toordinal()], as CPython computes them. A call that raises
    ([IllegalMonthError], [ValueError]) is [None]. A month text
    [YYYY-MM] is the pair of integers it is parsed to. *)

Definition month_id : Type := (Z * Z)%type.

Definition is_leap (y : Z) : bool :=
  (y mod 4 =? 0) && (negb (y mod 100 =? 0) || (y mod 400 =? 0)).

Definition monthrange_days (y m : Z) : option Z :=
  if (1 <=? m) && (m <=? 12) then
    Some (if m =? 2 then (if is_leap y then 29 else 28)
          else if (m =? 4) || (m =? 6) || (m =? 9) || (m =? 11) then 30
          else 31)
  else None.

Definition new_date (y m d : Z) : option date :=
  if (1 <=? y) && (y <=? 9999) then
    match monthrange_days y m with
    | Some dim => if (1 <=? d) && (d <=? dim) then Some (mkDate y m d) else None
    | None => None
    end
  else None.

Definition days_before_year (y : Z) : Z :=
  (y - 1) * 365 + (y - 1) / 4 - (y - 1) / 100 + (y - 1) / 400.

Definition days_before_month (y m : Z) : Z :=
  nth (Z.to_nat m) [-1; 0; 31; 59; 90; 120; 151; 181; 212; 243; 273; 304; 334] 0
  + (if (2 <? m) && is_leap y then 1 else 0).

Definition toordinal (d : date) : Z :=
  days_before_year (year d) + days_before_month (year d) (month d) + day d.

(** [month_bounds]: the first and the last day of a month. *)
Definition month_bounds (yyyymm : month_id) : option (date * date) :=
  let '(y, m) := yyyymm in
  match new_date y m 1 with
  | Some first =>
      match monthrange_days y m with
      | Some last_day =>
          match new_date y m last_day with
          | Some last => Some (first, last)
          | None => None
          end
      | None => None
      end
  | None => None
  end.

Definition add_months (d : date) (n : Z) : option date :=
  let m := month d - 1 + n in
  let y := year d + m / 12 in
  let m := m mod 12 + 1 in
  match monthrange_days y m with
  | Some last_day => new_date y m (Z.min (day d) last_day)
  | None => None
  end.

(** The generator [iter_months]: the months it yields, and whether it
    ends by raising instead of running out. The loop runs on fuel; the
    second definition gives it more than it can use. *)
Fixpoint iter_months_loop (fuel : nat) (cur end_ : date)
  : option (list month_id * bool) :=
  match fuel with
  | O => None
  | S fuel' =>
      if date_leb cur end_ then
        match add_months cur 1 with
        | Some next =>
            match iter_months_loop fuel' next end_ with
            | Some (ms, raised) => Some ((year cur, month cur) :: ms, raised)
            | None => None
            end
        | None => Some ([(year cur, month cur)], true)
        end
      else Some ([], false)
  end.

Definition month_index (yyyymm : month_id) : Z := 12 * fst yyyymm + (snd yyyymm - 1).

Definition iter_months (start_yyyymm end_yyyymm : month_id)
  : option (list month_id * bool) :=
  match new_date (fst start_yyyymm) (snd start_yyyymm) 1 with
  | Some cur =>
      match new_date (fst end_yyyymm) (snd end_yyyymm) 1 with
      | Some end_ =>
          iter_months_loop
            (S (Z.to_nat (month_index end_yyyymm - month_index start_yyyymm + 1)))
            cur end_
      | None => Some ([], true)
      end
  | None => Some ([], true)
  end.

Definition make_due_date (yyyymm : month_id) (due_day : Z) : option date :=
  let '(y, m) := yyyymm in
  match monthrange_days y m with
  | Some last_day => new_date y m (Z.min due_day last_day)
  | None => None
  end.

(** The months [cmd_rent_aging] collects charges for: from
    [--from-month], or else from eleven months before the month of the
    as-of date, up to that month. *)
Definition aging_months (asof : date) (from_month : option month_id)
  : option (list month_id * bool) :=
  let start_month :=
    match from_month with
    | Some m => Some m
    | None =>
        match new_date (year asof) (month asof) 1 with
        | Some start_base =>
            match add_months start_base (-11) with
            | Some tmp => Some (year tmp, month tmp)
            | None => None
            end
        | None => None
        end
    end in
  let end_month := (year asof, month asof) in
  match start_month with
  | Some start_month => iter_months start_month end_month
  | None => None
  end.

(** ** Leases and the charges of a month *)

Record lease_row := mkLease {
  l_tenant_id : string;
  l_since_date : date;
  l_until_date : option date;
  l_rent_cents : Z;
  l_nk_cents : Z;
  l_due_day : Z;
  l_tolerance_cents : Z;
  l_grace_days : Z }.

(** [since_date <= last AND (until_date IS NULL OR until_date >= first)] *)
Definition lease_active (first last : date) (l : lease_row) : bool :=
  date_leb (l_since_date l) last
  && match l_until_date l with
     | Some until_date => date_leb first until_date
     | None => true
     end.

(** [active_leases_in_month], over the table [leases], which is handed
    over beside the store. *)
Definition active_leases_in_month (leases : list lease_row) (yyyymm : month_id)
  : option (list lease_row) :=
  match month_bounds yyyymm with
  | Some (first, last) =>
      Some (sort_by
              (fun a b =>
                 String.ltb (l_tenant_id a) (l_tenant_id b)
                 || (String.eqb (l_tenant_id a) (l_tenant_id b)
                     && date_ltb (l_since_date a) (l_since_date b)))
              (List.filter (lease_active first last) leases))
  | None => None
  end.

(** The charges one lease row adds in [build_monthly_charges]. *)
Definition lease_charges (month : month_id) (l : lease_row) : option (list Charge) :=
  match make_due_date month (l_due_day l) with
  | Some d =>
      Some ((if l_rent_cents l =? 0 then []
             else [Charge_init (l_tenant_id l) "rent" d (l_rent_cents l)])
            ++ (if l_nk_cents l =? 0 then []
                else [Charge_init (l_tenant_id l) "nk" d (l_nk_cents l)]))
  | None => None
  end.

Fixpoint build_charges_loop (month : month_id) (ls : list lease_row)
    (charges : list Charge) : option (list Charge) :=
  match ls with
  | [] => Some charges
  | l :: ls' =>
      match lease_charges month l with
      | Some cs => build_charges_loop month ls' (charges ++ cs)
      | None => None
      end
  end.

Definition build_monthly_charges (leases : list lease_row) (month : month_id)
  : option (list Charge) :=
  match active_leases_in_month leases month with
  | Some ls => build_charges_loop month ls []
  | None => None
  end.

(** ** Aging buckets

    The loop of [cmd_rent_aging] over the charges the allocator returns.
    The dictionary [buckets] is an association list; adding to a key it
    does not hold is the [KeyError], here [None]. *)

Definition buckets : Type := list (string * Z).

Definition empty_buckets : buckets :=
  [("0-30"%string, 0); ("31-60"%string, 0); ("61-90"%string, 0); ("90+"%string, 0)].

Fixpoint bucket_add (k : string) (v : Z) (d : buckets) : option buckets :=
  match d with
  | [] => None
  | (k', v') :: d' =>
      if String.eqb k' k then Some ((k', v' + v) :: d')
      else match bucket_add k v d' with
           | Some d'' => Some ((k', v') :: d'')
           | None => None
           end
  end.

(** [for c in charges: if c.open_cents <= 0: continue; ...], with the
    state [(buckets, total_open)]. *)
Fixpoint bucket_loop (h : heap) (asof : date) (charges : list nat)
    (bs : buckets) (total : Z) : option (buckets * Z) :=
  match charges with
  | [] => Some (bs, total)
  | c :: rest =>
      match h !! c with
      | Some ch =>
          if open_cents ch <=? 0 then bucket_loop h asof rest bs total
          else
            let days := toordinal asof - toordinal (due_date ch) in
            match bucket_add (bucket_for days) (open_cents ch) bs with
            | Some bs' => bucket_loop h asof rest bs' (total + open_cents ch)
            | None => None
            end
      | None => bucket_loop h asof rest bs total
      end
  end.

(** The aging of one tenant from the charges collected for it: the
    allocation, then the buckets. *)
Definition tenant_aging (h : heap) (charges : list nat) (payments : list payment)
    (asof : date) (priority : string) : option (buckets * Z) :=
  let '(h', charges') := apply_payments_fifo h charges payments asof priority in
  bucket_loop h' asof charges' empty_buckets 0.

(** A date that [date(y, m, d)] accepts. *)
Definition valid_date (d : date) : Prop :=
  new_date (year d) (month d) (day d) = Some d.

(** The months from one month to another, both included, by counting. *)
Definition month_of_index (i : Z) : month_id := (i / 12, i mod 12 + 1).

Definition months_between (first last : month_id) : list month_id :=
  map (fun k => month_of_index (month_index first + Z.of_nat k))
    (seq 0 (Z.to_nat (month_index last - month_index first + 1))).

Definition valid_month (yyyymm : month_id) : Prop :=
  1 <= fst yyyymm <= 9999 /\ 1 <= snd yyyymm <= 12.

Definition month_of_date (c : Charge) : Z := month (due_date c).

(** ** Frames

    What a command that only writes splits leaves alone. *)

Definition same_tables (cx cx' : db) : Prop :=
  bank cx' = bank cx
  /\ rules cx' = rules cx
  /\ rule_parts cx' = rule_parts cx
  /\ manual_charges cx' = manual_charges cx.

Definition is_kind (k : string) (p : rule_part) : bool := String.eqb (p_kind p) k.

(** The shape of a sort key: a date alone, or a rank and a date. *)
Definition key_has_rank (k : key) : bool :=
  match k with KeyDate _ => false | KeyRankDate _ _ => true end.

(** What a list of charges has open in all. *)
Definition total_open (h : heap) (charges : list nat) : Z :=
  sum_Z (map (open_part h) charges).

(** What the charges whose days overdue fall into bucket [k] have open. *)
Definition in_bucket (h : heap) (asof : date) (k : string) (c : nat) : bool :=
  match h !! c with
  | Some ch => String.eqb (bucket_for (toordinal asof - toordinal (due_date ch))) k
  | None => false
  end.

Definition bucket_share (h : heap) (asof : date) (charges : list nat) (k : string) : Z :=
  sum_Z (map (open_part h) (List.filter (in_bucket h asof k) charges)).

(** ** The aging of one tenant

    The body of the loop of [cmd_rent_aging] over the tenants. *)





(** ** Rent check

    [sum_paid_for] and [date_paid_full] read the same rows:
    [FROM splits s JOIN bank b ON b.id = s.bank_id WHERE s.tenant_id=?
    AND s.account IN (...) AND b.op_date BETWEEN ? AND ?], here as
    [(b.op_date, s.id, s.amount_cents)]. *)

Definition paid_rows (cx : db) (tenant_id : string) (accounts : list string)
    (first last : date) : list (date * Z * Z) :=
  flat_map
    (fun s =>
       if match s_tenant_id s with
          | Some t => String.eqb t tenant_id
          | None => false
          end
          && existsb (String.eqb (s_account s)) accounts
       then
         map (fun b => (b_op_date b, s_id s, s_amount_cents s))
           (List.filter
              (fun b => (b_id b =? s_bank_id s)
                        && date_leb first (b_op_date b)
                        && date_leb (b_op_date b) last)
              (bank cx))
       else [])
    (splits cx).

(** [sum_paid_for]: [IFNULL(SUM(s.amount_cents),0)]; [None] when
    [month_bounds] raises. *)
Definition sum_paid_for (cx : db) (tenant_id : string) (accounts : list string)
    (yyyymm : month_id) : option Z :=
  match month_bounds yyyymm with
  | Some (first, last) =>
      Some (sum_Z (map snd (paid_rows cx tenant_id accounts first last)))
  | None => None
  end.

(** The rows of [date_paid_full]: [ORDER BY b.op_date, s.id]. *)
Definition paid_rows_ordered (cx : db) (tenant_id : string)
    (accounts : list string) (first last : date) : list (date * Z) :=
  map (fun x => let '(d, _, c) := x in (d, c))
    (sort_by
       (fun x y =>
          let '(d1, i1, _) := x in
          let '(d2, i2, _) := y in
          date_ltb d1 d2 || (date_eqb d1 d2 && (i1 <? i2)))
       (paid_rows cx tenant_id accounts first last)).

(** [for d, c in rows: run += c; if run >= target_cents: return d] *)
Fixpoint paid_full_loop (rows : list (date * Z)) (run target_cents : Z)
  : option date :=
  match rows with
  | [] => None
  | (d, c) :: rest =>
      let run := run + c in
      if target_cents <=? run then Some d
      else paid_full_loop rest run target_cents
  end.

(** [date_paid_full]: the outer [None] is the exception of
    [month_bounds], the inner one the [None] the function returns. *)
Definition date_paid_full (cx : db) (tenant_id : string) (accounts : list string)
    (yyyymm : month_id) (target_cents : Z) : option (option date) :=
  match month_bounds yyyymm with
  | Some (first, last) =>
      Some (paid_full_loop (paid_rows_ordered cx tenant_id accounts first last)
              0 target_cents)
  | None => None
  end.

(** [status_component] of [cmd_rent_check], with the [tol_c] of the
    lease it closes over. *)
Definition status_component (tol_c paid due : Z) : string :=
  if Z.abs (paid - due) <=? tol_c then "OK"
  else if (0 <? paid) && (paid <? due - tol_c) then "Teil"
  else if due + tol_c <? paid then "Über"
  else "Fehlt".

(** The expression [overall]; [x in (st_rent, st_nk)] is [has x]. *)
Definition overall (st_rent st_nk : string) : string :=
  let has x := String.eqb x st_rent || String.eqb x st_nk in
  if String.eqb st_rent "OK" && String.eqb st_nk "OK" then "OK"
  else if has "Teil"%string || (has "OK"%string && has "Fehlt"%string) then "Teil"
  else if String.eqb st_rent "Fehlt" && String.eqb st_nk "Fehlt" then "Fehlt"
  else "Über".

Record rent_check_line := mkLine {
  rc_tenant : string;
  rc_rent_due : Z;
  rc_rent_paid : Z;
  rc_nk_due : Z;
  rc_nk_paid : Z;
  rc_overall : string;
  rc_late_flag : string }.

(** The body of the loop of [cmd_rent_check] for one lease: the line it
    prints, or [None] when it raises. The columns [tolerance_cents] and
    [grace_days] hold integers, as [cmd_add_lease] writes them. The due
    date is the expression of [make_due_date], written out in the
    source. *)
Definition rent_check_lease (cx : db) (rent_accounts nk_accounts : list string)
    (month : month_id) (l : lease_row) : option rent_check_line :=
  let tid := l_tenant_id l in
  let rent_c := l_rent_cents l in
  let nk_c := l_nk_cents l in
  let tol_c := l_tolerance_cents l in
  match sum_paid_for cx tid rent_accounts month with
  | None => None
  | Some paid_rent =>
      match sum_paid_for cx tid nk_accounts month with
      | None => None
      | Some paid_nk =>
          let st_rent := status_component tol_c paid_rent rent_c in
          let st_nk := status_component tol_c paid_nk nk_c in
          match make_due_date month (l_due_day l) with
          | None => None
          | Some due_date =>
              let late_flag :=
                if String.eqb st_rent "OK" then
                  match date_paid_full cx tid rent_accounts month (rent_c - tol_c) with
                  | None => None
                  | Some (Some d_paid) =>
                      let limit := toordinal due_date + l_grace_days l in
                      Some (if limit <? toordinal d_paid
                            then "zu spät"%string else "OK"%string)
                  | Some None => Some "-"%string
                  end
                else Some "-"%string in
              match late_flag with
              | None => None
              | Some late_flag =>
                  Some (mkLine tid rent_c paid_rent nk_c paid_nk
                          (overall st_rent st_nk) late_flag)
              end
          end
      end
  end.

(** ** Unbalanced bank rows

    [cmd_unbalanced]: the rows of the view whose split sum differs from
    the bank amount, by id, each with its split sum and the
    difference. *)
Definition cmd_unbalanced (cx : db) : list (bank_row * Z * Z) :=
  map (fun b => (b, split_sum cx (b_id b), split_sum cx (b_id b) - b_amount_cents b))
    (List.filter
       (fun b => negb (split_sum cx (b_id b) - b_amount_cents b =? 0))
       (bank_by_id cx)).

(** ** Settlement charges with payments

    [cmd_list_nka] with [--with-payments]: the settlement charges of a
    tenant by due date, served in that order from one pool of the
    payments on the settlement accounts. *)

(** [WHERE tenant_id=? AND kind='nka' ORDER BY due_date, id] *)
Definition select_nka_rows (cx : db) (tenant_id : string) : list manual_charge :=
  sort_by
    (fun x y =>
       date_ltb (m_due_date x) (m_due_date y)
       || (date_eqb (m_due_date x) (m_due_date y) && (m_id x <? m_id y)))
    (List.filter
       (fun m => String.eqb (m_tenant_id m) tenant_id && String.eqb (m_kind m) "nka")
       (manual_charges cx)).

Record nka_line := mkNkaLine {
  nl_id : Z;
  nl_orig : Z;
  nl_paid : Z;
  nl_open : Z }.

Record nka_state := mkNkaState {
  payment_pool : Z;
  total_orig : Z;
  total_paid : Z;
  total_open_nka : Z;
  printed : list nka_line }.

(** One turn of the loop over the rows. *)
Definition nka_step (st : nka_state) (r : manual_charge) : nka_state :=
  let orig := m_amount_cents r in
  let total_orig := total_orig st + orig in
  let '(paid_here, open_here, payment_pool) :=
    if 0 <=? orig then
      let paid_here := Z.min orig (Z.max 0 (payment_pool st)) in
      (paid_here, orig - paid_here, payment_pool st - paid_here)
    else (0, 0, payment_pool st + Z.abs orig) in
  mkNkaState payment_pool total_orig (total_paid st + paid_here)
    (total_open_nka st + open_here)
    (printed st ++ [mkNkaLine (m_id r) orig paid_here open_here]).

Definition nka_loop (rows : list manual_charge) (st : nka_state) : nka_state :=
  fold_left nka_step rows st.

(** The part of [cmd_list_nka] after [if not args.with_payments]; [None]
    is the early return when the tenant has no settlement charge. *)
Definition list_nka_with_payments (cx : db) (tenant_id : string)
    (nka_accounts : list string) (asof : date) : option nka_state :=
  match select_nka_rows cx tenant_id with
  | [] => None
  | rows =>
      let start_date := mkDate 1900 1 1 in
      let payments := fetch_payments cx tenant_id nka_accounts start_date asof in
      let payment_pool := sum_Z (map snd payments) in
      Some (nka_loop rows (mkNkaState payment_pool 0 0 0 []))
  end.

(** The receivables among the rows (amount not negative) and the credits. *)
Definition receivables_total (rows : list manual_charge) : Z :=
  sum_Z (map m_amount_cents (List.filter (fun r => 0 <=? m_amount_cents r) rows)).

Definition credits_total (rows : list manual_charge) : Z :=
  sum_Z (map (fun r => Z.abs (m_amount_cents r))
           (List.filter (fun r => negb (0 <=? m_amount_cents r)) rows)).

(** What the line printed for a row shows. *)
Definition nka_line_of (r : manual_charge) (line : nka_line) : Prop :=
  nl_id line = m_id r
  /\ nl_orig line = m_amount_cents r
  /\ (0 <= m_amount_cents r ->
      0 <= nl_paid line <= nl_orig line
      /\ nl_open line = nl_orig line - nl_paid line)
  /\ (m_amount_cents r < 0 -> nl_paid line = 0 /\ nl_open line = 0).

(** ** Manual splits

    [cmd_add_split]. The tables [accounts] and [tenants] are handed over
    beside the store, as the lists of their keys. [parse_amount_token]
    reads an amount with Python's [int] and [decimal.Decimal]; it is a
    parameter here, [None] standing for the exception it raises on a
    token it cannot read. *)

Class AmountParser := { parse_amount_token : string -> option Z }.

Definition inserted_split : Type := (string * option string * Z)%type.

(** What the command prints, or that it raised. *)
Inductive add_split_message :=
  | NotTriples
  | BankIdNotFound
  | AccountUnknown (account : string)
  | TenantUnknown (tenant_id : string)
  | SplitsAdded (inserted : list inserted_split) (tot bank_amount diff : Z)
  | AddSplitRaised.

(** A dash or the empty string in the place of the tenant stands for
    no tenant. *)
Definition tenant_of_token (tok : string) : option string :=
  if String.eqb tok "-" || String.eqb tok EmptyString then None else Some tok.

(** The loop [for i in range(0, len(args.triples), 3)]; [inl] is a
    [return] from within the loop or an exception, [inr] the list
    [inserted] when the loop has run through. *)
Fixpoint add_split_loop `{AmountParser} (accounts tenants : list string) (cx : db)
    (bank_id : Z) (triples : list string) (inserted : list inserted_split)
  : db * (add_split_message + list inserted_split) :=
  match triples with
  | [] => (cx, inr inserted)
  | account :: amount_tok :: tenant_tok :: rest =>
      match parse_amount_token amount_tok with
      | None => (cx, inl AddSplitRaised)
      | Some amount_cents =>
          let tenant_id := tenant_of_token tenant_tok in
          if negb (existsb (String.eqb account) accounts)
          then (cx, inl (AccountUnknown account))
          else
            let unknown :=
              match tenant_id with
              | Some t => if existsb (String.eqb t) tenants then None else Some t
              | None => None
              end in
            match unknown with
            | Some t => (cx, inl (TenantUnknown t))
            | None =>
                add_split_loop accounts tenants
                  (insert_split cx bank_id account tenant_id amount_cents EmptyString)
                  bank_id rest
                  (inserted ++ [(account, tenant_id, amount_cents)])
            end
      end
  | _ => (cx, inl AddSplitRaised)
  end.

(** The command runs inside [with conn() as cx]: a [return] from the
    block commits what was written, an exception rolls it back. *)
Definition cmd_add_split `{AmountParser} (accounts tenants : list string) (cx : db)
    (bank_id : Z) (triples : list string) : db * add_split_message :=
  if negb (Z.of_nat (List.length triples) mod 3 =? 0) then (cx, NotTriples)
  else
    match select_bank cx bank_id with
    | None => (cx, BankIdNotFound)
    | Some b =>
        let bank_amount := b_amount_cents b in
        match add_split_loop accounts tenants cx bank_id triples [] with
        | (_, inl AddSplitRaised) => (cx, AddSplitRaised)
        | (cx', inl msg) => (cx', msg)
        | (cx', inr inserted) =>
            let tot := sum_Z (map s_amount_cents (splits_of cx' bank_id)) in
            (cx', SplitsAdded inserted tot bank_amount (tot - bank_amount))
        end
    end.

(** The arguments in groups of three, and the split written for a
    group. *)
Fixpoint triples_of (toks : list string) : list (string * string * string) :=
  match toks with
  | a :: b :: c :: rest => (a, b, c) :: triples_of rest
  | _ => []
  end.

Definition split_of_triple `{AmountParser} (accounts tenants : list string)
    (bank_id : Z) (g : string * string * string) (s : split_row) : Prop :=
  let '(account, amount_tok, tenant_tok) := g in
  s_bank_id s = bank_id
  /\ s_account s = account
  /\ parse_amount_token amount_tok = Some (s_amount_cents s)
  /\ s_tenant_id s = tenant_of_token tenant_tok
  /\ s_note s = Some EmptyString
  /\ In account accounts
  /\ (forall t, s_tenant_id s = Some t -> In t tenants).

(** A parser for the examples: it reads a run of digits as cents and
    raises on anything else. *)
Definition digit_value (c : ascii) : option Z :=
  let n := Z.of_nat (nat_of_ascii c) in
  if (48 <=? n) && (n <=? 57) then Some (n - 48) else None.

Fixpoint read_digits (tok : string) (acc : Z) : option Z :=
  match tok with
  | EmptyString => Some acc
  | String c rest =>
      match digit_value c with
      | Some d => read_digits rest (10 * acc + d)
      | None => None
      end
  end.

Definition digits_only : AmountParser :=
  {| parse_amount_token := fun tok =>
       match tok with
       | EmptyString => None
       | _ => read_digits tok 0
       end |}.

(** ** Leases and settlement charges for the examples

    M001 rents from January 2025 with the payments of the aging ledger;
    the lease of M002 ends in June 2025, asks for no operating-cost
    advance and is due on the 31st. The settlement ledger holds two
    charges of M001 with a credit between them, and one payment. *)

Definition lease_M001 : lease_row :=
  mkLease "M001" (mkDate 2025 1 1) None 85000 20000 3 0 3.

Definition example_leases : list lease_row :=
  [mkLease "M002" (mkDate 2024 6 1) (Some (mkDate 2025 6 30)) 70000 0 31 500 3;
   lease_M001].

Definition settlement_db : db :=
  {| bank := [mkBank 1 (mkDate 2025 9 20) 12000 (Some "NKA 2024 M001"%string)];
     splits := [mkSplit 1 1 "3020" (Some "M001"%string) 12000 None];
     splits_seq := 1;
     rules := [];
     rule_parts := [];
     manual_charges :=
       [mkManual 1 "M001" "nka" (mkDate 2025 9 15) 18000 None;
        mkManual 2 "M001" "nka" (mkDate 2025 10 1) (-5000) None;
        mkManual 3 "M001" "nka" (mkDate 2025 11 1) 10000 None] |}.

(** ** Tactics *)

(** Boolean tests in the hypotheses, as propositions. *)
Ltac bool_to_prop :=
  repeat match goal with
         | H : _ && _ = true |- _ => apply andb_prop in H; destruct H
         | H : _ || _ = true |- _ => apply orb_prop in H; destruct H
         | H : (_ <? _) = true |- _ => apply Z.ltb_lt in H
         | H : (_ <? _) = false |- _ => apply Z.ltb_ge in H
         | H : (_ <=? _) = true |- _ => apply Z.leb_le in H
         | H : (_ <=? _) = false |- _ => apply Z.leb_gt in H
         | H : (_ =? _) = true |- _ => apply Z.eqb_eq in H
         | H : (_ =? _) = false |- _ => apply Z.eqb_neq in H
         end.

(** * Properties *)

(** ** Dates and booleans *)

Lemma date_ltb_spec (a b : date) :
  date_ltb a b = true <->
  year a < year b
  \/ year a = year b /\ (month a < month b \/ month a = month b /\ day a < day b).
Proof.
  unfold date_ltb.
  rewrite !orb_true_iff, !andb_true_iff, !orb_true_iff, !andb_true_iff,
    !Z.ltb_lt, !Z.eqb_eq.
  tauto.
Qed.

Lemma date_eqb_spec (a b : date) :
  date_eqb a b = true <-> year a = year b /\ month a = month b /\ day a = day b.
Proof.
  unfold date_eqb. rewrite !andb_true_iff, !Z.eqb_eq. tauto.
Qed.

Lemma date_leb_spec (a b : date) :
  date_leb a b = true <->
  year a < year b
  \/ year a = year b /\ (month a < month b \/ month a = month b /\ day a <= day b).
Proof.
  unfold date_leb.
  rewrite orb_true_iff, date_ltb_spec, date_eqb_spec. lia.
Qed.

Lemma date_leb_trans (a b c : date) :
  date_leb a b = true -> date_leb b c = true -> date_leb a c = true.
Proof. rewrite !date_leb_spec. lia. Qed.

Lemma date_leb_refl (a : date) : date_leb a a = true.
Proof. rewrite date_leb_spec. lia. Qed.

(** ** Rounding and matching, on values *)

Example py_round_ties :
  py_round 0.5%float = inr 0 /\ py_round 1.5%float = inr 2
  /\ py_round 2.5%float = inr 2 /\ py_round (-2.5)%float = inr (-2)
  /\ py_round (-3999.6)%float = inr (-4000)
  /\ py_round infinity = inl OverflowError /\ py_round nan = inl ValueError.
Proof. repeat split; vm_compute; reflexivity. Qed.

Example percent_cents_values :
  percent_cents (-12000) 50.0%float = inr (-6000)
  /\ percent_cents 10000 33.33%float = inr 3333
  /\ percent_cents 12345 50.0%float = inr 6172
  /\ percent_cents 15 50.0%float = inr 8.
Proof. repeat split; vm_compute; reflexivity. Qed.

Example match_rule_values :
  @match_rule no_regex
    (mkRule 1 "Stadtwerke" (Some "%Stadtwerke%"%string) None None "out" 10 1 None)
    (mkBank 1 d_2025_07_05 (-12000) (Some "Stadtwerke Abschlag"%string)) = true
  /\ @match_rule no_regex
       (mkRule 1 "Stadtwerke" (Some "%Stadtwerke%"%string) None None "out" 10 1 None)
       (mkBank 2 d_2025_07_05 10000 (Some "Miete Mueller"%string)) = false
  /\ @match_rule no_regex
       (mkRule 1 "Stadtwerke" None None None "in" 10 1 None)
       (mkBank 1 d_2025_07_05 (-12000) (Some "Stadtwerke Abschlag"%string)) = false
  /\ @match_rule no_regex
       (mkRule 1 "Stadtwerke" None (Some (-10000)) None "any" 10 1 None)
       (mkBank 1 d_2025_07_05 (-12000) None) = false
  /\ @match_rule no_regex
       (mkRule 1 "Stadtwerke" None None None "any" 10 0 None)
       (mkBank 1 d_2025_07_05 (-12000) None) = false.
Proof. repeat split; vm_compute; reflexivity. Qed.

(** ** Aging bucketizer *)

(** C8: [bucket_for] is total on the integers, with inclusive upper
    bounds: every value up to 30 (zero and the negatives too) falls in
    "0-30", 31..60 in "31-60", 61..90 in "61-90", everything above in
    "90+"; 30, 31, 60, 61, 90 and 91 fall in "0-30", "31-60", "31-60",
    "61-90", "61-90" and "90+". *)
Theorem bucket_for_boundaries (days_overdue : Z) :
  In (bucket_for days_overdue) ["0-30"; "31-60"; "61-90"; "90+"]%string
  /\ (bucket_for days_overdue = "0-30"%string <-> days_overdue <= 30)
  /\ (bucket_for days_overdue = "31-60"%string <-> 31 <= days_overdue <= 60)
  /\ (bucket_for days_overdue = "61-90"%string <-> 61 <= days_overdue <= 90)
  /\ (bucket_for days_overdue = "90+"%string <-> 91 <= days_overdue)
  /\ map bucket_for [30; 31; 60; 61; 90; 91]
     = ["0-30"; "31-60"; "31-60"; "61-90"; "61-90"; "90+"]%string.
Proof.
  unfold bucket_for.
  destruct (days_overdue <=? 30) eqn:E30;
    [| destruct (days_overdue <=? 60) eqn:E60;
       [| destruct (days_overdue <=? 90) eqn:E90 ] ];
    bool_to_prop; simpl;
    repeat split; intros; try discriminate; try lia; try reflexivity; auto.
Qed.

(** ** The allocation example *)

(** C3: on the example charges (in this order) and the single payment
    of 90000 dated 2025-07-05, with any as-of date from 2025-07-05 on,
    priority "oldest" leaves the rent charge open at 0 and the
    operating-cost charge at 15000, and priority "nk_first" leaves the
    operating-cost charge at 0 and the rent charge at 15000. *)
Theorem fifo_example_oldest_and_nk_first (tid : string) (asof : date)
    (Hasof : date_leb d_2025_07_05 asof = true) :
  let '(h, charges) := allocate (example_charges tid) in
  apply_payments_fifo h charges example_payments asof "oldest"
  = ([mkCharge tid "rent" d_2025_07_03 85000 0;
      mkCharge tid "nk" d_2025_07_03 20000 15000], [0; 1]%nat)
  /\ apply_payments_fifo h charges example_payments asof "nk_first"
     = ([mkCharge tid "rent" d_2025_07_03 85000 15000;
         mkCharge tid "nk" d_2025_07_03 20000 0], [1; 0]%nat).
Proof.
  assert (Hdue : date_leb d_2025_07_03 asof = true).
  { apply date_leb_trans with d_2025_07_05; [reflexivity | exact Hasof]. }
  unfold allocate, example_charges, example_payments, apply_payments_fifo,
    eligible_charges, eligible_payments, Charge_init.
  simpl. rewrite Hdue, Hasof. simpl. split; reflexivity.
Qed.

Lemma fifo_example_witness :
  date_leb d_2025_07_05 (mkDate 2025 7 31) = true
  /\ (apply_payments_fifo (example_charges "M001") [0; 1]%nat example_payments
        (mkDate 2025 7 31) "oldest"
      = ([mkCharge "M001" "rent" d_2025_07_03 85000 0;
          mkCharge "M001" "nk" d_2025_07_03 20000 15000], [0; 1]%nat)
      /\ apply_payments_fifo (example_charges "M001") [0; 1]%nat example_payments
           (mkDate 2025 7 31) "nk_first"
         = ([mkCharge "M001" "rent" d_2025_07_03 85000 15000;
             mkCharge "M001" "nk" d_2025_07_03 20000 0], [1; 0]%nat)).
Proof.
  split; [reflexivity |].
  exact (fifo_example_oldest_and_nk_first "M001" (mkDate 2025 7 31) eq_refl).
Defined.

(** ** Split allocator *)

Section SplitAllocator.
Context `{Regex}.

Lemma insert_splits_cons (cx : db) (bank_id : Z) (name : string)
    (pd : pending) (l : list pending) :
  insert_splits cx bank_id name (pd :: l)
  = insert_splits
      (insert_split cx bank_id (pd_account pd) (pd_tenant_id pd) (pd_amt pd)
         (note_or_auto (pd_note_t pd) name))
      bank_id name l.
Proof. reflexivity. Qed.

Lemma insert_splits_tables (cx : db) (bank_id : Z) (name : string)
    (l : list pending) :
  bank (insert_splits cx bank_id name l) = bank cx
  /\ rules (insert_splits cx bank_id name l) = rules cx
  /\ rule_parts (insert_splits cx bank_id name l) = rule_parts cx
  /\ manual_charges (insert_splits cx bank_id name l) = manual_charges cx.
Proof.
  revert cx. induction l as [| pd l IH]; intros cx; [easy |].
  rewrite insert_splits_cons.
  destruct (IH (insert_split cx bank_id (pd_account pd) (pd_tenant_id pd)
                  (pd_amt pd) (note_or_auto (pd_note_t pd) name)))
    as (-> & -> & -> & ->).
  easy.
Qed.

(** The rows written for [splits_to_insert]: appended to the table, one
    per entry and in its order, all on the given bank row. *)
Lemma insert_splits_rows (cx : db) (bank_id : Z) (name : string)
    (l : list pending) :
  exists new,
    splits (insert_splits cx bank_id name l) = splits cx ++ new
    /\ Forall2 (written_as bank_id name) l new.
Proof.
  revert cx. induction l as [| pd l IH]; intros cx.
  - exists []. simpl. rewrite app_nil_r. auto.
  - rewrite insert_splits_cons.
    destruct (IH (insert_split cx bank_id (pd_account pd) (pd_tenant_id pd)
                    (pd_amt pd) (note_or_auto (pd_note_t pd) name)))
      as (new & Hs & Hw).
    eexists (_ :: new). rewrite Hs. simpl. rewrite <- app_assoc. simpl.
    split; [reflexivity |].
    constructor; [| exact Hw]. repeat split.
Qed.

Lemma written_amounts (bank_id : Z) (name : string) (l : list pending)
    (new : list split_row) :
  Forall2 (written_as bank_id name) l new ->
  sum_Z (map s_amount_cents new) = total_of l
  /\ Forall (fun s => s_bank_id s = bank_id) new.
Proof.
  unfold total_of.
  induction 1 as [| pd s l new Hw _ [IHs IHb]]; simpl; [auto |].
  destruct Hw as (Hb & _ & _ & Ha & _).
  split; [congruence | constructor; assumption].
Qed.

Lemma fixed_loop_exit (bank_amt : Z) (parts : list rule_part) (remaining : Z)
    (acc : list pending) (o : outcome) :
  fixed_loop bank_amt parts remaining acc = inl o ->
  o = Returned false FixedWithoutValue.
Proof.
  revert remaining acc.
  induction parts as [| p parts IH]; intros remaining acc; simpl; [discriminate |].
  destruct (String.eqb (p_kind p) "fixed"); [| apply IH].
  destruct (p_value_cents p); [apply IH |].
  unfold reject. congruence.
Qed.

Lemma percent_scan_exit (parts : list rule_part) (percent_sum : float)
    (acc : list percent_part) (o : outcome) :
  percent_scan parts percent_sum acc = inl o ->
  o = Returned false PercentWithoutValue.
Proof.
  revert percent_sum acc.
  induction parts as [| p parts IH]; intros percent_sum acc; simpl; [discriminate |].
  destruct (String.eqb (p_kind p) "percent"); [| apply IH].
  destruct (p_value_percent p); [apply IH |].
  unfold reject. congruence.
Qed.

Lemma percent_loop_exit (bank_amt : Z) (pps : list percent_part) (remaining : Z)
    (acc : list pending) (o : outcome) :
  percent_loop bank_amt pps remaining acc = inl o -> exists e, o = Raised e.
Proof.
  revert remaining acc.
  induction pps as [| pp pps IH]; intros remaining acc; simpl; [discriminate |].
  destruct (percent_cents bank_amt (pp_pct pp)) as [e | cents]; simpl.
  - intros [= <-]. eauto.
  - apply IH.
Qed.

(** The steps of [collect_splits], one by one. *)
Lemma collect_splits_unfold (bank_amt : Z) (parts : list rule_part) :
  collect_splits bank_amt parts
  = match fixed_loop bank_amt parts bank_amt [] with
    | inl o => inl o
    | inr (remaining, splits_to_insert) =>
        match percent_scan parts 0%float [] with
        | inl o => inl o
        | inr (percent_sum, percent_parts) =>
            if (100.000001 <? percent_sum)%float
            then reject (PercentOverflow percent_sum)
            else
              match percent_loop bank_amt percent_parts remaining splits_to_insert with
              | inl o => inl o
              | inr (remaining, splits_to_insert) =>
                  match remainder_parts parts with
                  | [] => inr splits_to_insert
                  | [p] =>
                      inr (splits_to_insert
                             ++ [mkPending (p_account p) (p_tenant_id p) remaining
                                   (p_note_template p)])
                  | _ :: _ :: _ => reject MultipleRemainder
                  end
              end
        end
    end.
Proof.
  unfold collect_splits, mbind, flow_bind.
  destruct (fixed_loop bank_amt parts bank_amt []) as [o | [remaining fx]];
    [reflexivity |].
  destruct (percent_scan parts 0%float []) as [o | [ps pps]]; [reflexivity |].
  destruct (100.000001 <? ps)%float; [reflexivity |].
  destruct (percent_loop bank_amt pps remaining fx) as [o | [rem' l']];
    reflexivity.
Qed.

(** No early exit of [collect_splits] reports success. *)
Lemma collect_splits_exit (bank_amt : Z) (parts : list rule_part) (o : outcome) :
  collect_splits bank_amt parts = inl o -> forall msg, o <> Returned true msg.
Proof.
  rewrite collect_splits_unfold.
  destruct (fixed_loop bank_amt parts bank_amt []) as [o1 | [remaining fx]] eqn:Hf.
  { intros [= <-] msg. apply fixed_loop_exit in Hf. congruence. }
  destruct (percent_scan parts 0%float []) as [o1 | [ps pps]] eqn:Hs.
  { intros [= <-] msg. apply percent_scan_exit in Hs. congruence. }
  destruct (100.000001 <? ps)%float; [unfold reject; congruence |].
  destruct (percent_loop bank_amt pps remaining fx) as [o1 | [rem' l']] eqn:Hl.
  { intros [= <-] msg. apply percent_loop_exit in Hl as [e ->]. congruence. }
  destruct (remainder_parts parts) as [| q [| q' qs]]; unfold reject; congruence.
Qed.

(** How a call of [apply_rule_to_bank] can end: with the splits of a
    balanced [splits_to_insert] written, or with the store as it was. *)
Lemma apply_rule_to_bank_cases (cx : db) (rule_id bank_id : Z) :
  (exists b r splits_to_insert,
      select_bank cx bank_id = Some b
      /\ select_rule cx rule_id = Some r
      /\ match_rule r b = true
      /\ collect_splits (b_amount_cents b) (select_rule_parts cx rule_id)
         = inr splits_to_insert
      /\ total_of splits_to_insert = b_amount_cents b
      /\ apply_rule_to_bank cx rule_id bank_id
         = (insert_splits cx bank_id (r_name r) splits_to_insert,
            Returned true
              (SplitsCreated (List.length splits_to_insert) (r_name r))))
  \/ (fst (apply_rule_to_bank cx rule_id bank_id) = cx
      /\ forall msg,
           snd (apply_rule_to_bank cx rule_id bank_id) <> Returned true msg).
Proof.
  unfold apply_rule_to_bank.
  destruct (select_bank cx bank_id) as [b |]; [| right; easy].
  destruct (select_rule cx rule_id) as [r |]; [| right; easy].
  destruct (match_rule r b) eqn:Hm; simpl; [| right; easy].
  destruct (select_rule_parts cx rule_id) as [| p parts] eqn:Hp; [right; easy |].
  destruct (collect_splits (b_amount_cents b) (p :: parts)) as [o | l] eqn:Hc.
  - right. split; [reflexivity |]. simpl.
    exact (collect_splits_exit _ _ _ Hc).
  - destruct (total_of l =? b_amount_cents b) eqn:Ht; simpl; [| right; easy].
    left. exists b, r, l. apply Z.eqb_eq in Ht. repeat split; auto.
Qed.

(** C1: whenever [apply_rule_to_bank] reports success, the rows it has
    appended to [splits], all on the given bank row, sum to the amount of
    that bank row exactly; and whenever the collected amounts do not sum
    to the bank amount, the call ends with the balance-mismatch message
    and leaves the store as it was. *)
Theorem allocation_balances_exactly :
  (forall (cx : db) (rule_id bank_id : Z) (cx' : db) (msg : message),
      apply_rule_to_bank cx rule_id bank_id = (cx', Returned true msg) ->
      exists b new,
        select_bank cx bank_id = Some b
        /\ splits cx' = splits cx ++ new
        /\ Forall (fun s => s_bank_id s = bank_id) new
        /\ sum_Z (map s_amount_cents new) = b_amount_cents b)
  /\ (forall (cx : db) (rule_id bank_id : Z) (b : bank_row) (r : rule_row)
         (splits_to_insert : list pending),
        select_bank cx bank_id = Some b ->
        select_rule cx rule_id = Some r ->
        match_rule r b = true ->
        select_rule_parts cx rule_id <> [] ->
        collect_splits (b_amount_cents b) (select_rule_parts cx rule_id)
        = inr splits_to_insert ->
        total_of splits_to_insert <> b_amount_cents b ->
        apply_rule_to_bank cx rule_id bank_id
        = (cx, Returned false
                 (BalanceMismatch (total_of splits_to_insert) (b_amount_cents b)))).
Proof.
  split.
  - intros cx rule_id bank_id cx' msg Happ.
    destruct (apply_rule_to_bank_cases cx rule_id bank_id)
      as [(b & r & l & Hb & _ & _ & _ & Ht & Heq) | [_ Hno]].
    + rewrite Heq in Happ. injection Happ as <- _.
      destruct (insert_splits_rows cx bank_id (r_name r) l) as (new & Hs & Hw).
      apply written_amounts in Hw as [Hsum Hall].
      exists b, new. repeat split; auto. congruence.
    + rewrite Happ in Hno. now destruct (Hno msg).
  - intros cx rule_id bank_id b r l Hb Hr Hm Hparts Hc Hne.
    unfold apply_rule_to_bank. rewrite Hb, Hr, Hm. simpl.
    destruct (select_rule_parts cx rule_id) as [| p parts]; [easy |].
    rewrite Hc. apply Z.eqb_neq in Hne. now rewrite Hne.
Qed.

(** C2: a call of [apply_rule_to_bank] that returns a failure, whatever
    the reason, has written nothing: the store afterwards is the store
    before, and the message is one of the nine failure messages. *)
Theorem failed_allocation_writes_nothing (cx : db) (rule_id bank_id : Z)
    (cx' : db) (msg : message)
    (Hfail : apply_rule_to_bank cx rule_id bank_id = (cx', Returned false msg)) :
  cx' = cx
  /\ splits cx' = splits cx
  /\ match msg with SplitsCreated _ _ => False | _ => True end.
Proof.
  destruct (apply_rule_to_bank_cases cx rule_id bank_id)
    as [(b & r & l & _ & _ & _ & _ & _ & Heq) | [Hsame _]].
  - rewrite Heq in Hfail. discriminate.
  - rewrite Hfail in Hsame. simpl in Hsame. subst cx'.
    split; [reflexivity | split; [reflexivity |]].
    revert Hfail. unfold apply_rule_to_bank.
    destruct (select_bank cx bank_id) as [b |]; [| now intros [= <-]].
    destruct (select_rule cx rule_id) as [r |]; [| now intros [= <-]].
    destruct (match_rule r b); simpl; [| now intros [= <-]].
    destruct (select_rule_parts cx rule_id) as [| p parts]; [now intros [= <-] |].
    destruct (collect_splits (b_amount_cents b) (p :: parts)) as [o | l] eqn:Hc.
    + intros [= ->]. revert Hc. rewrite collect_splits_unfold.
      destruct (fixed_loop _ _ _ _) as [o1 | [remaining fx]] eqn:Hf.
      { intros [= ->]. apply fixed_loop_exit in Hf. injection Hf as ->. exact I. }
      destruct (percent_scan _ _ _) as [o1 | [ps pps]] eqn:Hs.
      { intros [= ->]. apply percent_scan_exit in Hs. injection Hs as ->. exact I. }
      destruct (100.000001 <? ps)%float; [now intros [= <-] |].
      destruct (percent_loop _ _ _ _) as [o1 | [rem' l']] eqn:Hl.
      { intros [= ->]. apply percent_loop_exit in Hl as [e He]. discriminate. }
      destruct (remainder_parts (p :: parts)) as [| q [| q' qs]];
        [discriminate | discriminate | now intros [= <-]].
    + destruct (total_of l =? b_amount_cents b); simpl; [discriminate |].
      now intros [= <-].
Qed.

(** *** Fixed parts *)

Lemma fixed_amount_nonzero (bank_amt val_c : Z) :
  bank_amt <> 0 -> fixed_amount bank_amt val_c = Z.sgn bank_amt * Z.abs val_c.
Proof.
  intros Hne. unfold fixed_amount.
  destruct (0 <? bank_amt) eqn:Hp, (val_c <? 0) eqn:Hv,
    (bank_amt <? 0) eqn:Hn, (0 <? val_c) eqn:Hw;
    simpl; bool_to_prop; lia.
Qed.

Lemma fixed_amount_zero (val_c : Z) : fixed_amount 0 val_c = val_c.
Proof. reflexivity. Qed.

(** The first loop appends one entry per fixed part. *)
Lemma fixed_loop_entries (bank_amt : Z) (parts : list rule_part)
    (remaining : Z) (acc : list pending) (remaining' : Z) (acc' : list pending) :
  fixed_loop bank_amt parts remaining acc = inr (remaining', acc') ->
  exists add,
    acc' = acc ++ add
    /\ forall p val_c,
         In p parts -> p_kind p = "fixed"%string -> p_value_cents p = Some val_c ->
         In (mkPending (p_account p) (p_tenant_id p) (fixed_amount bank_amt val_c)
               (p_note_template p)) add.
Proof.
  revert remaining acc.
  induction parts as [| q parts IH]; intros remaining acc; simpl.
  - intros [= <- <-]. exists []. rewrite app_nil_r. split; [reflexivity | easy].
  - destruct (String.eqb (p_kind q) "fixed") eqn:Hk.
    + destruct (p_value_cents q) as [v |] eqn:Hv; [| discriminate].
      intros Hloop. apply IH in Hloop as (add & -> & Hin).
      eexists (_ :: add). rewrite <- app_assoc. split; [reflexivity |].
      intros p val_c [<- | Hp] Hkind Hval.
      * left. congruence.
      * right. now apply Hin.
    + intros Hloop. apply IH in Hloop as (add & -> & Hin).
      exists add. split; [reflexivity |].
      intros p val_c [<- | Hp] Hkind Hval.
      * apply String.eqb_neq in Hk. contradiction.
      * now apply Hin.
Qed.

(** The loop over the percent parts only appends. *)
Lemma percent_loop_extends (bank_amt : Z) (pps : list percent_part)
    (remaining : Z) (acc : list pending) (remaining' : Z) (acc' : list pending) :
  percent_loop bank_amt pps remaining acc = inr (remaining', acc') ->
  exists add, acc' = acc ++ add.
Proof.
  revert remaining acc.
  induction pps as [| pp pps IH]; intros remaining acc; simpl.
  - intros [= <- <-]. exists []. now rewrite app_nil_r.
  - destruct (percent_cents bank_amt (pp_pct pp)) as [e | cents]; simpl;
      [discriminate |].
    intros Hloop. apply IH in Hloop as (add & ->).
    eexists (_ :: add). now rewrite <- app_assoc.
Qed.

Lemma collect_splits_fixed_entries (bank_amt : Z) (parts : list rule_part)
    (splits_to_insert : list pending) (p : rule_part) (val_c : Z) :
  collect_splits bank_amt parts = inr splits_to_insert ->
  In p parts -> p_kind p = "fixed"%string -> p_value_cents p = Some val_c ->
  In (mkPending (p_account p) (p_tenant_id p) (fixed_amount bank_amt val_c)
        (p_note_template p)) splits_to_insert.
Proof.
  rewrite collect_splits_unfold. intros Hc Hp Hk Hv.
  destruct (fixed_loop bank_amt parts bank_amt []) as [o | [remaining fx]] eqn:Hf;
    [discriminate |].
  apply fixed_loop_entries in Hf as (add & -> & Hin). simpl in Hc.
  specialize (Hin p val_c Hp Hk Hv).
  destruct (percent_scan parts 0%float []) as [o | [ps pps]]; [discriminate |].
  destruct (100.000001 <? ps)%float; [discriminate |].
  destruct (percent_loop bank_amt pps remaining add) as [o | [rem' l']] eqn:Hl;
    [discriminate |].
  apply percent_loop_extends in Hl as (more & ->).
  destruct (remainder_parts parts) as [| q [| q' qs]];
    [| | discriminate]; injection Hc as <-; rewrite ?in_app_iff; auto.
Qed.

Lemma written_entry (bank_id : Z) (name : string) (l : list pending)
    (new : list split_row) (pd : pending) :
  Forall2 (written_as bank_id name) l new -> In pd l ->
  exists s, In s new /\ written_as bank_id name pd s.
Proof.
  induction 1 as [| pd0 s0 l new Hw _ IH]; simpl; [easy |].
  intros [<- | Hin].
  - exists s0. auto.
  - destruct (IH Hin) as (s & Hs & Hws). exists s. auto.
Qed.

(** C7 (as amended): when [apply_rule_to_bank] succeeds, every fixed
    part of the rule has a row among the rows written, on the account
    and tenant of the part, whose amount is the stored value of the part
    with the sign of the bank amount when that amount is not zero (the
    magnitude is kept, the stored sign is dropped), and the stored value
    as it stands when the bank amount is zero. *)
Theorem fixed_part_sign_follows_transaction (cx : db) (rule_id bank_id : Z)
    (cx' : db) (msg : message) (b : bank_row) (p : rule_part) (val_c : Z)
    (Happ : apply_rule_to_bank cx rule_id bank_id = (cx', Returned true msg))
    (Hb : select_bank cx bank_id = Some b)
    (Hp : In p (select_rule_parts cx rule_id))
    (Hk : p_kind p = "fixed"%string)
    (Hv : p_value_cents p = Some val_c) :
  exists new s,
    splits cx' = splits cx ++ new
    /\ In s new
    /\ s_bank_id s = bank_id
    /\ s_account s = p_account p
    /\ s_tenant_id s = p_tenant_id p
    /\ (b_amount_cents b <> 0 ->
        s_amount_cents s = Z.sgn (b_amount_cents b) * Z.abs val_c)
    /\ (b_amount_cents b = 0 -> s_amount_cents s = val_c).
Proof.
  destruct (apply_rule_to_bank_cases cx rule_id bank_id)
    as [(b0 & r & l & Hb0 & _ & _ & Hc & _ & Heq) | [_ Hno]].
  - rewrite Heq in Happ. injection Happ as <- _.
    assert (b0 = b) as -> by congruence.
    destruct (insert_splits_rows cx bank_id (r_name r) l) as (new & Hs & Hw).
    pose proof (collect_splits_fixed_entries _ _ _ p val_c Hc Hp Hk Hv) as Hin.
    destruct (written_entry _ _ _ _ _ Hw Hin) as (s & Hs' & Hws).
    destruct Hws as (Hwb & Hwa & Hwt & Hwamt & _). simpl in *.
    exists new, s. repeat split; auto.
    + intros Hne. rewrite Hwamt. now apply fixed_amount_nonzero.
    + intros Hz. rewrite Hwamt, Hz. apply fixed_amount_zero.
  - rewrite Happ in Hno. now destruct (Hno msg).
Qed.

(** *** Percent parts *)

(** The second loop appends one entry per percent part and adds their
    values up, left to right. *)
Lemma percent_scan_sum (parts : list rule_part) (percent_sum : float)
    (acc : list percent_part) (percent_sum' : float) (acc' : list percent_part) :
  percent_scan parts percent_sum acc = inr (percent_sum', acc') ->
  exists add,
    acc' = acc ++ add
    /\ percent_sum' = fold_left PrimFloat.add (map pp_pct add) percent_sum.
Proof.
  revert percent_sum acc.
  induction parts as [| q parts IH]; intros percent_sum acc; simpl.
  - intros [= <- <-]. exists []. now rewrite app_nil_r.
  - destruct (String.eqb (p_kind q) "percent"); [| apply IH].
    destruct (p_value_percent q) as [v |]; [| discriminate].
    intros Hscan. apply IH in Hscan as (add & -> & ->).
    eexists (_ :: add). now rewrite <- app_assoc.
Qed.

(** C6 (as amended): for a rule that matches the bank row, has parts,
    and whose fixed parts and percent parts all carry their value, a sum
    of the percent values (added up as floats, in part order) above
    100.000001 ends the call with the percent-overflow message and the
    store as it was. The check comes after the loop over the fixed parts
    and before any amount of a percent part is computed. *)
Theorem percent_overflow_rejected (cx : db) (rule_id bank_id : Z)
    (b : bank_row) (r : rule_row) (remaining : Z) (fixed_entries : list pending)
    (percent_sum : float) (percent_parts : list percent_part)
    (Hb : select_bank cx bank_id = Some b)
    (Hr : select_rule cx rule_id = Some r)
    (Hm : match_rule r b = true)
    (Hparts : select_rule_parts cx rule_id <> [])
    (Hfixed : fixed_loop (b_amount_cents b) (select_rule_parts cx rule_id)
                (b_amount_cents b) [] = inr (remaining, fixed_entries))
    (Hscan : percent_scan (select_rule_parts cx rule_id) 0%float []
             = inr (percent_sum, percent_parts))
    (Hover : (100.000001 <? percent_sum)%float = true) :
  apply_rule_to_bank cx rule_id bank_id
  = (cx, Returned false (PercentOverflow percent_sum))
  /\ percent_sum = fold_left PrimFloat.add (map pp_pct percent_parts) 0%float.
Proof.
  split.
  - unfold apply_rule_to_bank. rewrite Hb, Hr, Hm. simpl.
    destruct (select_rule_parts cx rule_id) as [| p parts]; [easy |].
    rewrite collect_splits_unfold, Hfixed, Hscan, Hover. reflexivity.
  - apply percent_scan_sum in Hscan as (add & Hadd & ->).
    simpl in Hadd. now subst add.
Qed.

End SplitAllocator.

(** ** Sorting and lookup *)

Lemma insert_by_perm {A : Type} (ltb : A -> A -> bool) (x : A) (l : list A) :
  Permutation (insert_by ltb x l) (x :: l).
Proof.
  induction l as [| y l IH]; simpl; [reflexivity |].
  destruct (ltb y x); [| reflexivity].
  rewrite IH. apply perm_swap.
Qed.

Lemma sort_by_perm {A : Type} (ltb : A -> A -> bool) (l : list A) :
  Permutation (sort_by ltb l) l.
Proof.
  induction l as [| x l IH]; simpl; [reflexivity |].
  rewrite insert_by_perm. now constructor.
Qed.

Lemma sort_by_In {A : Type} (ltb : A -> A -> bool) (l : list A) (x : A) :
  In x (sort_by ltb l) <-> In x l.
Proof.
  split; apply Permutation_in; [| symmetry]; apply sort_by_perm.
Qed.

Lemma unique_key {A : Type} (f : A -> Z) (l : list A) (x y : A) :
  List.NoDup (map f l) -> In x l -> In y l -> f x = f y -> x = y.
Proof.
  induction l as [| z l IH]; simpl; [easy |].
  intros Hnd. apply List.NoDup_cons_iff in Hnd as [Hz Hnd].
  intros [<- | Hx] [<- | Hy] Hf; auto.
  - exfalso. apply Hz. rewrite Hf. now apply in_map.
  - exfalso. apply Hz. rewrite <- Hf. now apply in_map.
Qed.

Lemma select_bank_found (cx : db) (b : bank_row) :
  In b (bank cx) -> exists b', select_bank cx (b_id b) = Some b'.
Proof.
  unfold select_bank. intros Hin.
  destruct (List.find (fun x => b_id x =? b_id b) (bank cx)) as [b' |] eqn:Hf;
    [eauto |].
  apply (find_none _ _ Hf) in Hin. rewrite Z.eqb_refl in Hin. discriminate.
Qed.

(** ** Batch rule application *)

Section BatchApplication.
Context `{Regex}.

(** A call of [apply_rule_to_bank] only appends to [splits], and only
    rows of the bank row it was called for. *)
Lemma apply_rule_to_bank_effect (cx : db) (rule_id bank_id : Z) :
  bank (fst (apply_rule_to_bank cx rule_id bank_id)) = bank cx
  /\ exists new,
       splits (fst (apply_rule_to_bank cx rule_id bank_id)) = splits cx ++ new
       /\ Forall (fun s => s_bank_id s = bank_id) new.
Proof.
  destruct (apply_rule_to_bank_cases cx rule_id bank_id)
    as [(b & r & l & _ & _ & _ & _ & _ & ->) | [-> _]]; simpl.
  - split; [apply insert_splits_tables |].
    destruct (insert_splits_rows cx bank_id (r_name r) l) as (new & Hs & Hw).
    exists new. split; [exact Hs | now apply written_amounts in Hw].
  - split; [reflexivity |]. exists []. now rewrite app_nil_r.
Qed.

Lemma try_rules_effect (cx : db) (b : bank_row) (rs : list rule_row) :
  bank (fst (try_rules cx b rs)) = bank cx
  /\ exists new,
       splits (fst (try_rules cx b rs)) = splits cx ++ new
       /\ Forall (fun s => s_bank_id s = b_id b) new.
Proof.
  revert cx. induction rs as [| r rs IH]; intros cx; simpl.
  - split; [reflexivity |]. exists []. now rewrite app_nil_r.
  - destruct (match_rule r b); [| apply IH].
    destruct (apply_rule_to_bank_effect cx (r_id r) (b_id b))
      as (Hbank & new & Hs & Hall).
    destruct (apply_rule_to_bank cx (r_id r) (b_id b)) as [cx' [[|] msg | e]];
      simpl in *; try (split; [assumption | eauto]).
    destruct (IH cx') as (Hbank' & new' & Hs' & Hall').
    split; [congruence |].
    exists (new ++ new'). rewrite Hs', Hs, <- app_assoc.
    split; [reflexivity | now apply Forall_app].
Qed.

Lemma splits_of_appended (cx cx' : db) (new : list split_row) (k bank_id : Z) :
  splits cx' = splits cx ++ new ->
  Forall (fun s => s_bank_id s = bank_id) new ->
  k <> bank_id ->
  splits_of cx' k = splits_of cx k.
Proof.
  unfold splits_of. intros -> Hall Hne.
  rewrite List.filter_app.
  replace (List.filter (fun s => s_bank_id s =? k) new) with (@nil split_row);
    [now rewrite app_nil_r |].
  induction Hall as [| s new Hs _ IH]; simpl; [reflexivity |].
  rewrite Hs. now destruct (Z.eqb_spec bank_id k); [congruence |].
Qed.

Lemma balanced_spec (cx : db) (b : bank_row) :
  In b (bank cx) ->
  balanced cx b = (split_sum cx (b_id b) =? b_amount_cents b).
Proof.
  intros Hin. unfold balanced, select_split_sum.
  now destruct (select_bank_found cx b Hin) as [b' ->].
Qed.

(** The outer loop leaves alone the splits of every bank id whose rows
    among [bank_rows] are balanced. *)
Lemma rows_loop_keeps_balanced (k : Z) (rs : list rule_row)
    (bank_rows : list bank_row) (cx : db) (applied : Z) :
  (forall b, In b bank_rows ->
             In b (bank cx) /\ (b_id b = k -> b_amount_cents b = split_sum cx k)) ->
  splits_of (fst (rows_loop cx bank_rows rs applied)) k = splits_of cx k.
Proof.
  revert cx applied.
  induction bank_rows as [| b rest IH]; intros cx applied Hrows; simpl;
    [reflexivity |].
  destruct (Hrows b (or_introl eq_refl)) as [Hin Hamt].
  rewrite (balanced_spec cx b Hin).
  destruct (split_sum cx (b_id b) =? b_amount_cents b) eqn:Hbal.
  - apply IH. intros b' Hb'. apply Hrows. now right.
  - assert (Hne : k <> b_id b).
    { intros ->. apply Z.eqb_neq in Hbal. apply Hbal. symmetry. now apply Hamt. }
    destruct (try_rules_effect cx b rs) as (Hbank & new & Hs & Hall).
    pose proof (splits_of_appended cx _ new k (b_id b) Hs Hall Hne) as Hsame.
    assert (Hrows' : forall b', In b' rest ->
              In b' (bank (fst (try_rules cx b rs)))
              /\ (b_id b' = k ->
                  b_amount_cents b' = split_sum (fst (try_rules cx b rs)) k)).
    { intros b' Hb'. destruct (Hrows b' (or_intror Hb')) as [Hin' Hamt'].
      rewrite Hbank. unfold split_sum. rewrite Hsame. auto. }
    destruct (try_rules cx b rs) as [cx' [e | [|]]]; simpl in *.
    + exact Hsame.
    + rewrite IH; auto.
    + rewrite IH; auto.
Qed.

Lemma select_bank_rows_In (cx : db) (args : apply_rules_args) (b : bank_row) :
  In b (select_bank_rows cx args) -> In b (bank cx).
Proof.
  unfold select_bank_rows, bank_by_id.
  destruct (match args_bank_id args with
            | Some id => if id =? 0 then None else Some id
            | None => None
            end) as [id |].
  - intros Hin. now apply filter_In in Hin.
  - destruct (args_only_unbalanced args); intros Hin.
    + apply filter_In in Hin as [Hin _]. now apply sort_by_In in Hin.
    + now apply sort_by_In in Hin.
Qed.

Lemma cmd_apply_rules_bank (cx : db) (args : apply_rules_args) :
  bank (fst (cmd_apply_rules cx args)) = bank cx.
Proof.
  unfold cmd_apply_rules.
  generalize (select_bank_rows cx args) (select_active_rules cx) 0.
  intros rows rs applied.
  assert (Hloop : bank (fst (rows_loop cx rows rs applied)) = bank cx).
  { revert cx applied. induction rows as [| b rest IH]; intros cx applied; simpl;
      [reflexivity |].
    destruct (balanced cx b); [apply IH |].
    pose proof (try_rules_effect cx b rs) as [Hbank _].
    destruct (try_rules cx b rs) as [cx' [e | [|]]]; simpl in *;
      [assumption | rewrite IH; assumption | rewrite IH; assumption]. }
  destruct (rows_loop cx rows rs applied) as [cx' [e | n]]; simpl in *; auto.
Qed.

Lemma cmd_apply_rules_keeps_balanced (cx : db) (args : apply_rules_args)
    (b : bank_row) :
  List.NoDup (map b_id (bank cx)) ->
  In b (bank cx) ->
  split_sum cx (b_id b) = b_amount_cents b ->
  splits_of (fst (cmd_apply_rules cx args)) (b_id b) = splits_of cx (b_id b).
Proof.
  intros Hpk Hin Hbal. unfold cmd_apply_rules.
  pose proof (rows_loop_keeps_balanced (b_id b) (select_active_rules cx)
                (select_bank_rows cx args) cx 0) as Hkeep.
  destruct (rows_loop cx (select_bank_rows cx args) (select_active_rules cx) 0)
    as [cx' [e | n]]; simpl in *; [reflexivity |].
  apply Hkeep. intros b' Hb'. apply select_bank_rows_In in Hb'.
  split; [assumption |].
  intros Hid. rewrite (unique_key b_id (bank cx) b' b Hpk Hb' Hin Hid). auto.
Qed.

(** C5: under the primary key of [bank], a bank row whose splits sum to
    its amount keeps exactly its splits through [cmd_apply_rules],
    whichever way the rows were selected: the batch writes nothing for
    it. The same holds for a second run after a first one, for every
    row that is balanced after the first; and a batch over a ledger
    whose rows are all balanced changes nothing and counts 0. *)
Theorem batch_skips_balanced_rows (cx : db) (args args' : apply_rules_args)
    (b : bank_row)
    (Hpk : List.NoDup (map b_id (bank cx)))
    (Hin : In b (bank cx)) :
  (split_sum cx (b_id b) = b_amount_cents b ->
   splits_of (fst (cmd_apply_rules cx args)) (b_id b) = splits_of cx (b_id b))
  /\ (let cx1 := fst (cmd_apply_rules cx args) in
      split_sum cx1 (b_id b) = b_amount_cents b ->
      splits_of (fst (cmd_apply_rules cx1 args')) (b_id b)
      = splits_of cx1 (b_id b))
  /\ ((forall b', In b' (bank cx) -> split_sum cx (b_id b') = b_amount_cents b') ->
      cmd_apply_rules cx args = (cx, inr 0)).
Proof.
  split; [| split].
  - now apply cmd_apply_rules_keeps_balanced.
  - intros cx1 Hbal. apply cmd_apply_rules_keeps_balanced; auto;
      unfold cx1; now rewrite cmd_apply_rules_bank.
  - intros Hall. unfold cmd_apply_rules.
    assert (Hrows : forall b', In b' (select_bank_rows cx args) -> balanced cx b' = true).
    { intros b' Hb'. apply select_bank_rows_In in Hb'.
      rewrite (balanced_spec cx b' Hb'). apply Z.eqb_eq. now apply Hall. }
    generalize (select_active_rules cx). intros rs.
    induction (select_bank_rows cx args) as [| b' rest IH]; simpl; [reflexivity |].
    rewrite (Hrows b' (or_introl eq_refl)). apply IH.
    intros b'' Hb''. apply Hrows. now right.
Qed.

End BatchApplication.

(** ** Payment-to-charge allocator: steps *)

Lemma shrinks_refl (ch : Charge) : shrinks ch ch.
Proof. unfold shrinks. repeat split; lia. Qed.

Lemma shrinks_trans (a b c : Charge) : shrinks a b -> shrinks b c -> shrinks a c.
Proof. unfold shrinks. intros (? & ? & ? & ? & ? & ?) (? & ? & ? & ? & ? & ?).
  repeat split; try congruence; lia. Qed.

Lemma shrinks_settled (ch ch' : Charge) :
  shrinks ch ch' -> open_cents ch <= 0 -> ch' = ch.
Proof.
  destruct ch, ch'. unfold shrinks. simpl. intros (-> & -> & -> & -> & ? & ?) ?.
  f_equal. lia.
Qed.

Lemma shrinks_invariant (ch ch' : Charge) :
  shrinks ch ch' -> open_within_amount ch -> open_within_amount ch'.
Proof.
  unfold shrinks, open_within_amount. intros (_ & _ & _ & -> & ? & ?) ?. lia.
Qed.

Lemma heap_shrinks_refl (h : heap) : heap_shrinks h h.
Proof. split; [reflexivity |]. intros r ch Hr. exists ch. auto using shrinks_refl. Qed.

Lemma heap_shrinks_trans (h1 h2 h3 : heap) :
  heap_shrinks h1 h2 -> heap_shrinks h2 h3 -> heap_shrinks h1 h3.
Proof.
  intros [Hl12 H12] [Hl23 H23]. split; [congruence |].
  intros r ch Hr. destruct (H12 r ch Hr) as (ch2 & Hr2 & Hs2).
  destruct (H23 r ch2 Hr2) as (ch3 & Hr3 & Hs3).
  exists ch3. eauto using shrinks_trans.
Qed.

Lemma heap_shrinks_settled (h h' : heap) (r : nat) (ch : Charge) :
  heap_shrinks h h' -> h !! r = Some ch -> open_cents ch <= 0 -> h' !! r = Some ch.
Proof.
  intros [_ Hs] Hr Hopen. destruct (Hs r ch Hr) as (ch' & Hr' & Hsh).
  now rewrite (shrinks_settled ch ch' Hsh Hopen) in Hr'.
Qed.

Lemma heap_shrinks_absent (h h' : heap) (r : nat) :
  heap_shrinks h h' -> h !! r = None -> h' !! r = None.
Proof.
  intros [Hl _] Hr. apply lookup_ge_None. apply lookup_ge_None in Hr. lia.
Qed.

(** What [visit] does, case by case. *)
Lemma visit_cases (h : heap) (remaining : Z) (c : nat) :
  (visit h remaining c = (h, remaining)
   /\ (h !! c = None \/ exists ch, h !! c = Some ch /\ open_cents ch <= 0))
  \/ (exists ch,
        h !! c = Some ch /\ 0 < open_cents ch
        /\ visit h remaining c
           = (<[c := set_open ch (open_cents ch - Z.min (open_cents ch) remaining)]> h,
              remaining - Z.min (open_cents ch) remaining)).
Proof.
  unfold visit. destruct (h !! c) as [ch |] eqn:Hc; [| left; auto].
  destruct (open_cents ch <=? 0) eqn:Ho; bool_to_prop.
  - left. split; [reflexivity |]. right. eauto.
  - right. exists ch. auto.
Qed.

Lemma visit_shrinks (h : heap) (remaining : Z) (c : nat) :
  0 < remaining -> heap_shrinks h (fst (visit h remaining c)).
Proof.
  intros Hrem.
  destruct (visit_cases h remaining c) as [[-> _] | (ch & Hc & Ho & ->)]; simpl.
  - apply heap_shrinks_refl.
  - split; [apply length_insert |].
    intros r ch0 Hr. destruct (decide (c = r)) as [-> | Hne].
    + rewrite list_lookup_insert_eq by (now apply lookup_lt_Some in Hr).
      eexists. split; [reflexivity |].
      assert (ch0 = ch) as -> by congruence.
      unfold shrinks. simpl. repeat split; lia.
    + rewrite list_lookup_insert_ne by assumption.
      exists ch0. auto using shrinks_refl.
Qed.

Lemma alloc_step_shrinks (h h' : heap) : alloc_step h h' -> heap_shrinks h h'.
Proof. intros (remaining & c & Hrem & ->). now apply visit_shrinks. Qed.

Lemma alloc_steps_shrink (h h' : heap) : rtc alloc_step h h' -> heap_shrinks h h'.
Proof.
  induction 1 as [| h1 h2 h3 Hstep _ IH]; [apply heap_shrinks_refl |].
  eapply heap_shrinks_trans; [apply alloc_step_shrinks; exact Hstep | exact IH].
Qed.

Lemma walk_steps (charges : list nat) (h : heap) (remaining : Z) :
  rtc alloc_step h (fst (walk charges h remaining)).
Proof.
  revert h remaining.
  induction charges as [| c rest IH]; intros h remaining; simpl; [constructor |].
  destruct (remaining <=? 0) eqn:Hrem; [constructor |]. bool_to_prop.
  destruct (visit h remaining c) as [h' remaining'] eqn:Hv.
  eapply rtc_l; [| apply IH].
  exists remaining, c. split; [lia | now rewrite Hv].
Qed.

Lemma pay_all_steps (charges : list nat) (payments : list payment) (h : heap) :
  rtc alloc_step h (pay_all charges payments h).
Proof.
  revert h. induction payments as [| p ps IH]; intros h; simpl; [constructor |].
  eapply rtc_trans; [apply walk_steps | apply IH].
Qed.

Lemma walk_shrinks (charges : list nat) (h : heap) (remaining : Z) :
  heap_shrinks h (fst (walk charges h remaining)).
Proof. apply alloc_steps_shrink, walk_steps. Qed.

(** C9 (as amended): a charge is created with its open amount equal to
    its amount; the allocator proceeds by steps of the inner loop body,
    and a step changes nothing of a charge but its open amount, which it
    never raises and never takes below zero. So a charge whose amount
    is not negative satisfies 0 <= open <= amount when created, after
    every step, and in the heap the allocator leaves. A charge that is
    not open (a credit, created with a negative amount and open amount)
    is not touched by any step. *)
Theorem open_amount_invariant :
  (forall tid knd due amt,
      open_cents (Charge_init tid knd due amt) = amt
      /\ amount_cents (Charge_init tid knd due amt) = amt
      /\ (0 <= amt -> open_within_amount (Charge_init tid knd due amt)))
  /\ (forall h h', alloc_step h h' -> heap_shrinks h h')
  /\ (forall h charges payments asof priority,
        rtc alloc_step h (fst (apply_payments_fifo h charges payments asof priority)))
  /\ (forall h h' r ch,
        rtc alloc_step h h' -> h !! r = Some ch ->
        exists ch',
          h' !! r = Some ch'
          /\ amount_cents ch' = amount_cents ch
          /\ open_cents ch' <= open_cents ch
          /\ (open_within_amount ch -> open_within_amount ch')
          /\ (open_cents ch <= 0 -> ch' = ch)).
Proof.
  split; [| split; [| split]].
  - intros tid knd due amt. unfold open_within_amount. simpl.
    repeat split; auto; lia.
  - exact alloc_step_shrinks.
  - intros h charges payments asof priority. apply pay_all_steps.
  - intros h h' r ch Hsteps Hr.
    destruct (alloc_steps_shrink h h' Hsteps) as [_ Hs].
    destruct (Hs r ch Hr) as (ch' & Hr' & Hsh).
    exists ch'. split; [assumption |].
    split; [apply Hsh |]. split; [apply Hsh |].
    split; [now apply shrinks_invariant | now apply shrinks_settled].
Qed.

(** ** Payment-to-charge allocator: pooling of payments *)

Lemma walk_nonpos (charges : list nat) (h : heap) (remaining : Z) :
  remaining <= 0 -> walk charges h remaining = (h, remaining).
Proof.
  intros Hrem. destruct charges as [| c rest]; simpl; [reflexivity |].
  apply Z.leb_le in Hrem. now rewrite Hrem.
Qed.

Lemma walk_cons_pos (c : nat) (rest : list nat) (h : heap) (remaining : Z) :
  0 < remaining ->
  walk (c :: rest) h remaining
  = walk rest (fst (visit h remaining c)) (snd (visit h remaining c)).
Proof.
  intros Hrem. simpl.
  destruct (remaining <=? 0) eqn:E; bool_to_prop; [lia |].
  now destruct (visit h remaining c).
Qed.

Lemma visit_skip (h : heap) (c : nat) (remaining : Z) :
  h !! c = None \/ (exists ch, h !! c = Some ch /\ open_cents ch <= 0) ->
  visit h remaining c = (h, remaining).
Proof.
  unfold visit. intros [-> | (ch & -> & Ho)]; [reflexivity |].
  apply Z.leb_le in Ho. now rewrite Ho.
Qed.

Lemma visit_take (h : heap) (c : nat) (remaining : Z) (ch : Charge) :
  h !! c = Some ch -> 0 < open_cents ch ->
  visit h remaining c
  = (<[c := set_open ch (open_cents ch - Z.min (open_cents ch) remaining)]> h,
     remaining - Z.min (open_cents ch) remaining).
Proof.
  unfold visit. intros -> Ho. apply Z.leb_gt in Ho. now rewrite Ho.
Qed.

Lemma set_open_set_open (ch : Charge) (v w : Z) :
  set_open (set_open ch v) w = set_open ch w.
Proof. reflexivity. Qed.

(** Two payments walked one after the other settle what one payment of
    the two amounts together settles. *)
Lemma walk_walk (charges : list nat) (h : heap) (a b : Z) :
  0 <= a -> 0 <= b ->
  fst (walk charges (fst (walk charges h a)) b) = fst (walk charges h (a + b)).
Proof.
  revert h a b. induction charges as [| c rest IH]; intros h a b Ha Hb;
    [reflexivity |].
  destruct (Z.eq_dec a 0) as [-> | Ha0].
  { rewrite (walk_nonpos _ h 0) by lia. reflexivity. }
  destruct (Z.eq_dec b 0) as [-> | Hb0].
  { rewrite (walk_nonpos _ _ 0) by lia. now rewrite Z.add_0_r. }
  rewrite (walk_cons_pos c rest h a), (walk_cons_pos c rest h (a + b)) by lia.
  destruct (visit_cases h a c) as [[Hv Hskip] | (ch & Hc & Ho & Hv)].
  - (* the charge is settled already: both walks pass it by *)
    rewrite Hv, (visit_skip h c (a + b) Hskip). cbn [fst snd].
    rewrite walk_cons_pos by lia.
    rewrite visit_skip; [cbn [fst snd]; now apply IH |].
    pose proof (walk_shrinks rest h a) as Hsh.
    destruct Hskip as [Hnone | (ch & Hc & Ho)].
    + left. eapply heap_shrinks_absent; eassumption.
    + right. exists ch. split; [| assumption].
      eapply heap_shrinks_settled; eassumption.
  - rewrite Hv, (visit_take h c (a + b) ch Hc Ho). cbn [fst snd].
    assert (Hlt : (c < List.length h)%nat) by now apply lookup_lt_Some in Hc.
    destruct (Z_lt_le_dec a (open_cents ch)) as [Hpart | Hfull].
    + (* the first payment ends inside the charge *)
      replace (a - Z.min (open_cents ch) a) with 0 by lia.
      rewrite (walk_nonpos rest _ 0) by lia. cbn [fst snd].
      rewrite walk_cons_pos by lia.
      rewrite (visit_take _ c b (set_open ch (open_cents ch - Z.min (open_cents ch) a)))
        by (rewrite ?list_lookup_insert_eq; simpl; auto; lia).
      cbn [fst snd]. rewrite list_insert_insert_eq.
      unfold set_open. cbn [open_cents tenant_id kind due_date amount_cents].
      replace (open_cents ch - Z.min (open_cents ch) a
               - Z.min (open_cents ch - Z.min (open_cents ch) a) b)
        with (open_cents ch - Z.min (open_cents ch) (a + b)) by lia.
      replace (b - Z.min (open_cents ch - Z.min (open_cents ch) a) b)
        with (a + b - Z.min (open_cents ch) (a + b)) by lia.
      reflexivity.
    + (* the first payment settles the charge and moves on *)
      replace (Z.min (open_cents ch) a) with (open_cents ch) by lia.
      replace (Z.min (open_cents ch) (a + b)) with (open_cents ch) by lia.
      rewrite Z.sub_diag.
      set (h1 := <[c := set_open ch 0]> h).
      rewrite walk_cons_pos by lia.
      rewrite visit_skip.
      * cbn [fst snd]. rewrite IH by lia. f_equal. f_equal. lia.
      * right. exists (set_open ch 0). split; [| simpl; lia].
        eapply heap_shrinks_settled; [apply walk_shrinks | | simpl; lia].
        unfold h1. now apply list_lookup_insert_eq.
Qed.

Lemma sum_Z_nonneg (l : list Z) : Forall (fun z => 0 <= z) l -> 0 <= sum_Z l.
Proof. induction 1; simpl; lia. Qed.

Lemma pooled_nonneg (payments : list payment) : 0 <= pooled payments.
Proof.
  unfold pooled. induction payments as [| p ps IH]; simpl; lia.
Qed.

(** The outer loop settles what one payment of the pooled amount settles. *)
Lemma pay_all_pooled (charges : list nat) (payments : list payment) (h : heap) :
  pay_all charges payments h = fst (walk charges h (pooled payments)).
Proof.
  revert h. induction payments as [| p ps IH]; intros h.
  - simpl. now rewrite walk_nonpos by reflexivity.
  - change (pay_all charges (p :: ps) h)
      with (pay_all charges ps (fst (walk charges h (snd p)))).
    rewrite IH. pose proof (pooled_nonneg ps) as Hps.
    change (pooled (p :: ps)) with (Z.max 0 (snd p) + pooled ps).
    destruct (Z_le_gt_dec (snd p) 0) as [Hle | Hgt].
    + rewrite (walk_nonpos charges h (snd p)) by assumption. simpl.
      now replace (Z.max 0 (snd p)) with 0 by lia.
    + rewrite walk_walk by lia. now replace (Z.max 0 (snd p)) with (snd p) by lia.
Qed.

Lemma pooled_perm (ps ps' : list payment) :
  Permutation ps ps' -> pooled ps = pooled ps'.
Proof.
  unfold pooled. induction 1; simpl; lia.
Qed.

Lemma eligible_payments_perm (ps ps' : list payment) (asof : date) :
  Permutation ps ps' ->
  Permutation (eligible_payments ps asof) (eligible_payments ps' asof).
Proof.
  unfold eligible_payments.
  induction 1 as [| p ps ps' _ IH | p q ps | ps1 ps2 ps3 _ IH1 _ IH2]; simpl.
  - constructor.
  - destruct (date_leb (fst p) asof); [now constructor | assumption].
  - destruct (date_leb (fst p) asof), (date_leb (fst q) asof);
      try reflexivity; apply perm_swap.
  - now transitivity (List.filter (fun p => date_leb (fst p) asof) ps2).
Qed.

Lemma pooled_positive (ps : list payment) :
  Forall (fun p => 0 < snd p) ps -> pooled ps = sum_Z (map snd ps).
Proof.
  unfold pooled. induction 1 as [| p ps Hp _ IH]; simpl; [reflexivity |].
  rewrite IH. lia.
Qed.

Lemma eligible_payments_positive (ps : list payment) (asof : date) :
  Forall (fun p => 0 < snd p) ps ->
  Forall (fun p => 0 < snd p) (eligible_payments ps asof).
Proof.
  unfold eligible_payments. induction 1 as [| p ps Hp _ IH]; simpl;
    [constructor |].
  destruct (date_leb (fst p) asof); [now constructor | assumption].
Qed.

(** The allocator in one formula: the eligible charges in priority
    order, one walk with the pooled eligible payments. *)
Lemma apply_payments_fifo_pooled (h : heap) (charges : list nat)
    (payments : list payment) (asof : date) (priority : string) :
  apply_payments_fifo h charges payments asof priority
  = (fst (walk (sort_by (ref_key_ltb h priority) (eligible_charges h charges asof))
            h (pooled (eligible_payments payments asof))),
     sort_by (ref_key_ltb h priority) (eligible_charges h charges asof)).
Proof. unfold apply_payments_fifo. now rewrite pay_all_pooled. Qed.

Lemma apply_payments_fifo_perm (h : heap) (charges : list nat)
    (ps ps' : list payment) (asof : date) (priority : string) :
  Permutation ps ps' ->
  apply_payments_fifo h charges ps asof priority
  = apply_payments_fifo h charges ps' asof priority.
Proof.
  intros Hperm. rewrite !apply_payments_fifo_pooled.
  now rewrite (pooled_perm _ _ (eligible_payments_perm ps ps' asof Hperm)).
Qed.

(** [fetch_payments] yields positive amounts only, and so does the list
    [cmd_rent_aging] builds from it. *)
Lemma fetch_payments_positive (cx : db) (tid : string) (accounts : list string)
    (start_date end_date : date) :
  Forall (fun p => 0 < snd p) (fetch_payments cx tid accounts start_date end_date).
Proof.
  unfold fetch_payments.
  match goal with |- context [List.filter ?f (sort_by ?lt ?rows)] =>
    generalize (sort_by lt rows) end.
  intros l. induction l as [| [[d i] c] l IH]; simpl; [constructor |].
  destruct (0 <? c) eqn:Hc; [| assumption].
  simpl. constructor; [now apply Z.ltb_lt | assumption].
Qed.

Lemma rent_aging_payments_positive (cx : db) (tid : string)
    (rent_accounts nk_accounts nka_accounts : list string)
    (start_date asof : date) :
  Forall (fun p => 0 < snd p)
    (rent_aging_payments cx tid rent_accounts nk_accounts nka_accounts
       start_date asof).
Proof.
  unfold rent_aging_payments.
  repeat (apply Forall_app; split); apply fetch_payments_positive.
Qed.

(** C10: for payments with positive amounts (as [fetch_payments] yields
    them), the result of [apply_payments_fifo], heap and returned list,
    is the same for every permutation of the payment list, the same for
    any two lists whose payments dated up to the as-of date have the
    same total, and the same as for the single pooled payment of that
    total. *)
Theorem payments_pool_into_one_total (h : heap) (charges : list nat)
    (payments payments' : list payment) (asof : date) (priority : string)
    (Hpos : Forall (fun p => 0 < snd p) payments)
    (Hpos' : Forall (fun p => 0 < snd p) payments') :
  (Permutation payments payments' ->
   apply_payments_fifo h charges payments asof priority
   = apply_payments_fifo h charges payments' asof priority)
  /\ (eligible_total payments asof = eligible_total payments' asof ->
      apply_payments_fifo h charges payments asof priority
      = apply_payments_fifo h charges payments' asof priority)
  /\ apply_payments_fifo h charges payments asof priority
     = apply_payments_fifo h charges [(asof, eligible_total payments asof)]
         asof priority.
Proof.
  assert (Hp : pooled (eligible_payments payments asof)
               = eligible_total payments asof).
  { apply pooled_positive. now apply eligible_payments_positive. }
  assert (Hp' : pooled (eligible_payments payments' asof)
                = eligible_total payments' asof).
  { apply pooled_positive. now apply eligible_payments_positive. }
  split; [| split].
  - apply apply_payments_fifo_perm.
  - intros Htotal. rewrite !apply_payments_fifo_pooled. congruence.
  - rewrite !apply_payments_fifo_pooled, Hp.
    assert (Hone : eligible_payments [(asof, eligible_total payments asof)] asof
                   = [(asof, eligible_total payments asof)]).
    { unfold eligible_payments. simpl. now rewrite date_leb_refl. }
    rewrite Hone. unfold pooled. simpl.
    assert (0 <= eligible_total payments asof)
      by (rewrite <- Hp; apply pooled_nonneg).
    now replace (Z.max 0 (eligible_total payments asof) + 0)
      with (eligible_total payments asof) by lia.
Qed.

(** ** Payment-to-charge allocator: one walk in closed form *)

Lemma set_open_id (ch : Charge) : set_open ch (open_cents ch) = ch.
Proof. now destruct ch. Qed.

Lemma visit_lookup_other (h : heap) (remaining : Z) (c r : nat) :
  c <> r -> fst (visit h remaining c) !! r = h !! r.
Proof.
  intros Hne.
  destruct (visit_cases h remaining c) as [[-> _] | (ch & _ & _ & ->)];
    [reflexivity |].
  now apply list_lookup_insert_ne.
Qed.

Lemma visit_lookup_same (h : heap) (remaining : Z) (c : nat) (ch : Charge) :
  h !! c = Some ch -> 0 < remaining ->
  fst (visit h remaining c) !! c
  = Some (set_open ch
            (open_cents ch - Z.min (Z.max 0 (open_cents ch)) remaining)).
Proof.
  intros Hc Hrem.
  destruct (visit_cases h remaining c)
    as [[-> [Hn | (ch' & Hc' & Ho)]] | (ch' & Hc' & Ho & ->)]; simpl.
  - congruence.
  - assert (ch' = ch) as -> by congruence.
    replace (open_cents ch - Z.min (Z.max 0 (open_cents ch)) remaining)
      with (open_cents ch) by lia.
    now rewrite set_open_id.
  - assert (ch' = ch) as -> by congruence.
    rewrite list_lookup_insert_eq by (now apply lookup_lt_Some in Hc).
    do 2 f_equal. lia.
Qed.

Lemma visit_remaining (h : heap) (remaining : Z) (c : nat) :
  0 < remaining ->
  snd (visit h remaining c) = remaining - Z.min (open_part h c) remaining.
Proof.
  intros Hrem. unfold open_part.
  destruct (visit_cases h remaining c)
    as [[-> [-> | (ch & -> & Ho)]] | (ch & -> & Ho & ->)]; simpl; lia.
Qed.

Lemma open_part_nonneg (h : heap) (c : nat) : 0 <= open_part h c.
Proof. unfold open_part. destruct (h !! c); lia. Qed.

Lemma open_parts_nonneg (h : heap) (l : list nat) :
  0 <= sum_Z (map (open_part h) l).
Proof.
  induction l as [| c l IH]; simpl; [lia |].
  pose proof (open_part_nonneg h c). lia.
Qed.

Lemma open_parts_other (h : heap) (remaining : Z) (c : nat) (l : list nat) :
  ~ In c l ->
  map (open_part (fst (visit h remaining c))) l = map (open_part h) l.
Proof.
  intros Hc. apply map_ext_in. intros r Hr. unfold open_part.
  rewrite visit_lookup_other; [reflexivity |]. now intros ->.
Qed.

Lemma In_take {A : Type} (l : list A) (i : nat) (x : A) :
  In x (take i l) -> In x l.
Proof.
  revert i. induction l as [| y l IH]; intros i Hin.
  - destruct i; simpl in Hin; contradiction.
  - destruct i as [| i]; simpl in Hin; [contradiction |].
    destruct Hin as [-> | Hin]; [now left | right; eauto].
Qed.

(** A walk leaves the charges outside its list alone. *)
Lemma walk_untouched (charges : list nat) (h : heap) (remaining : Z) (c : nat) :
  ~ In c charges -> fst (walk charges h remaining) !! c = h !! c.
Proof.
  revert h remaining.
  induction charges as [| c0 rest IH]; intros h remaining Hc; [reflexivity |].
  destruct (Z_le_gt_dec remaining 0) as [Hle | Hgt].
  - now rewrite walk_nonpos.
  - rewrite walk_cons_pos by lia. simpl in Hc.
    rewrite IH by tauto. apply visit_lookup_other. tauto.
Qed.

(** One walk over distinct charges, in closed form: the charge at
    position [i] gives up what the payment has left once the charges in
    front of it are served, at most what it has open. *)
Lemma walk_closed_form (charges : list nat) (h : heap) (remaining : Z)
    (i c : nat) (ch : Charge) :
  List.NoDup charges ->
  charges !! i = Some c ->
  h !! c = Some ch ->
  fst (walk charges h remaining) !! c
  = Some (set_open ch
            (open_cents ch
             - Z.min (Z.max 0 (open_cents ch))
                 (Z.max 0 (remaining - open_before h charges i)))).
Proof.
  revert h remaining i.
  induction charges as [| c0 rest IH]; intros h remaining i Hnd Hi Hc;
    [discriminate |].
  apply List.NoDup_cons_iff in Hnd as [Hc0 Hnd].
  pose proof (open_parts_nonneg h (take i (c0 :: rest))) as Hbefore.
  fold (open_before h (c0 :: rest) i) in Hbefore.
  destruct (Z_le_gt_dec remaining 0) as [Hle | Hgt].
  - rewrite walk_nonpos by assumption. simpl. rewrite Hc.
    replace (open_cents ch
             - Z.min (Z.max 0 (open_cents ch))
                 (Z.max 0 (remaining - open_before h (c0 :: rest) i)))
      with (open_cents ch) by lia.
    now rewrite set_open_id.
  - rewrite walk_cons_pos by lia.
    destruct i as [| j]; simpl in Hi.
    + injection Hi as ->.
      rewrite walk_untouched by assumption.
      rewrite (visit_lookup_same h remaining c ch Hc) by lia.
      unfold open_before. simpl. do 2 f_equal. lia.
    + assert (Hne : c0 <> c).
      { intros ->. apply Hc0. apply list_elem_of_In. eapply list_elem_of_lookup_2.
        exact Hi. }
      rewrite (IH _ _ j Hnd Hi) by (now rewrite visit_lookup_other).
      rewrite visit_remaining by lia.
      unfold open_before in *. simpl in *.
      rewrite open_parts_other
        by (intros Hin; apply Hc0; eapply In_take; exact Hin).
      pose proof (open_part_nonneg h c0).
      pose proof (open_parts_nonneg h (take j rest)).
      do 2 f_equal. lia.
Qed.

(** What one walk leaves of the payment: what exceeds the open parts. *)
Lemma walk_leftover (charges : list nat) (h : heap) (remaining : Z) :
  List.NoDup charges -> 0 <= remaining ->
  snd (walk charges h remaining)
  = Z.max 0 (remaining - sum_Z (map (open_part h) charges)).
Proof.
  revert h remaining.
  induction charges as [| c0 rest IH]; intros h remaining Hnd Hrem.
  - simpl. lia.
  - apply List.NoDup_cons_iff in Hnd as [Hc0 Hnd].
    pose proof (open_parts_nonneg h (c0 :: rest)) as Hall.
    destruct (Z.eq_dec remaining 0) as [-> | Hne].
    + rewrite walk_nonpos by lia. simpl in *. lia.
    + rewrite walk_cons_pos by lia.
      rewrite IH; [| assumption | rewrite visit_remaining by lia; lia].
      rewrite visit_remaining by lia.
      rewrite open_parts_other by assumption.
      simpl in *. pose proof (open_part_nonneg h c0).
      pose proof (open_parts_nonneg h rest). lia.
Qed.

Lemma sorted_eligible_NoDup (h : heap) (charges : list nat) (asof : date)
    (priority : string) :
  List.NoDup charges ->
  List.NoDup (sort_by (ref_key_ltb h priority) (eligible_charges h charges asof)).
Proof.
  intros Hnd.
  eapply Permutation_NoDup; [symmetry; apply sort_by_perm |].
  unfold eligible_charges. now apply List.NoDup_filter.
Qed.

Lemma pay_all_app (charges : list nat) (ps qs : list payment) (h : heap) :
  pay_all charges (ps ++ qs) h = pay_all charges qs (pay_all charges ps h).
Proof. unfold pay_all. apply fold_left_app. Qed.

Lemma eligible_payments_app (ps qs : list payment) (asof : date) :
  eligible_payments (ps ++ qs) asof
  = eligible_payments ps asof ++ eligible_payments qs asof.
Proof. unfold eligible_payments. apply List.filter_app. Qed.

(** C4 (as amended): [apply_payments_fifo] walks the payments dated up
    to the as-of date in the order of the list it is given, without
    sorting them: a payment appended to the list is walked last, on the
    heap the earlier ones left, starting from its own full amount (what
    an earlier walk left over is gone), and a payment dated after the
    as-of date is not walked. One walk goes through the priority-sorted
    charges once; the charge at position [i] gives up the smaller of
    what it has open and what the payment has left after the charges in
    front of it; what exceeds all open parts is left over and dropped.
    The result is the one that walking the payments in date order
    (ties in list order) gives. *)
Theorem payments_walked_in_list_order (h : heap) (charges : list nat)
    (payments : list payment) (asof : date) (priority : string) :
  let sorted := snd (apply_payments_fifo h charges payments asof priority) in
  (forall p,
      apply_payments_fifo h charges (payments ++ [p]) asof priority
      = (if date_leb (fst p) asof
         then fst (walk sorted
                     (fst (apply_payments_fifo h charges payments asof priority))
                     (snd p))
         else fst (apply_payments_fifo h charges payments asof priority),
         sorted))
  /\ (forall h0 remaining i c ch,
        List.NoDup charges -> sorted !! i = Some c -> h0 !! c = Some ch ->
        fst (walk sorted h0 remaining) !! c
        = Some (set_open ch
                  (open_cents ch
                   - Z.min (Z.max 0 (open_cents ch))
                       (Z.max 0 (remaining - open_before h0 sorted i)))))
  /\ (forall h0 remaining,
        List.NoDup charges -> 0 <= remaining ->
        snd (walk sorted h0 remaining)
        = Z.max 0 (remaining - sum_Z (map (open_part h0) sorted)))
  /\ apply_payments_fifo h charges payments asof priority
     = spec_apply_payments h charges payments asof priority.
Proof.
  intros sorted. split; [| split; [| split]].
  - intros p. unfold sorted, apply_payments_fifo. cbn [fst snd].
    rewrite eligible_payments_app, pay_all_app.
    unfold eligible_payments at 2. simpl.
    now destruct (date_leb (fst p) asof).
  - intros h0 remaining i c ch Hnd Hi Hc.
    apply walk_closed_form; auto. now apply sorted_eligible_NoDup.
  - intros h0 remaining Hnd Hrem.
    apply walk_leftover; auto. now apply sorted_eligible_NoDup.
  - unfold spec_apply_payments, spec_chronological.
    apply apply_payments_fifo_perm. symmetry. apply sort_by_perm.
Qed.

(** * Further properties *)

(** ** Rule matcher *)



Section RuleMatcher.
Context `{Regex}.

(** X1: a rule that matches a bank row is active, the amount of the row
    lies within the bounds the rule sets, and the sign of the rule is
    "any", or "in" with a positive amount, or "out" with a negative one;
    a rule with any other sign text matches nothing. *)
Theorem match_rule_amount_conditions (rule : rule_row) (b : bank_row)
    (Hmatch : match_rule rule b = true) :
  r_active rule <> 0
  /\ (forall min_c, r_min_amount_cents rule = Some min_c -> min_c <= b_amount_cents b)
  /\ (forall max_c, r_max_amount_cents rule = Some max_c -> b_amount_cents b <= max_c)
  /\ (r_sign rule = "any"%string
      \/ r_sign rule = "in"%string /\ 0 < b_amount_cents b
      \/ r_sign rule = "out"%string /\ b_amount_cents b < 0).
Proof.
  revert Hmatch. unfold match_rule.
  destruct (r_active rule =? 0) eqn:Ha; [discriminate |].
  destruct (like_rejects _ _); [discriminate |].
  destruct (regex_rejects _ _); [discriminate |].
  destruct (r_min_amount_cents rule) as [min_c |] eqn:Hmin;
    [destruct (b_amount_cents b <? min_c) eqn:Hlo; [discriminate |] |];
    (destruct (r_max_amount_cents rule) as [max_c |] eqn:Hmax;
     [destruct (max_c <? b_amount_cents b) eqn:Hhi; [discriminate |] |]);
    (destruct (String.eqb (r_sign rule) "any") eqn:Hany; simpl;
     [| destruct (String.eqb (sign_of (b_amount_cents b)) (r_sign rule)) eqn:Hs;
        simpl; [| discriminate] ]);
    intros _; bool_to_prop;
    (split; [assumption |]);
    (split; [intros ? [= <-]; lia |]);
    (split; [intros ? [= <-]; lia |]);
    try (left; now apply String.eqb_eq);
    apply String.eqb_eq in Hs; unfold sign_of in Hs;
    destruct (0 <? b_amount_cents b) eqn:Hp;
    try (right; left; bool_to_prop; now split);
    destruct (b_amount_cents b <? 0) eqn:Hn;
    try (right; right; bool_to_prop; now split);
    apply String.eqb_neq in Hany; congruence.
Qed.




End RuleMatcher.

(** ** Split allocator: accounting *)

Lemma total_of_app (l1 l2 : list pending) :
  total_of (l1 ++ l2) = total_of l1 + total_of l2.
Proof.
  unfold total_of. induction l1 as [| pd l1 IH]; simpl; [reflexivity |].
  unfold total_of in IH. simpl in IH. lia.
Qed.

(** The first loop keeps [remaining + sum(splits_to_insert)] and adds
    one entry per fixed part. *)
Lemma fixed_loop_accounting (bank_amt : Z) (parts : list rule_part)
    (remaining : Z) (acc : list pending) (remaining' : Z) (acc' : list pending) :
  fixed_loop bank_amt parts remaining acc = inr (remaining', acc') ->
  remaining' + total_of acc' = remaining + total_of acc
  /\ List.length acc'
     = (List.length acc + List.length (List.filter (is_kind "fixed") parts))%nat.
Proof.
  revert remaining acc.
  induction parts as [| q parts IH]; intros remaining acc; simpl.
  - intros [= <- <-]. split; [reflexivity | lia].
  - unfold is_kind at 1. destruct (String.eqb (p_kind q) "fixed").
    + destruct (p_value_cents q) as [v |]; [| discriminate].
      intros Hloop. apply IH in Hloop as [Hsum Hlen].
      rewrite total_of_app in Hsum. rewrite length_app in Hlen.
      unfold total_of in Hsum at 3. simpl in *. split; lia.
    + apply IH.
Qed.

Lemma percent_scan_count (parts : list rule_part) (percent_sum : float)
    (acc : list percent_part) (percent_sum' : float) (acc' : list percent_part) :
  percent_scan parts percent_sum acc = inr (percent_sum', acc') ->
  List.length acc'
  = (List.length acc + List.length (List.filter (is_kind "percent") parts))%nat.
Proof.
  revert percent_sum acc.
  induction parts as [| q parts IH]; intros percent_sum acc; simpl.
  - intros [= <- <-]. lia.
  - unfold is_kind at 1. destruct (String.eqb (p_kind q) "percent").
    + destruct (p_value_percent q) as [v |]; [| discriminate].
      intros Hscan. apply IH in Hscan. rewrite length_app in Hscan.
      simpl in *. lia.
    + apply IH.
Qed.

Lemma percent_loop_accounting (bank_amt : Z) (pps : list percent_part)
    (remaining : Z) (acc : list pending) (remaining' : Z) (acc' : list pending) :
  percent_loop bank_amt pps remaining acc = inr (remaining', acc') ->
  remaining' + total_of acc' = remaining + total_of acc
  /\ List.length acc' = (List.length acc + List.length pps)%nat.
Proof.
  revert remaining acc.
  induction pps as [| pp pps IH]; intros remaining acc; simpl.
  - intros [= <- <-]. split; [reflexivity | lia].
  - destruct (percent_cents bank_amt (pp_pct pp)) as [e | cents]; simpl;
      [discriminate |].
    intros Hloop. apply IH in Hloop as [Hsum Hlen].
    rewrite total_of_app in Hsum. rewrite length_app in Hlen.
    unfold total_of in Hsum at 3. simpl in *. split; lia.
Qed.

(** What [collect_splits] hands to the balance check: the entries of the
    fixed and percent parts, then the entry of the remainder part if
    there is one, which holds what the others leave of the bank amount. *)
Lemma collect_splits_shape (bank_amt : Z) (parts : list rule_part)
    (l : list pending) :
  collect_splits bank_amt parts = inr l ->
  exists l0 remaining,
    remaining + total_of l0 = bank_amt
    /\ List.length l0
       = (List.length (List.filter (is_kind "fixed") parts)
          + List.length (List.filter (is_kind "percent") parts))%nat
    /\ (remainder_parts parts = [] /\ l = l0
        \/ exists p,
             remainder_parts parts = [p]
             /\ l = l0 ++ [mkPending (p_account p) (p_tenant_id p) remaining
                             (p_note_template p)]).
Proof.
  rewrite collect_splits_unfold.
  destruct (fixed_loop bank_amt parts bank_amt []) as [o | [rem fx]] eqn:Hf;
    [discriminate |].
  apply fixed_loop_accounting in Hf as [Hfs Hfl].
  destruct (percent_scan parts 0%float []) as [o | [ps pps]] eqn:Hs;
    [discriminate |].
  apply percent_scan_count in Hs.
  destruct (100.000001 <? ps)%float; [discriminate |].
  destruct (percent_loop bank_amt pps rem fx) as [o | [rem' l']] eqn:Hl;
    [discriminate |].
  apply percent_loop_accounting in Hl as [Hls Hll].
  unfold total_of in Hfs at 2. simpl in *.
  intros Hc. exists l', rem'. split; [lia |]. split; [lia |].
  destruct (remainder_parts parts) as [| p [| p' ps']];
    [left | right; exists p | discriminate]; injection Hc as <-; auto.
Qed.

Section SplitAllocatorMore.
Context `{Regex}.

(** A successful call, in full: the tables other than [splits] are as
    before, and the rows of [splits_to_insert] are appended. *)
Lemma apply_rule_to_bank_success (cx : db) (rule_id bank_id : Z) (cx' : db)
    (msg : message) :
  apply_rule_to_bank cx rule_id bank_id = (cx', Returned true msg) ->
  exists b r l new,
    select_bank cx bank_id = Some b
    /\ select_rule cx rule_id = Some r
    /\ collect_splits (b_amount_cents b) (select_rule_parts cx rule_id) = inr l
    /\ total_of l = b_amount_cents b
    /\ msg = SplitsCreated (List.length l) (r_name r)
    /\ same_tables cx cx'
    /\ splits cx' = splits cx ++ new
    /\ Forall2 (written_as bank_id (r_name r)) l new.
Proof.
  intros Happ.
  destruct (apply_rule_to_bank_cases cx rule_id bank_id)
    as [(b & r & l & Hb & Hr & _ & Hc & Ht & Heq) | [_ Hno]].
  - rewrite Heq in Happ. injection Happ as <- <-.
    destruct (insert_splits_rows cx bank_id (r_name r) l) as (new & Hs & Hw).
    exists b, r, l, new. repeat split; auto; apply insert_splits_tables.
  - rewrite Happ in Hno. now destruct (Hno msg).
Qed.

Lemma apply_rule_to_bank_failure (cx : db) (rule_id bank_id : Z) (cx' : db)
    (o : outcome) :
  apply_rule_to_bank cx rule_id bank_id = (cx', o) ->
  (forall msg, o <> Returned true msg) -> cx' = cx.
Proof.
  intros Happ Hno.
  destruct (apply_rule_to_bank_cases cx rule_id bank_id)
    as [(b & r & l & _ & _ & _ & _ & _ & Heq) | [Hsame _]].
  - rewrite Heq in Happ. injection Happ as _ <-. now destruct (Hno _ eq_refl).
  - now rewrite Happ in Hsame.
Qed.

(** X5: a rule with two or more remainder parts never succeeds, on any
    bank row: the call writes nothing and does not report success. *)
Theorem several_remainders_never_succeed (cx : db) (rule_id bank_id : Z)
    (Hmany : (2 <= List.length (remainder_parts (select_rule_parts cx rule_id)))%nat) :
  fst (apply_rule_to_bank cx rule_id bank_id) = cx
  /\ forall msg, snd (apply_rule_to_bank cx rule_id bank_id) <> Returned true msg.
Proof.
  destruct (apply_rule_to_bank cx rule_id bank_id) as [cx' o] eqn:Happ. simpl.
  assert (Hno : forall msg, o <> Returned true msg).
  { intros msg ->.
    apply apply_rule_to_bank_success in Happ
      as (b & r & l & new & _ & _ & Hc & _).
    apply collect_splits_shape in Hc as (l0 & rem & _ & _ & [[Hr _] | (p & Hr & _)]);
      rewrite Hr in Hmany; simpl in Hmany; lia. }
  split; [| exact Hno]. eapply apply_rule_to_bank_failure; eassumption.
Qed.

(** X6: a rule with exactly one remainder part never fails the balance
    check. When the call succeeds, the row of the remainder part is the
    last one written and its amount is the bank amount less the amounts
    of the rows written before it. *)
Theorem single_remainder_absorbs_the_rest (cx : db) (rule_id bank_id : Z)
    (p : rule_part)
    (Hone : remainder_parts (select_rule_parts cx rule_id) = [p]) :
  (forall total bank_amt,
      snd (apply_rule_to_bank cx rule_id bank_id)
      <> Returned false (BalanceMismatch total bank_amt))
  /\ (forall cx' msg,
        apply_rule_to_bank cx rule_id bank_id = (cx', Returned true msg) ->
        exists b new s,
          select_bank cx bank_id = Some b
          /\ splits cx' = splits cx ++ new ++ [s]
          /\ s_account s = p_account p
          /\ s_tenant_id s = p_tenant_id p
          /\ s_amount_cents s = b_amount_cents b - sum_Z (map s_amount_cents new)).
Proof.
  split.
  - intros total bank_amt. unfold apply_rule_to_bank.
    destruct (select_bank cx bank_id) as [b |]; [| discriminate].
    destruct (select_rule cx rule_id) as [r |]; [| discriminate].
    destruct (match_rule r b); simpl; [| discriminate].
    destruct (select_rule_parts cx rule_id) as [| q parts] eqn:Hparts;
      [discriminate |].
    destruct (collect_splits (b_amount_cents b) (q :: parts)) as [o | l] eqn:Hc.
    + simpl. intros ->. revert Hc. rewrite collect_splits_unfold.
      destruct (fixed_loop _ _ _ _) as [o1 | [rem fx]] eqn:Hf.
      { intros [= ->]. apply fixed_loop_exit in Hf. discriminate. }
      destruct (percent_scan _ _ _) as [o1 | [ps pps]] eqn:Hs.
      { intros [= ->]. apply percent_scan_exit in Hs. discriminate. }
      destruct (100.000001 <? ps)%float; [discriminate |].
      destruct (percent_loop _ _ _ _) as [o1 | [rem' l']] eqn:Hl.
      { intros [= ->]. apply percent_loop_exit in Hl as [e He]. discriminate. }
      rewrite Hone. discriminate.
    + apply collect_splits_shape in Hc
        as (l0 & rem & Hsum & _ & [[Hr _] | (p' & _ & ->)]);
        [rewrite Hr in Hone; discriminate |].
      rewrite total_of_app. unfold total_of at 2. simpl.
      replace (total_of l0 + (rem + 0) =? b_amount_cents b) with true
        by (symmetry; apply Z.eqb_eq; lia).
      discriminate.
  - intros cx' msg Happ.
    apply apply_rule_to_bank_success in Happ
      as (b & r & l & new & Hb & _ & Hc & _ & _ & _ & Hs & Hw).
    apply collect_splits_shape in Hc
      as (l0 & rem & Hsum & _ & [[Hr _] | (p' & Hr & ->)]);
      [rewrite Hr in Hone; discriminate |].
    assert (p' = p) as -> by congruence.
    apply Forall2_app_inv_l in Hw as (new0 & new1 & Hw0 & Hw1 & ->).
    inversion Hw1 as [| pd s l1 n1 Hws Hnil]; subst. inversion Hnil; subst.
    apply written_amounts in Hw0 as [Hsum0 _].
    destruct Hws as (_ & Ha & Ht & Hamt & _). simpl in *.
    exists b, new0, s. repeat split; auto. lia.
Qed.

(** X7: a successful call reports as its count the number of parts of
    the rule that are fixed, percent or remainder parts (a part of any
    other kind is passed over), and appends exactly that many rows, each
    on the given bank row and with a note that is not empty: the note of
    the part, or "Auto: Regel" and the name of the rule. *)
Theorem splits_created_counts_the_parts (cx : db) (rule_id bank_id : Z)
    (cx' : db) (msg : message)
    (Happ : apply_rule_to_bank cx rule_id bank_id = (cx', Returned true msg)) :
  let parts := select_rule_parts cx rule_id in
  let n := (List.length (List.filter (is_kind "fixed") parts)
            + List.length (List.filter (is_kind "percent") parts)
            + List.length (List.filter (is_kind "remainder") parts))%nat in
  exists r new,
    select_rule cx rule_id = Some r
    /\ msg = SplitsCreated n (r_name r)
    /\ splits cx' = splits cx ++ new
    /\ List.length new = n
    /\ Forall (fun s => s_bank_id s = bank_id
                        /\ exists note, s_note s = Some note /\ note <> EmptyString)
         new.
Proof.
  intros parts n.
  apply apply_rule_to_bank_success in Happ
    as (b & r & l & new & _ & Hr & Hc & _ & -> & _ & Hs & Hw).
  assert (Hlen : List.length l = n).
  { apply collect_splits_shape in Hc
      as (l0 & rem & _ & Hl0 & [[Hrem ->] | (p & Hrem & ->)]);
      unfold n, parts;
      change (List.filter (is_kind "remainder") (select_rule_parts cx rule_id))
        with (remainder_parts (select_rule_parts cx rule_id));
      rewrite Hrem; rewrite ?length_app; simpl; lia. }
  exists r, new. repeat split; auto.
  - now rewrite Hlen.
  - rewrite <- Hlen. symmetry. eapply Forall2_length. exact Hw.
  - clear -Hw. induction Hw as [| pd s l new Hws _ IH]; constructor; [| exact IH].
    destruct Hws as (Hb & _ & _ & _ & Hn). split; [exact Hb |].
    eexists. split; [exact Hn |].
    unfold note_or_auto. destruct (pd_note_t pd) as [[| a n0] |]; simpl; discriminate.
Qed.

End SplitAllocatorMore.

(** ** Batch rule application: what a run changes *)

Lemma same_tables_refl (cx : db) : same_tables cx cx.
Proof. now repeat split. Qed.

Lemma same_tables_trans (cx1 cx2 cx3 : db) :
  same_tables cx1 cx2 -> same_tables cx2 cx3 -> same_tables cx1 cx3.
Proof.
  unfold same_tables. intros (? & ? & ? & ?) (? & ? & ? & ?).
  repeat split; congruence.
Qed.

Lemma sum_Z_app (l1 l2 : list Z) : sum_Z (l1 ++ l2) = sum_Z l1 + sum_Z l2.
Proof. induction l1 as [| x l1 IH]; simpl; [reflexivity | lia]. Qed.

Lemma sum_Z_perm (l l' : list Z) : Permutation l l' -> sum_Z l = sum_Z l'.
Proof. induction 1; simpl in *; lia. Qed.

Lemma split_sum_appended (cx cx' : db) (new : list split_row) (k bank_id : Z) :
  splits cx' = splits cx ++ new ->
  Forall (fun s => s_bank_id s = bank_id) new ->
  split_sum cx' k
  = if k =? bank_id then split_sum cx k + sum_Z (map s_amount_cents new)
    else split_sum cx k.
Proof.
  intros Hs Hall.
  destruct (Z.eqb_spec k bank_id) as [-> | Hne].
  - unfold split_sum, splits_of. rewrite Hs, List.filter_app, map_app, sum_Z_app.
    do 2 f_equal. clear Hs.
    induction Hall as [| s new Hb _ IH]; simpl; [reflexivity |].
    rewrite Hb, Z.eqb_refl. simpl. now rewrite IH.
  - unfold split_sum. now rewrite (splits_of_appended cx cx' new k bank_id Hs Hall Hne).
Qed.

Lemma NoDup_map_filter {A : Type} (f : A -> Z) (g : A -> bool) (l : list A) :
  List.NoDup (map f l) -> List.NoDup (map f (List.filter g l)).
Proof.
  induction l as [| x l IH]; simpl; [auto |].
  intros Hnd. apply List.NoDup_cons_iff in Hnd as [Hx Hnd].
  destruct (g x); simpl; [| auto].
  constructor; [| auto].
  intros Hin. apply Hx. apply in_map_iff in Hin as (y & Hy & Hin).
  apply filter_In in Hin as [Hin _]. apply in_map_iff. eauto.
Qed.

Section BatchMore.
Context `{Regex}.

(** The inner loop either leaves the store alone, or ends on the first
    rule whose application succeeds, with that application's store. *)
Lemma try_rules_cases (cx : db) (b : bank_row) (rs : list rule_row) :
  (fst (try_rules cx b rs) = cx /\ snd (try_rules cx b rs) <> inr true)
  \/ (snd (try_rules cx b rs) = inr true
      /\ exists r msg,
           In r rs /\ match_rule r b = true
           /\ apply_rule_to_bank cx (r_id r) (b_id b)
              = (fst (try_rules cx b rs), Returned true msg)).
Proof.
  induction rs as [| r rs IH]; simpl.
  - left. split; [reflexivity | discriminate].
  - destruct (match_rule r b) eqn:Hm.
    + destruct (apply_rule_to_bank cx (r_id r) (b_id b)) as [cx' [[|] msg | e]] eqn:Happ.
      * right. split; [reflexivity |]. exists r, msg. auto.
      * assert (cx' = cx) as ->
          by (eapply apply_rule_to_bank_failure; [exact Happ | discriminate]).
        destruct IH as [IH | (Ht & r' & msg' & Hin & Hm' & Happ')];
          [left; exact IH |].
        right. split; [exact Ht |]. exists r', msg'. auto.
      * assert (cx' = cx) as ->
          by (eapply apply_rule_to_bank_failure; [exact Happ | discriminate]).
        left. split; [reflexivity | discriminate].
    + destruct IH as [IH | (Ht & r' & msg' & Hin & Hm' & Happ')];
        [left; exact IH |].
      right. split; [exact Ht |]. exists r', msg'. auto.
Qed.

(** What the inner loop writes: nothing, or rows of the bank row that
    sum to the amount found under its id. *)
Lemma try_rules_writes (cx : db) (b : bank_row) (rs : list rule_row) :
  same_tables cx (fst (try_rules cx b rs))
  /\ exists new,
       splits (fst (try_rules cx b rs)) = splits cx ++ new
       /\ Forall (fun s => s_bank_id s = b_id b) new
       /\ (new = []
           \/ exists b0, select_bank cx (b_id b) = Some b0
                         /\ sum_Z (map s_amount_cents new) = b_amount_cents b0)
       /\ (snd (try_rules cx b rs) <> inr true -> fst (try_rules cx b rs) = cx).
Proof.
  destruct (try_rules_cases cx b rs)
    as [[Hsame Hno] | (Ht & r & msg & _ & _ & Happ)].
  - rewrite Hsame. split; [apply same_tables_refl |].
    exists []. rewrite app_nil_r. repeat split; auto.
  - apply apply_rule_to_bank_success in Happ
      as (b0 & r0 & l & new & Hb & _ & _ & Htot & _ & Htab & Hs & Hw).
    apply written_amounts in Hw as [Hsum Hall].
    split; [exact Htab |]. exists new. repeat split; auto.
    + right. exists b0. split; [exact Hb | congruence].
    + intros Hno. now destruct Hno.
Qed.

Lemma rows_loop_writes (rs : list rule_row) (bank_rows : list bank_row)
    (cx : db) (applied : Z) :
  same_tables cx (fst (rows_loop cx bank_rows rs applied))
  /\ (exists new,
        splits (fst (rows_loop cx bank_rows rs applied)) = splits cx ++ new
        /\ Forall (fun s => exists b, In b bank_rows /\ s_bank_id s = b_id b) new)
  /\ (forall n, snd (rows_loop cx bank_rows rs applied) = inr n ->
                applied <= n <= applied + Z.of_nat (List.length bank_rows)
                /\ (n = applied -> fst (rows_loop cx bank_rows rs applied) = cx)).
Proof.
  revert cx applied.
  induction bank_rows as [| b rest IH]; intros cx applied.
  - simpl. split; [apply same_tables_refl |]. split.
    + exists []. now rewrite app_nil_r.
    + intros n [= <-]. split; [lia | reflexivity].
  - assert (Hweak : forall new : list split_row,
              Forall (fun s => exists b0, In b0 rest /\ s_bank_id s = b_id b0) new ->
              Forall (fun s => exists b0, In b0 (b :: rest) /\ s_bank_id s = b_id b0) new).
    { intros new. apply List.Forall_impl. intros s (b0 & Hin & Hid).
      exists b0. split; [now right | exact Hid]. }
    cbn [rows_loop]. destruct (balanced cx b).
    { destruct (IH cx applied) as (Htab & (new & Hs & Hall) & Hcount).
      split; [exact Htab |]. split; [exists new; auto |].
      intros n Hn. destruct (Hcount n Hn) as [Hb Hz].
      split; [cbn [Datatypes.length]; lia | exact Hz]. }
    destruct (try_rules_writes cx b rs) as (Htab & new & Hs & Hall & _ & Hsame).
    assert (Hall' : Forall (fun s => exists b0, In b0 (b :: rest)
                                                /\ s_bank_id s = b_id b0) new).
    { revert Hall. apply List.Forall_impl. intros s Hid. exists b. split; [now left | exact Hid]. }
    destruct (try_rules cx b rs) as [cx1 [e | [|]]] eqn:Htry; cbn [fst snd] in *.
    + split; [exact Htab |]. split; [exists new; auto | discriminate].
    + destruct (IH cx1 (applied + 1)) as (Htab1 & (new1 & Hs1 & Hall1) & Hcount).
      split; [eapply same_tables_trans; eassumption |]. split.
      * exists (new ++ new1). rewrite Hs1, Hs, <- app_assoc.
        split; [reflexivity |]. apply Forall_app. split; auto.
      * intros n Hn. destruct (Hcount n Hn) as [Hb _].
        split; [cbn [Datatypes.length]; lia | lia].
    + assert (cx1 = cx) as -> by (apply Hsame; discriminate).
      destruct (IH cx applied) as (Htab1 & (new1 & Hs1 & Hall1) & Hcount).
      split; [exact Htab1 |]. split; [exists new1; auto |].
      intros n Hn. destruct (Hcount n Hn) as [Hb Hz].
      split; [cbn [Datatypes.length]; lia | exact Hz].
Qed.

(** X8: a batch run leaves the tables [bank], [rules], [rule_parts] and
    [manual_charges] as they are, keeps every split that was there, in
    place, and appends only splits of bank rows it selected. *)
Theorem batch_only_appends_splits (cx : db) (args : apply_rules_args) :
  same_tables cx (fst (cmd_apply_rules cx args))
  /\ exists new,
       splits (fst (cmd_apply_rules cx args)) = splits cx ++ new
       /\ Forall (fun s => exists b, In b (select_bank_rows cx args)
                                     /\ In b (bank cx)
                                     /\ s_bank_id s = b_id b) new.
Proof.
  unfold cmd_apply_rules.
  destruct (rows_loop_writes (select_active_rules cx) (select_bank_rows cx args) cx 0)
    as (Htab & (new & Hs & Hall) & _).
  destruct (rows_loop cx (select_bank_rows cx args) (select_active_rules cx) 0)
    as [cx' [e | n]]; cbn [fst snd] in *.
  - split; [apply same_tables_refl |]. exists []. now rewrite app_nil_r.
  - split; [exact Htab |]. exists new. split; [exact Hs |].
    revert Hall. apply List.Forall_impl. intros s (b & Hin & Hid).
    exists b. repeat split; auto. eapply select_bank_rows_In; eassumption.
Qed.

(** X9: the count a batch run prints lies between 0 and the number of
    bank rows selected; a count of 0 means that nothing was written; and
    a run that raises leaves the store as it was before the run. *)
Theorem batch_count_bounds (cx : db) (args : apply_rules_args) :
  (forall cx' n,
      cmd_apply_rules cx args = (cx', inr n) ->
      0 <= n <= Z.of_nat (List.length (select_bank_rows cx args))
      /\ (n = 0 -> cx' = cx))
  /\ (forall cx' e, cmd_apply_rules cx args = (cx', inl e) -> cx' = cx).
Proof.
  unfold cmd_apply_rules.
  destruct (rows_loop_writes (select_active_rules cx) (select_bank_rows cx args) cx 0)
    as (_ & _ & Hcount).
  destruct (rows_loop cx (select_bank_rows cx args) (select_active_rules cx) 0)
    as [cx1 [e | n]]; cbn [fst snd] in *.
  - split; [discriminate | now intros cx' e' [= <- _]].
  - split; [| discriminate]. intros cx' n' [= <- <-].
    destruct (Hcount n eq_refl) as [Hb Hz]. split; [lia | exact Hz].
Qed.

Lemma rows_loop_one_rule_per_row (rs : list rule_row) (k : Z)
    (bank_rows : list bank_row) (cx : db) (applied : Z) :
  List.NoDup (map b_id (bank cx)) ->
  List.NoDup (map b_id bank_rows) ->
  (forall b, In b bank_rows -> In b (bank cx)) ->
  split_sum (fst (rows_loop cx bank_rows rs applied)) k = split_sum cx k
  \/ exists b,
       In b bank_rows /\ b_id b = k
       /\ split_sum (fst (rows_loop cx bank_rows rs applied)) k
          = split_sum cx k + b_amount_cents b.
Proof.
  revert cx applied.
  induction bank_rows as [| b rest IH]; intros cx applied Hpk Hnd Hsub;
    [now left |].
  simpl in Hnd. apply List.NoDup_cons_iff in Hnd as [Hb Hnd].
  assert (Hrest : forall cx1 applied1,
            bank cx1 = bank cx ->
            split_sum (fst (rows_loop cx1 rest rs applied1)) k = split_sum cx1 k
            \/ exists b0, In b0 (b :: rest) /\ b_id b0 = k
                 /\ split_sum (fst (rows_loop cx1 rest rs applied1)) k
                    = split_sum cx1 k + b_amount_cents b0).
  { intros cx1 applied1 Hbank.
    destruct (IH cx1 applied1) as [Hs | (b0 & Hin & Hid & Hs)].
    - now rewrite Hbank.
    - exact Hnd.
    - intros b0 Hin. rewrite Hbank. apply Hsub. now right.
    - now left.
    - right. exists b0. split; [now right | auto]. }
  cbn [rows_loop]. destruct (balanced cx b); [now apply Hrest |].
  destruct (try_rules_writes cx b rs)
    as (Htab & new & Hs & Hall & Hsum & Hsame).
  pose proof (split_sum_appended cx _ new k (b_id b) Hs Hall) as Hk.
  assert (Hbank : bank (fst (try_rules cx b rs)) = bank cx) by apply Htab.
  assert (Hstep :
            split_sum (fst (try_rules cx b rs)) k = split_sum cx k
            \/ b_id b = k
               /\ split_sum (fst (try_rules cx b rs)) k
                  = split_sum cx k + b_amount_cents b).
  { destruct (Z.eqb_spec k (b_id b)) as [-> | Hne]; [| now left].
    destruct Hsum as [-> | (b0 & Hb0 & Hsum)]; [left; simpl in Hk; lia |].
    right. split; [reflexivity |]. rewrite Hk, Hsum. f_equal. f_equal.
    unfold select_bank in Hb0. apply find_some in Hb0 as [Hin0 Hid0].
    apply Z.eqb_eq in Hid0.
    apply (unique_key b_id (bank cx)); auto. apply Hsub. now left. }
  assert (Hafter : forall applied1,
            split_sum (fst (rows_loop (fst (try_rules cx b rs)) rest rs applied1)) k
            = split_sum cx k
            \/ exists b0, In b0 (b :: rest) /\ b_id b0 = k
                 /\ split_sum (fst (rows_loop (fst (try_rules cx b rs)) rest rs applied1)) k
                    = split_sum cx k + b_amount_cents b0).
  { intros applied1.
    destruct Hstep as [Hsame_k | [Hid Hplus]].
    - rewrite <- Hsame_k. now apply Hrest.
    - destruct (IH (fst (try_rules cx b rs)) applied1) as [Hs1 | (b0 & Hin & Hid0 & _)].
      + now rewrite Hbank.
      + exact Hnd.
      + intros b0 Hin. rewrite Hbank. apply Hsub. now right.
      + right. exists b. split; [now left |]. split; [exact Hid | congruence].
      + exfalso. apply Hb. apply in_map_iff. exists b0. split; [congruence | exact Hin]. }
  destruct (try_rules cx b rs) as [cx1 [e | [|]]]; cbn [fst snd] in *.
  - destruct Hstep as [Hs0 | [Hid Hplus]]; [now left |].
    right. exists b. split; [now left | auto].
  - apply Hafter.
  - apply Hafter.
Qed.

(** X10: under the primary key of [bank], one batch run applies at most
    one rule to a bank row: the sum of the splits of any bank id is
    afterwards what it was, or what it was plus the amount of the bank
    row with that id, which the run had selected. *)
Theorem batch_applies_one_rule_per_row (cx : db) (args : apply_rules_args)
    (k : Z)
    (Hpk : List.NoDup (map b_id (bank cx))) :
  split_sum (fst (cmd_apply_rules cx args)) k = split_sum cx k
  \/ exists b,
       In b (select_bank_rows cx args) /\ b_id b = k
       /\ split_sum (fst (cmd_apply_rules cx args)) k
          = split_sum cx k + b_amount_cents b.
Proof.
  unfold cmd_apply_rules.
  assert (Hnd : List.NoDup (map b_id (select_bank_rows cx args))).
  { unfold select_bank_rows, bank_by_id.
    assert (Hsorted : List.NoDup (map b_id (sort_by (fun a b => b_id a <? b_id b) (bank cx)))).
    { eapply Permutation_NoDup; [| exact Hpk].
      apply Permutation_map. symmetry. apply sort_by_perm. }
    destruct (match args_bank_id args with
              | Some id => if id =? 0 then None else Some id
              | None => None
              end) as [id |]; [now apply NoDup_map_filter |].
    destruct (args_only_unbalanced args); [now apply NoDup_map_filter | exact Hsorted]. }
  pose proof (rows_loop_one_rule_per_row (select_active_rules cx) k
                (select_bank_rows cx args) cx 0 Hpk Hnd
                (select_bank_rows_In cx args)) as Hone.
  destruct (rows_loop cx (select_bank_rows cx args) (select_active_rules cx) 0)
    as [cx' [e | n]]; cbn [fst snd] in *; [now left | exact Hone].
Qed.

End BatchMore.

(** ** Sorting: the result is in order *)

Lemma insert_by_Forall {A : Type} (ltb : A -> A -> bool) (P : A -> Prop)
    (x : A) (l : list A) :
  P x -> Forall P l -> Forall P (insert_by ltb x l).
Proof.
  intros Hx Hl. apply List.Forall_forall. intros y Hy.
  apply (Permutation_in _ (insert_by_perm ltb x l)) in Hy.
  destruct Hy as [<- | Hy]; [exact Hx |].
  rewrite List.Forall_forall in Hl. now apply Hl.
Qed.

(** [sort_by] sorts: over elements on which [ltb] is the strict part of
    a total preorder, no element of the result is strictly below one in
    front of it. *)
Lemma sort_by_sorted {A : Type} (ltb : A -> A -> bool) (D : A -> Prop)
    (l : list A) :
  (forall x y, D x -> D y -> ltb x y = true -> ltb y x = false) ->
  (forall x y z, D x -> D y -> D z ->
                 ltb y x = false -> ltb z y = false -> ltb z x = false) ->
  Forall D l ->
  StronglySorted (fun x y => ltb y x = false) (sort_by ltb l)
  /\ Forall D (sort_by ltb l).
Proof.
  intros Hasym Htrans. induction 1 as [| x l Hx Hl [IHs IHd]]; simpl.
  - split; constructor.
  - split; [| now apply insert_by_Forall].
    clear Hl. revert IHs IHd. generalize (sort_by ltb l). clear l.
    intros l Hs Hd. induction Hs as [| y l Hs IH Hy]; simpl.
    + repeat constructor.
    + apply List.Forall_cons_iff in Hd as [Dy Hd].
      destruct (ltb y x) eqn:Hyx.
      * constructor; [now apply IH |].
        apply insert_by_Forall; [now apply Hasym | exact Hy].
      * constructor; [now constructor |].
        constructor; [exact Hyx |].
        rewrite List.Forall_forall in Hy, Hd |- *. intros z Hz.
        apply (Htrans x y z); auto.
Qed.

Lemma StronglySorted_filter {A : Type} (R : A -> A -> Prop) (f : A -> bool)
    (l : list A) :
  StronglySorted R l -> StronglySorted R (List.filter f l).
Proof.
  induction 1 as [| x l Hs IH Hx]; simpl; [constructor |].
  destruct (f x); [| exact IH].
  constructor; [exact IH |].
  rewrite List.Forall_forall in Hx |- *. intros y Hy.
  apply filter_In in Hy as [Hy _]. now apply Hx.
Qed.

Lemma StronglySorted_map {A B : Type} (R : A -> A -> Prop) (S : B -> B -> Prop)
    (g : A -> B) (l : list A) :
  (forall x y, R x y -> S (g x) (g y)) ->
  StronglySorted R l -> StronglySorted S (map g l).
Proof.
  intros HRS. induction 1 as [| x l Hs IH Hx]; simpl; [constructor |].
  constructor; [exact IH |].
  rewrite List.Forall_forall in Hx. apply List.Forall_forall. intros y Hy.
  apply in_map_iff in Hy as (z & <- & Hz). auto.
Qed.

(** ** Payments fetched for the aging *)

(** X11: the payments [fetch_payments] returns are in date order, each
    is positive and each is dated within the range asked for. *)
Theorem fetch_payments_in_date_order (cx : db) (tid : string)
    (accounts : list string) (start_date end_date : date) :
  StronglySorted (fun p q => date_leb (fst p) (fst q) = true)
    (fetch_payments cx tid accounts start_date end_date)
  /\ Forall (fun p => 0 < snd p
                      /\ date_leb start_date (fst p) = true
                      /\ date_leb (fst p) end_date = true)
       (fetch_payments cx tid accounts start_date end_date).
Proof.
  unfold fetch_payments.
  set (rows := flat_map _ (splits cx)).
  set (lt := fun x y : date * Z * Z => _).
  assert (Hrange : Forall (fun x : date * Z * Z =>
                             date_leb start_date (fst (fst x)) = true
                             /\ date_leb (fst (fst x)) end_date = true) rows).
  { unfold rows. apply List.Forall_forall. intros x Hx.
    apply in_flat_map in Hx as (s0 & _ & Hx).
    destruct (_ && _) in Hx; [| contradiction].
    apply in_map_iff in Hx as (b & <- & Hb).
    apply filter_In in Hb as [_ Hb]. simpl.
    apply andb_prop in Hb as [Hb Hend]. apply andb_prop in Hb as [_ Hstart].
    auto. }
  destruct (sort_by_sorted lt (fun _ => True) rows) as [Hsorted _].
  - intros [[d1 i1] c1] [[d2 i2] c2] _ _. unfold lt.
    rewrite orb_true_iff, andb_true_iff, orb_false_iff, andb_false_iff,
      !date_ltb_spec, !date_eqb_spec, Z.ltb_lt, Z.ltb_ge.
    intros Hlt. split; [| destruct (date_eqb d2 d1) eqn:E;
                          [apply date_eqb_spec in E; right | left; reflexivity]].
    + destruct (date_ltb d2 d1) eqn:E; [| reflexivity].
      apply date_ltb_spec in E. lia.
    + lia.
  - intros [[d1 i1] c1] [[d2 i2] c2] [[d3 i3] c3] _ _ _. unfold lt.
    rewrite !orb_false_iff, !andb_false_iff, !Z.ltb_ge.
    intros [H21 H21'] [H32 H32'].
    assert (N21 : ~ (date_ltb d2 d1 = true)) by congruence.
    assert (N32 : ~ (date_ltb d3 d2 = true)) by congruence.
    rewrite date_ltb_spec in N21, N32.
    assert (E21 : date_eqb d2 d1 = true -> i1 <= i2).
    { intros E. destruct H21' as [E' | E']; [congruence | exact E']. }
    assert (E32 : date_eqb d3 d2 = true -> i2 <= i3).
    { intros E. destruct H32' as [E' | E']; [congruence | exact E']. }
    rewrite date_eqb_spec in E21, E32.
    split.
    + destruct (date_ltb d3 d1) eqn:E; [| reflexivity].
      apply date_ltb_spec in E. lia.
    + destruct (date_eqb d3 d1) eqn:E; [| now left].
      right. apply date_eqb_spec in E. lia.
  - apply List.Forall_forall. auto.
  - split.
    + apply StronglySorted_map
        with (R := fun x y : date * Z * Z => lt y x = false).
      * intros [[d1 i1] c1] [[d2 i2] c2]. unfold lt. simpl.
        rewrite orb_false_iff. intros [Hnlt _].
        rewrite date_leb_spec.
        assert (N : ~ (date_ltb d2 d1 = true)) by congruence.
        rewrite date_ltb_spec in N. lia.
      * now apply StronglySorted_filter.
    + apply List.Forall_forall. intros p Hp.
      apply in_map_iff in Hp as ([[d i] c] & <- & Hx).
      apply filter_In in Hx as [Hx Hpos]. apply Z.ltb_lt in Hpos.
      apply sort_by_In in Hx. rewrite List.Forall_forall in Hrange.
      destruct (Hrange _ Hx) as [Hs He]. simpl in *. auto.
Qed.

(** ** Payment-to-charge allocator: who is served, and in what order *)

Lemma StronglySorted_impl {A : Type} (R S : A -> A -> Prop) (l : list A) :
  (forall x y, R x y -> S x y) -> StronglySorted R l -> StronglySorted S l.
Proof.
  intros HRS. induction 1 as [| x l Hs IH Hx]; constructor; [exact IH |].
  revert Hx. apply List.Forall_impl. auto.
Qed.

Lemma key_ltb_asym (a b : key) : key_ltb a b = true -> key_ltb b a = false.
Proof.
  destruct a as [d1 | p1 d1], b as [d2 | p2 d2]; simpl; try reflexivity.
  - intros Hlt. destruct (date_ltb d2 d1) eqn:E; [| reflexivity].
    apply date_ltb_spec in Hlt, E. lia.
  - rewrite orb_true_iff, andb_true_iff, Z.ltb_lt, Z.eqb_eq, date_ltb_spec.
    intros Hlt.
    destruct ((p2 <? p1) || (p2 =? p1) && date_ltb d2 d1) eqn:E; [| reflexivity].
    rewrite orb_true_iff, andb_true_iff, Z.ltb_lt, Z.eqb_eq, date_ltb_spec in E. lia.
Qed.

Lemma key_ltb_trans (a b c : key) :
  key_has_rank a = key_has_rank b -> key_has_rank b = key_has_rank c ->
  key_ltb b a = false -> key_ltb c b = false -> key_ltb c a = false.
Proof.
  destruct a as [d1 | p1 d1], b as [d2 | p2 d2], c as [d3 | p3 d3]; simpl;
    try discriminate; intros _ _.
  - intros H21 H32. destruct (date_ltb d3 d1) eqn:E; [| reflexivity].
    assert (N21 : ~ (date_ltb d2 d1 = true)) by congruence.
    assert (N32 : ~ (date_ltb d3 d2 = true)) by congruence.
    rewrite date_ltb_spec in N21, N32, E. lia.
  - intros H21 H32.
    destruct ((p3 <? p1) || (p3 =? p1) && date_ltb d3 d1) eqn:E; [| reflexivity].
    assert (N21 : ~ ((p2 <? p1) || (p2 =? p1) && date_ltb d2 d1 = true)) by congruence.
    assert (N32 : ~ ((p3 <? p2) || (p3 =? p2) && date_ltb d3 d2 = true)) by congruence.
    rewrite orb_true_iff, andb_true_iff, Z.ltb_lt, Z.eqb_eq, date_ltb_spec
      in N21, N32, E. lia.
Qed.

Lemma sort_key_shape (priority : string) (c1 c2 : Charge) :
  key_has_rank (sort_key priority c1) = key_has_rank (sort_key priority c2).
Proof.
  unfold sort_key.
  destruct (String.eqb priority "rent_first"); [reflexivity |].
  destruct (String.eqb priority "nk_first"); [reflexivity |].
  destruct (String.eqb priority "nka_first"); reflexivity.
Qed.

Lemma eligible_charges_valid (h : heap) (charges : list nat) (asof : date) :
  Forall (fun c => exists ch, h !! c = Some ch
                              /\ date_leb (due_date ch) asof = true
                              /\ 0 < open_cents ch)
    (eligible_charges h charges asof).
Proof.
  apply List.Forall_forall. intros c Hc. unfold eligible_charges in Hc.
  apply filter_In in Hc as [_ Hc].
  destruct (h !! c) as [ch |]; [| discriminate].
  apply andb_prop in Hc as [Hdue Hopen]. apply Z.ltb_lt in Hopen. eauto.
Qed.

Lemma sorted_charges_in_key_order (h : heap) (priority : string) (l : list nat) :
  Forall (fun c => exists ch, h !! c = Some ch) l ->
  StronglySorted
    (fun x y => forall cx cy, h !! x = Some cx -> h !! y = Some cy ->
                key_ltb (sort_key priority cy) (sort_key priority cx) = false)
    (sort_by (ref_key_ltb h priority) l).
Proof.
  intros Hvalid.
  destruct (sort_by_sorted (ref_key_ltb h priority)
              (fun c => exists ch, h !! c = Some ch) l) as [Hs _].
  - intros x y [cx Hx] [cy Hy]. unfold ref_key_ltb. rewrite Hx, Hy.
    apply key_ltb_asym.
  - intros x y z [cx Hx] [cy Hy] [cz Hz]. unfold ref_key_ltb.
    rewrite Hx, Hy, Hz. apply key_ltb_trans; apply sort_key_shape.
  - exact Hvalid.
  - revert Hs. apply StronglySorted_impl.
    intros x y Hxy cx cy Hx Hy. unfold ref_key_ltb in Hxy. now rewrite Hy, Hx in Hxy.
Qed.

(** X12: the list [apply_payments_fifo] returns holds exactly the charges
    of its input that are due by the as-of date and open, rearranged so
    that no charge has a sort key strictly below that of a charge in
    front of it. Under a priority that names no kind ("oldest") that is
    the order of the due dates; under "rent_first", "nk_first" and
    "nka_first" no charge of the kind named stands behind a charge of
    another kind. *)
Theorem allocation_list_in_priority_order (h : heap) (charges : list nat)
    (payments : list payment) (asof : date) (priority : string) :
  let sorted := snd (apply_payments_fifo h charges payments asof priority) in
  Permutation sorted (eligible_charges h charges asof)
  /\ StronglySorted
       (fun x y => forall cx cy, h !! x = Some cx -> h !! y = Some cy ->
                   key_ltb (sort_key priority cy) (sort_key priority cx) = false)
       sorted
  /\ (priority <> "rent_first"%string -> priority <> "nk_first"%string ->
      priority <> "nka_first"%string ->
      StronglySorted
        (fun x y => forall cx cy, h !! x = Some cx -> h !! y = Some cy ->
                    date_leb (due_date cx) (due_date cy) = true)
        sorted)
  /\ (forall k,
        priority = "rent_first"%string /\ k = "rent"%string
        \/ priority = "nk_first"%string /\ k = "nk"%string
        \/ priority = "nka_first"%string /\ k = "nka"%string ->
        StronglySorted
          (fun x y => forall cx cy, h !! x = Some cx -> h !! y = Some cy ->
                      kind cy = k -> kind cx = k)
          sorted).
Proof.
  intros sorted. unfold sorted, apply_payments_fifo. cbn [snd].
  assert (Hkey := sorted_charges_in_key_order h priority
                    (eligible_charges h charges asof)).
  assert (Hvalid : Forall (fun c => exists ch, h !! c = Some ch)
                     (eligible_charges h charges asof)).
  { generalize (eligible_charges_valid h charges asof).
    apply List.Forall_impl. intros c (ch & Hc & _). eauto. }
  specialize (Hkey Hvalid).
  split; [apply sort_by_perm |]. split; [exact Hkey |]. split.
  - intros H1 H2 H3. revert Hkey. apply StronglySorted_impl.
    intros x y Hxy cx cy Hx Hy. specialize (Hxy cx cy Hx Hy).
    unfold sort_key in Hxy.
    apply String.eqb_neq in H1, H2, H3. rewrite H1, H2, H3 in Hxy. simpl in Hxy.
    rewrite date_leb_spec.
    assert (N : ~ (date_ltb (due_date cy) (due_date cx) = true)) by congruence.
    rewrite date_ltb_spec in N. lia.
  - intros k Hk. revert Hkey. apply StronglySorted_impl.
    intros x y Hxy cx cy Hx Hy Hkind. specialize (Hxy cx cy Hx Hy).
    unfold sort_key in Hxy.
    destruct Hk as [[-> ->] | [[-> ->] | [-> ->]]]; simpl in Hxy;
      rewrite Hkind in Hxy; simpl in Hxy;
      match type of Hxy with
      | context [String.eqb (kind cx) ?s] =>
          destruct (String.eqb (kind cx) s) eqn:E;
          [now apply String.eqb_eq in E |]
      end;
      exfalso; revert Hxy;
      repeat match goal with
             | |- context [String.eqb (kind cx) ?s] =>
                 destruct (String.eqb (kind cx) s)
             end; simpl; discriminate.
Qed.

(** X13: a charge that is due after the as-of date, or is not open, is
    not in the list [apply_payments_fifo] returns, and the allocator
    leaves it exactly as it is. *)
Theorem charges_not_due_are_left_out (h : heap) (charges : list nat)
    (payments : list payment) (asof : date) (priority : string)
    (c : nat) (ch : Charge)
    (Hc : h !! c = Some ch)
    (Hout : date_leb (due_date ch) asof = false \/ open_cents ch <= 0) :
  ~ In c (snd (apply_payments_fifo h charges payments asof priority))
  /\ fst (apply_payments_fifo h charges payments asof priority) !! c = Some ch.
Proof.
  rewrite apply_payments_fifo_pooled. cbn [fst snd].
  assert (Hnot : ~ In c (sort_by (ref_key_ltb h priority)
                           (eligible_charges h charges asof))).
  { rewrite sort_by_In. unfold eligible_charges. rewrite filter_In, Hc.
    intros [_ Hin]. apply andb_prop in Hin as [Hdue Hopen].
    apply Z.ltb_lt in Hopen. destruct Hout; [congruence | lia]. }
  split; [exact Hnot |]. now rewrite walk_untouched.
Qed.

(** X14: payments dated after the as-of date have no effect, wherever
    they stand in the list: the result is the same without them. *)
Theorem late_payments_have_no_effect (h : heap) (charges : list nat)
    (before late after : list payment) (asof : date) (priority : string)
    (Hlate : Forall (fun p => date_leb (fst p) asof = false) late) :
  apply_payments_fifo h charges (before ++ late ++ after) asof priority
  = apply_payments_fifo h charges (before ++ after) asof priority.
Proof.
  unfold apply_payments_fifo. rewrite !eligible_payments_app.
  replace (eligible_payments late asof) with (@nil payment); [reflexivity |].
  unfold eligible_payments. induction Hlate as [| p late Hp _ IH]; simpl;
    [reflexivity |].
  now rewrite Hp.
Qed.

(** ** Payment-to-charge allocator: conservation *)

Lemma open_part_visit_same (h : heap) (remaining : Z) (c : nat) :
  0 < remaining ->
  open_part (fst (visit h remaining c)) c
  = open_part h c - Z.min (open_part h c) remaining.
Proof.
  intros Hrem. unfold open_part at 1.
  destruct (h !! c) as [ch |] eqn:Hc.
  - rewrite (visit_lookup_same h remaining c ch Hc Hrem).
    unfold open_part. rewrite Hc. simpl. lia.
  - rewrite visit_skip by now left. simpl. unfold open_part. rewrite Hc. lia.
Qed.

Lemma open_part_untouched (charges : list nat) (h : heap) (remaining : Z) (c : nat) :
  ~ In c charges -> open_part (fst (walk charges h remaining)) c = open_part h c.
Proof. intros Hc. unfold open_part. now rewrite walk_untouched. Qed.

(** One walk takes from the charges, together, the smaller of the
    payment and what they have open. *)
Lemma walk_total_open (charges : list nat) (h : heap) (remaining : Z) :
  List.NoDup charges -> 0 <= remaining ->
  total_open (fst (walk charges h remaining)) charges
  = Z.max 0 (total_open h charges - remaining).
Proof.
  unfold total_open. revert h remaining.
  induction charges as [| c0 rest IH]; intros h remaining Hnd Hrem;
    [simpl; lia |].
  apply List.NoDup_cons_iff in Hnd as [Hc0 Hnd].
  pose proof (open_parts_nonneg h (c0 :: rest)) as Hall.
  destruct (Z.eq_dec remaining 0) as [-> | Hne].
  - rewrite walk_nonpos by lia. simpl in *. lia.
  - rewrite walk_cons_pos by lia. cbn [map sum_Z foldr].
    rewrite open_part_untouched by assumption.
    rewrite open_part_visit_same by lia.
    change (foldr Z.add 0 (map ?f rest)) with (sum_Z (map f rest)).
    rewrite IH; [| assumption | rewrite visit_remaining by lia; lia].
    rewrite visit_remaining by lia.
    rewrite open_parts_other by assumption.
    pose proof (open_part_nonneg h c0). pose proof (open_parts_nonneg h rest).
    simpl in Hall. lia.
Qed.

(** X15: in one call over distinct charges, with positive payments, the
    open amounts of the charges served fall, in all, by the total of the
    payments dated up to the as-of date, but not below zero: nothing of
    a payment is lost while a charge is open, and no charge is overpaid. *)
Theorem allocation_conserves_money (h : heap) (charges : list nat)
    (payments : list payment) (asof : date) (priority : string)
    (Hnd : List.NoDup charges)
    (Hpos : Forall (fun p => 0 < snd p) payments) :
  let '(h', served) := apply_payments_fifo h charges payments asof priority in
  total_open h' served
  = Z.max 0 (total_open h served - eligible_total payments asof).
Proof.
  rewrite apply_payments_fifo_pooled.
  rewrite walk_total_open.
  - rewrite pooled_positive by now apply eligible_payments_positive. reflexivity.
  - now apply sorted_eligible_NoDup.
  - apply pooled_nonneg.
Qed.

Lemma open_before_step (h : heap) (charges : list nat) (i j c : nat) :
  (i < j)%nat -> charges !! i = Some c ->
  open_before h charges i + open_part h c <= open_before h charges j.
Proof.
  unfold open_before. revert i j.
  induction charges as [| c0 rest IH]; intros i j Hij Hi; [discriminate |].
  destruct j as [| j]; [lia |].
  destruct i as [| i]; simpl in Hi.
  - injection Hi as ->. simpl.
    pose proof (open_parts_nonneg h (take j rest)). lia.
  - simpl. specialize (IH i j ltac:(lia) Hi). simpl in IH. lia.
Qed.

(** X16: no charge is served out of turn. In the list the allocator
    returns (for distinct input charges), when a charge has received
    anything, every charge in front of it is settled: its open amount
    is zero. *)
Theorem charges_are_served_in_turn (h : heap) (charges : list nat)
    (payments : list payment) (asof : date) (priority : string)
    (i j ci cj : nat) (chj chj' : Charge)
    (Hnd : List.NoDup charges)
    (Hij : (i < j)%nat)
    (Hi : snd (apply_payments_fifo h charges payments asof priority) !! i = Some ci)
    (Hj : snd (apply_payments_fifo h charges payments asof priority) !! j = Some cj)
    (Hcj : h !! cj = Some chj)
    (Hcj' : fst (apply_payments_fifo h charges payments asof priority) !! cj
            = Some chj')
    (Hpaid : open_cents chj' < open_cents chj) :
  exists chi',
    fst (apply_payments_fifo h charges payments asof priority) !! ci = Some chi'
    /\ open_cents chi' = 0.
Proof.
  rewrite apply_payments_fifo_pooled in *. cbn [fst snd] in *.
  set (sorted := sort_by (ref_key_ltb h priority) (eligible_charges h charges asof)) in *.
  set (pool := pooled (eligible_payments payments asof)) in *.
  assert (Hsnd : List.NoDup sorted) by now apply sorted_eligible_NoDup.
  assert (Hvalid : exists chi, h !! ci = Some chi /\ 0 < open_cents chi).
  { pose proof (eligible_charges_valid h charges asof) as Hv.
    rewrite List.Forall_forall in Hv.
    destruct (Hv ci) as (chi & Hci & _ & Hopen); [| eauto].
    apply (sort_by_In (ref_key_ltb h priority)).
    apply list_elem_of_In. eapply list_elem_of_lookup_2. exact Hi. }
  destruct Hvalid as (chi & Hci & Hopen).
  rewrite (walk_closed_form sorted h pool j cj chj Hsnd Hj Hcj) in Hcj'.
  injection Hcj' as <-. simpl in Hpaid.
  pose proof (open_before_step h sorted i j ci Hij Hi) as Hstep.
  unfold open_part in Hstep at 1. rewrite Hci in Hstep.
  rewrite (walk_closed_form sorted h pool i ci chi Hsnd Hi Hci).
  eexists. split; [reflexivity |]. simpl. lia.
Qed.

(** ** Calendar *)

Lemma monthrange_days_spec (y m : Z) :
  1 <= m <= 12 -> exists dim, monthrange_days y m = Some dim /\ 28 <= dim <= 31.
Proof.
  intros Hm. unfold monthrange_days.
  replace ((1 <=? m) && (m <=? 12)) with true
    by (symmetry; apply andb_true_iff; split; apply Z.leb_le; lia).
  eexists. split; [reflexivity |].
  destruct (m =? 2); [destruct (is_leap y); lia |].
  destruct ((m =? 4) || (m =? 6) || (m =? 9) || (m =? 11)); lia.
Qed.

Lemma monthrange_days_month (y m dim : Z) :
  monthrange_days y m = Some dim -> 1 <= m <= 12 /\ 28 <= dim <= 31.
Proof.
  unfold monthrange_days.
  destruct ((1 <=? m) && (m <=? 12)) eqn:Hm; [| discriminate].
  bool_to_prop. intros [= <-]. split; [lia |].
  destruct (m =? 2); [destruct (is_leap y); lia |].
  destruct ((m =? 4) || (m =? 6) || (m =? 9) || (m =? 11)); lia.
Qed.

Lemma new_date_spec (y m d : Z) (x : date) :
  new_date y m d = Some x
  <-> x = mkDate y m d /\ 1 <= y <= 9999
      /\ exists dim, monthrange_days y m = Some dim /\ 1 <= d <= dim.
Proof.
  unfold new_date.
  destruct ((1 <=? y) && (y <=? 9999)) eqn:Hy.
  - bool_to_prop. destruct (monthrange_days y m) as [dim |].
    + destruct ((1 <=? d) && (d <=? dim)) eqn:Hd.
      * bool_to_prop. split.
        -- intros [= <-]. split; [reflexivity |]. split; [lia |]. exists dim. split; [reflexivity | lia].
        -- intros (-> & _). reflexivity.
      * split; [discriminate |]. intros (_ & _ & dim' & [= <-] & Hr).
        apply andb_false_iff in Hd as [Hd | Hd]; bool_to_prop; lia.
    + split; [discriminate |]. intros (_ & _ & dim' & Hdim & _). discriminate.
  - split; [discriminate |]. intros (_ & Hr & _).
    apply andb_false_iff in Hy as [Hy | Hy]; bool_to_prop; lia.
Qed.

(** X17: [add_months] on a valid date moves the month by [n], keeps the
    day where the target month has it and takes the last day of that
    month where it has not, and yields a valid date; it raises exactly
    when the target month lies outside the years 1 to 9999. *)
Theorem add_months_moves_the_month (d : date) (n : Z)
    (Hvalid : valid_date d) :
  match add_months d n with
  | Some d' =>
      valid_date d'
      /\ month_index (year d', month d') = month_index (year d, month d) + n
      /\ exists last_day,
           monthrange_days (year d') (month d') = Some last_day
           /\ day d' = Z.min (day d) last_day
  | None =>
      month_index (year d, month d) + n < 12
      \/ 120000 <= month_index (year d, month d) + n
  end.
Proof.
  apply new_date_spec in Hvalid as (_ & Hy & dim & Hdim & Hd).
  apply monthrange_days_month in Hdim as [Hm Hdimr].
  unfold add_months, month_index. cbn [fst snd].
  pose proof (Z.div_mod (month d - 1 + n) 12 ltac:(lia)) as Hdm.
  pose proof (Z.mod_pos_bound (month d - 1 + n) 12 ltac:(lia)) as Hmod.
  set (q := (month d - 1 + n) / 12) in *.
  set (r := (month d - 1 + n) mod 12) in *.
  destruct (monthrange_days_spec (year d + q) (r + 1) ltac:(lia))
    as (last_day & Hlast & Hlr).
  rewrite Hlast.
  destruct (new_date (year d + q) (r + 1) (Z.min (day d) last_day)) as [d' |] eqn:Hnew.
  - pose proof Hnew as Hnew'.
    apply new_date_spec in Hnew as (-> & Hy' & _). cbn [year month day].
    split; [exact Hnew' |]. split; [lia |]. exists last_day. auto.
  - destruct (Z_lt_le_dec (year d + q) 1) as [Hlo | Hlo]; [left; lia |].
    destruct (Z_lt_le_dec 9999 (year d + q)) as [Hhi | Hhi]; [right; lia |].
    exfalso.
    assert (Hsome : new_date (year d + q) (r + 1) (Z.min (day d) last_day)
                    = Some (mkDate (year d + q) (r + 1) (Z.min (day d) last_day))).
    { apply new_date_spec. split; [reflexivity |]. split; [lia |].
      exists last_day. split; [exact Hlast | lia]. }
    congruence.
Qed.

Lemma first_of_month_valid (yyyymm : month_id) :
  valid_month yyyymm ->
  new_date (fst yyyymm) (snd yyyymm) 1 = Some (mkDate (fst yyyymm) (snd yyyymm) 1).
Proof.
  intros [Hy Hm]. apply new_date_spec. split; [reflexivity |]. split; [exact Hy |].
  destruct (monthrange_days_spec (fst yyyymm) (snd yyyymm) Hm) as (dim & Hdim & Hr).
  exists dim. split; [exact Hdim | lia].
Qed.

Lemma month_of_index_index (yyyymm : month_id) :
  1 <= snd yyyymm <= 12 -> month_of_index (month_index yyyymm) = yyyymm.
Proof.
  destruct yyyymm as [y m]. unfold month_of_index, month_index. cbn [fst snd].
  intros Hm.
  pose proof (Z.div_mod (12 * y + (m - 1)) 12 ltac:(lia)) as Hdm.
  pose proof (Z.mod_pos_bound (12 * y + (m - 1)) 12 ltac:(lia)) as Hmod.
  f_equal; lia.
Qed.

(** [add_months] on the first of a month. *)
Lemma first_of_month_shifted (cur : month_id) (n : Z) :
  valid_month cur ->
  match add_months (mkDate (fst cur) (snd cur) 1) n with
  | Some d' =>
      valid_month (year d', month d')
      /\ day d' = 1
      /\ month_index (year d', month d') = month_index cur + n
  | None => month_index cur + n < 12 \/ 120000 <= month_index cur + n
  end.
Proof.
  intros [Hy Hm]. unfold add_months, month_index, valid_month.
  cbn [fst snd year month day].
  pose proof (Z.div_mod (snd cur - 1 + n) 12 ltac:(lia)) as Hdm.
  pose proof (Z.mod_pos_bound (snd cur - 1 + n) 12 ltac:(lia)) as Hmod.
  set (q := (snd cur - 1 + n) / 12) in *.
  set (r := (snd cur - 1 + n) mod 12) in *.
  destruct (monthrange_days_spec (fst cur + q) (r + 1) ltac:(lia))
    as (last_day & Hlast & Hlr).
  rewrite Hlast.
  destruct (new_date (fst cur + q) (r + 1) (Z.min 1 last_day)) as [d' |] eqn:Hnew.
  - apply new_date_spec in Hnew as (-> & Hy' & _). cbn [year month day fst snd].
    repeat split; lia.
  - destruct (Z_lt_le_dec (fst cur + q) 1) as [Hlo | Hlo]; [left; lia |].
    destruct (Z_lt_le_dec 9999 (fst cur + q)) as [Hhi | Hhi]; [right; lia |].
    exfalso.
    assert (Hsome : new_date (fst cur + q) (r + 1) (Z.min 1 last_day)
                    = Some (mkDate (fst cur + q) (r + 1) (Z.min 1 last_day))).
    { apply new_date_spec. split; [reflexivity |]. split; [lia |].
      exists last_day. split; [exact Hlast | lia]. }
    congruence.
Qed.

(** The months between two valid months. *)
Lemma months_between_shape (m1 m2 : month_id) :
  valid_month m1 -> valid_month m2 ->
  List.length (months_between m1 m2)
  = Z.to_nat (month_index m2 - month_index m1 + 1)
  /\ (month_index m1 <= month_index m2 ->
      head (months_between m1 m2) = Some m1
      /\ last (months_between m1 m2) = Some m2).
Proof.
  intros Hstart Hend. split.
  - unfold months_between. now rewrite length_map, length_seq.
  - intros Hle. unfold months_between.
    set (n := Z.to_nat (month_index m2 - month_index m1 + 1)).
    assert (Hn : n = S (Z.to_nat (month_index m2 - month_index m1)))
      by (unfold n; lia).
    rewrite Hn. split.
    + cbn [seq map head]. f_equal. rewrite Z.add_0_r.
      apply month_of_index_index. apply Hstart.
    + rewrite seq_S, map_app. cbn [map]. rewrite last_snoc. f_equal.
      replace (month_index m1
               + Z.of_nat (0 + Z.to_nat (month_index m2 - month_index m1)))
        with (month_index m2) by lia.
      apply month_of_index_index. apply Hend.
Qed.

Lemma iter_months_loop_spec (k : nat) :
  forall (fuel : nat) (cur end_ : month_id),
    valid_month cur -> valid_month end_ ->
    k = Z.to_nat (month_index end_ - month_index cur + 1) ->
    (k < fuel)%nat ->
    iter_months_loop fuel (mkDate (fst cur) (snd cur) 1)
      (mkDate (fst end_) (snd end_) 1)
    = Some (months_between cur end_,
            (month_index cur <=? month_index end_)
            && (month_index end_ =? 119999)).
Proof.
  induction k as [| k IH]; intros fuel cur end_ Hcur Hend Hk Hfuel;
    (destruct fuel as [| fuel]; [lia |]); cbn [iter_months_loop];
    destruct Hcur as [Hcy Hcm]; destruct Hend as [Hey Hem];
    unfold month_index in *; unfold months_between, month_index.
  - assert (Hgt : 12 * fst end_ + (snd end_ - 1) < 12 * fst cur + (snd cur - 1)) by lia.
    replace (date_leb _ _) with false.
    + rewrite <- Hk. simpl.
      now replace (12 * fst cur + (snd cur - 1) <=? 12 * fst end_ + (snd end_ - 1))
        with false by (symmetry; apply Z.leb_gt; lia).
    + symmetry. apply not_true_is_false. rewrite date_leb_spec. simpl. lia.
  - assert (Hle : 12 * fst cur + (snd cur - 1) <= 12 * fst end_ + (snd end_ - 1)) by lia.
    replace (date_leb _ _) with true
      by (symmetry; rewrite date_leb_spec; simpl; lia).
    rewrite <- Hk.
    replace (12 * fst cur + (snd cur - 1) <=? 12 * fst end_ + (snd end_ - 1))
      with true by (symmetry; apply Z.leb_le; lia).
    pose proof (first_of_month_shifted cur 1 (conj Hcy Hcm)) as Hadd.
    destruct (add_months (mkDate (fst cur) (snd cur) 1) 1) as [next |] eqn:Hnext.
    + destruct Hadd as ([Hny Hnm] & Hday & Hidx).
      unfold month_index in Hidx. cbn [fst snd year month day] in *.
      assert (Hnext_eq : next = mkDate (year next) (month next) 1)
        by (destruct next; cbn in *; f_equal; lia).
      rewrite Hnext_eq.
      assert (IHn := IH fuel (year next, month next) end_).
      unfold valid_month in IHn. cbn [fst snd] in IHn.
      rewrite IHn by (try split; lia).
      f_equal. f_equal.
      * cbn [seq map]. f_equal.
        -- rewrite Z.add_0_r. symmetry.
           apply (month_of_index_index (fst cur, snd cur)). exact Hcm.
        -- unfold months_between, month_index. cbn [fst snd].
           replace (Z.to_nat (12 * fst end_ + (snd end_ - 1)
                              - (12 * year next + (month next - 1)) + 1)) with k by lia.
           rewrite <- seq_shift, map_map. apply map_ext. intros i.
           f_equal. lia.
      * destruct (12 * fst end_ + (snd end_ - 1) =? 119999) eqn:E;
          rewrite ?andb_true_r, ?andb_false_r; simpl; [| reflexivity].
        bool_to_prop. apply Z.leb_le. lia.
    + unfold month_index in Hadd. cbn [fst snd year month] in Hadd.
      assert (Hcur_last : 12 * fst cur + (snd cur - 1) = 119999) by lia.
      assert (Hend_last : 12 * fst end_ + (snd end_ - 1) = 119999) by lia.
      rewrite Hend_last, Z.eqb_refl. f_equal. f_equal.
      assert (k = 0%nat) as -> by lia.
      cbn [seq map]. f_equal. rewrite Z.add_0_r. symmetry.
      apply (month_of_index_index (fst cur, snd cur)). exact Hcm.
Qed.

(** X18: for valid months, [iter_months] yields the months from the
    first to the last, both included, each once and in order, and
    nothing when the first lies after the last; it never runs out of
    fuel. Only when the last month is December 9999 does it end by
    raising, after the last month has been yielded. *)
Theorem iter_months_yields_each_month (start_yyyymm end_yyyymm : month_id)
    (Hstart : valid_month start_yyyymm) (Hend : valid_month end_yyyymm) :
  iter_months start_yyyymm end_yyyymm
  = Some (months_between start_yyyymm end_yyyymm,
          (month_index start_yyyymm <=? month_index end_yyyymm)
          && (month_index end_yyyymm =? 119999))
  /\ List.length (months_between start_yyyymm end_yyyymm)
     = Z.to_nat (month_index end_yyyymm - month_index start_yyyymm + 1)
  /\ (month_index start_yyyymm <= month_index end_yyyymm ->
      head (months_between start_yyyymm end_yyyymm) = Some start_yyyymm
      /\ last (months_between start_yyyymm end_yyyymm) = Some end_yyyymm).
Proof.
  destruct (months_between_shape _ _ Hstart Hend) as [Hlen Hends].
  split; [| split; [exact Hlen | exact Hends]].
  unfold iter_months.
  rewrite (first_of_month_valid _ Hstart), (first_of_month_valid _ Hend).
  apply (iter_months_loop_spec _ _ _ _ Hstart Hend eq_refl). lia.
Qed.

(** X29: without [--from-month], the aging covers the twelve months
    that end with the month of the as-of date, in order. The command
    raises when that period would begin before January of the year 1,
    and, after the twelve months, when the as-of date lies in December
    9999. *)
Theorem default_aging_period (asof : date) (Hvalid : valid_date asof) :
  let end_month := (year asof, month asof) in
  let start := month_index end_month - 11 in
  (start < 12 -> aging_months asof None = None)
  /\ (12 <= start ->
      aging_months asof None
      = Some (months_between (month_of_index start) end_month,
              month_index end_month =? 119999)
      /\ List.length (months_between (month_of_index start) end_month) = 12%nat
      /\ head (months_between (month_of_index start) end_month)
         = Some (month_of_index start)
      /\ last (months_between (month_of_index start) end_month)
         = Some end_month).
Proof.
  intros end_month start.
  apply new_date_spec in Hvalid as (_ & Hy & dim & Hdim & _).
  apply monthrange_days_month in Hdim as [Hm _].
  assert (Hend : valid_month end_month) by (split; assumption).
  pose proof (first_of_month_valid end_month Hend) as Hfirst.
  pose proof (first_of_month_shifted end_month (-11) Hend) as Hshift.
  unfold aging_months. fold end_month.
  change (year asof) with (fst end_month). change (month asof) with (snd end_month).
  rewrite Hfirst.
  destruct (add_months (mkDate (fst end_month) (snd end_month) 1) (-11))
    as [tmp |] eqn:Htmp.
  - destruct Hshift as (Hvalid_tmp & _ & Hidx).
    assert (Hstart : (year tmp, month tmp) = month_of_index start).
    { rewrite <- (month_of_index_index (year tmp, month tmp)) by apply Hvalid_tmp.
      f_equal. unfold start. lia. }
    assert (Hge : 12 <= start).
    { unfold start. destruct Hvalid_tmp as [Hty Htm].
      unfold month_index in *. cbn [fst snd] in *. lia. }
    split; [lia |]. intros _. rewrite <- Hstart.
    destruct (months_between_shape _ _ Hvalid_tmp Hend) as [Hlen Hends].
    split; [| split; [| apply Hends; lia]].
    + unfold iter_months.
      rewrite (first_of_month_valid _ Hvalid_tmp), Hfirst.
      rewrite (iter_months_loop_spec _ _ _ _ Hvalid_tmp Hend eq_refl) by lia.
      do 2 f_equal.
      replace (month_index (year tmp, month tmp) <=? month_index end_month)
        with true by (symmetry; apply Z.leb_le; lia).
      reflexivity.
    + rewrite Hlen. lia.
  - split; [reflexivity |]. intros Hge. exfalso.
    unfold start in Hge. destruct Hend as [Hey Hem].
    unfold month_index in *. cbn [fst snd] in *. lia.
Qed.

(** ** Charges of a month *)

Lemma month_bounds_spec (yyyymm : month_id) (first last : date) :
  month_bounds yyyymm = Some (first, last) ->
  valid_month yyyymm
  /\ exists dim,
       monthrange_days (fst yyyymm) (snd yyyymm) = Some dim
       /\ first = mkDate (fst yyyymm) (snd yyyymm) 1
       /\ last = mkDate (fst yyyymm) (snd yyyymm) dim.
Proof.
  destruct yyyymm as [y m]. unfold month_bounds. cbn [fst snd].
  destruct (new_date y m 1) as [f |] eqn:Hf; [| discriminate].
  destruct (monthrange_days y m) as [dim |] eqn:Hdim; [| discriminate].
  destruct (new_date y m dim) as [l |] eqn:Hl; [| discriminate].
  intros [= <- <-].
  apply new_date_spec in Hf as (-> & Hy & _).
  apply new_date_spec in Hl as (-> & _ & _).
  pose proof (monthrange_days_month _ _ _ Hdim) as [Hm _].
  split; [split; assumption |]. exists dim. auto.
Qed.

Lemma month_bounds_valid (yyyymm : month_id) :
  valid_month yyyymm -> exists first last, month_bounds yyyymm = Some (first, last).
Proof.
  destruct yyyymm as [y m]. intros [Hy Hm]. cbn [fst snd] in *.
  unfold month_bounds.
  destruct (monthrange_days_spec y m Hm) as (dim & Hdim & Hr).
  assert (H1 : new_date y m 1 = Some (mkDate y m 1)).
  { apply new_date_spec. split; [reflexivity |]. split; [exact Hy |].
    exists dim. split; [exact Hdim | lia]. }
  assert (H2 : new_date y m dim = Some (mkDate y m dim)).
  { apply new_date_spec. split; [reflexivity |]. split; [exact Hy |].
    exists dim. split; [exact Hdim | lia]. }
  rewrite H1, Hdim, H2. eauto.
Qed.

Lemma make_due_date_spec (yyyymm : month_id) (due_day : Z) (first last d : date) :
  month_bounds yyyymm = Some (first, last) ->
  make_due_date yyyymm due_day = Some d ->
  1 <= due_day
  /\ d = mkDate (fst yyyymm) (snd yyyymm) (Z.min due_day (day last))
  /\ date_leb first d = true /\ date_leb d last = true.
Proof.
  intros Hb Hd.
  apply month_bounds_spec in Hb as (_ & dim & Hdim & -> & ->).
  destruct yyyymm as [y m]. unfold make_due_date in Hd. cbn [fst snd] in *.
  rewrite Hdim in Hd.
  apply new_date_spec in Hd as (-> & _ & dim' & Hdim' & Hr).
  assert (dim' = dim) as -> by congruence.
  split; [lia |]. split; [reflexivity |].
  rewrite !date_leb_spec. simpl. lia.
Qed.

Lemma make_due_date_raises (yyyymm : month_id) (due_day : Z) (first last : date) :
  month_bounds yyyymm = Some (first, last) ->
  (make_due_date yyyymm due_day = None <-> due_day < 1).
Proof.
  intros Hb.
  apply month_bounds_spec in Hb as ([Hy Hm] & dim & Hdim & _ & _).
  pose proof (monthrange_days_month _ _ _ Hdim) as [_ Hr].
  destruct yyyymm as [y m]. unfold make_due_date. cbn [fst snd] in *.
  rewrite Hdim.
  destruct (new_date y m (Z.min due_day dim)) as [d |] eqn:Hd.
  - apply new_date_spec in Hd as (_ & _ & dim' & Hdim' & Hr').
    assert (dim' = dim) as -> by congruence.
    split; [discriminate | lia].
  - split; [| reflexivity]. intros _.
    destruct (Z_lt_le_dec due_day 1) as [Hlt | Hge]; [exact Hlt |].
    exfalso.
    assert (new_date y m (Z.min due_day dim) = Some (mkDate y m (Z.min due_day dim))).
    { apply new_date_spec. split; [reflexivity |]. split; [exact Hy |].
      exists dim. split; [exact Hdim | lia]. }
    congruence.
Qed.

Lemma build_charges_loop_spec (month : month_id) (ls : list lease_row)
    (acc cs : list Charge) :
  build_charges_loop month ls acc = Some cs ->
  forall c,
    In c cs
    <-> In c acc
        \/ exists l lcs, In l ls /\ lease_charges month l = Some lcs /\ In c lcs.
Proof.
  revert acc. induction ls as [| l ls IH]; intros acc; simpl.
  - intros [= <-] c. split; [auto | intros [Hc | (l & lcs & [] & _)]; exact Hc].
  - destruct (lease_charges month l) as [lcs |] eqn:Hl; [| discriminate].
    intros Hloop c. rewrite (IH _ Hloop c), in_app_iff. split.
    + intros [[Hc | Hc] | (l' & lcs' & Hin & Hl' & Hc)].
      * now left.
      * right. exists l, lcs. auto.
      * right. exists l', lcs'. auto.
    + intros [Hc | (l' & lcs' & [<- | Hin] & Hl' & Hc)].
      * left. now left.
      * left. right. congruence.
      * right. exists l', lcs'. auto.
Qed.

Lemma build_charges_loop_raises (month : month_id) (ls : list lease_row)
    (acc : list Charge) :
  build_charges_loop month ls acc = None
  <-> exists l, In l ls /\ lease_charges month l = None.
Proof.
  revert acc. induction ls as [| l ls IH]; intros acc; simpl.
  - split; [discriminate | intros (l & [] & _)].
  - destruct (lease_charges month l) as [lcs |] eqn:Hl.
    + rewrite IH. split.
      * intros (l' & Hin & Hl'). exists l'. auto.
      * intros (l' & [<- | Hin] & Hl'); [congruence |]. exists l'. auto.
    + split; [| reflexivity]. intros _. exists l. auto.
Qed.

(** X19: the charges [build_monthly_charges] builds for a month are,
    for every lease active at some point of the month (begun by its
    last day, and not ended before its first), a rent charge if the
    rent is not zero and an operating-cost charge if the advance is not
    zero, and nothing else. Each is due within the month, on the due
    day of the lease or on the last day of the month if that comes
    first, and starts with its open amount equal to its amount. *)
Theorem monthly_charges_follow_the_leases (leases : list lease_row)
    (month : month_id) (cs : list Charge)
    (Hbuilt : build_monthly_charges leases month = Some cs) :
  exists first last,
    month_bounds month = Some (first, last)
    /\ (forall c,
          In c cs
          <-> exists l d,
                In l leases /\ lease_active first last l = true
                /\ make_due_date month (l_due_day l) = Some d
                /\ (c = Charge_init (l_tenant_id l) "rent" d (l_rent_cents l)
                    /\ l_rent_cents l <> 0
                    \/ c = Charge_init (l_tenant_id l) "nk" d (l_nk_cents l)
                       /\ l_nk_cents l <> 0))
    /\ Forall (fun c =>
                 open_cents c = amount_cents c
                 /\ amount_cents c <> 0
                 /\ (year (due_date c), month_of_date c) = month
                 /\ date_leb first (due_date c) = true
                 /\ date_leb (due_date c) last = true
                 /\ exists l, In l leases
                              /\ day (due_date c) = Z.min (l_due_day l) (day last))
         cs.
Proof.
  unfold build_monthly_charges, active_leases_in_month in Hbuilt.
  destruct (month_bounds month) as [[first last] |] eqn:Hb; [| discriminate].
  exists first, last. split; [reflexivity |].
  pose proof (build_charges_loop_spec _ _ _ _ Hbuilt) as Hspec.
  assert (Hchar : forall c,
            In c cs
            <-> exists l d,
                  In l leases /\ lease_active first last l = true
                  /\ make_due_date month (l_due_day l) = Some d
                  /\ (c = Charge_init (l_tenant_id l) "rent" d (l_rent_cents l)
                      /\ l_rent_cents l <> 0
                      \/ c = Charge_init (l_tenant_id l) "nk" d (l_nk_cents l)
                         /\ l_nk_cents l <> 0)).
  { intros c. rewrite Hspec. split.
    - intros [[] | (l & lcs & Hin & Hl & Hc)].
      apply sort_by_In, filter_In in Hin as [Hin Hact].
      unfold lease_charges in Hl.
      destruct (make_due_date month (l_due_day l)) as [d |] eqn:Hd; [| discriminate].
      injection Hl as <-. exists l, d. repeat split; auto.
      apply in_app_iff in Hc as [Hc | Hc].
      + destruct (Z.eqb_spec (l_rent_cents l) 0); [destruct Hc |].
        destruct Hc as [<- | []]. now left.
      + destruct (Z.eqb_spec (l_nk_cents l) 0); [destruct Hc |].
        destruct Hc as [<- | []]. now right.
    - intros (l & d & Hin & Hact & Hd & Hc). right.
      exists l. eexists. split; [| split].
      + apply sort_by_In, filter_In. auto.
      + unfold lease_charges. rewrite Hd. reflexivity.
      + apply in_app_iff.
        destruct Hc as [[-> Hne] | [-> Hne]]; [left | right];
          apply Z.eqb_neq in Hne; rewrite Hne; now left. }
  split; [exact Hchar |].
  apply List.Forall_forall. intros c Hc.
  apply Hchar in Hc as (l & d & Hin & _ & Hd & Hc).
  destruct (make_due_date_spec _ _ _ _ _ Hb Hd) as (_ & Hdeq & Hf & Hl).
  assert (Hfields : due_date c = d /\ open_cents c = amount_cents c
                    /\ amount_cents c <> 0).
  { destruct Hc as [[-> Hne] | [-> Hne]]; simpl; auto. }
  unfold month_of_date. destruct Hfields as (-> & Hopen & Hne).
  repeat split; auto.
  - rewrite Hdeq. simpl. now destruct month.
  - exists l. split; [exact Hin |]. rewrite Hdeq. reflexivity.
Qed.

(** X20: [build_monthly_charges] raises exactly when the month is not a
    valid one, or when some lease active in the month, of whatever
    tenant, has a due day below 1. *)
Theorem monthly_charges_raise_on_bad_due_day (leases : list lease_row)
    (month : month_id) :
  build_monthly_charges leases month = None
  <-> month_bounds month = None
      \/ exists first last l,
           month_bounds month = Some (first, last)
           /\ In l leases /\ lease_active first last l = true
           /\ l_due_day l < 1.
Proof.
  unfold build_monthly_charges, active_leases_in_month.
  destruct (month_bounds month) as [[first last] |] eqn:Hb.
  - rewrite build_charges_loop_raises. split.
    + intros (l & Hin & Hl). right. exists first, last, l.
      apply sort_by_In, filter_In in Hin as [Hin Hact].
      repeat split; auto.
      apply (make_due_date_raises month (l_due_day l) first last Hb).
      unfold lease_charges in Hl.
      now destruct (make_due_date month (l_due_day l)).
    + intros [Hn | (f & la & l & Hb' & Hin & Hact & Hday)]; [discriminate |].
      injection Hb' as <- <-. exists l. split.
      * apply sort_by_In, filter_In. auto.
      * unfold lease_charges.
        apply (make_due_date_raises month (l_due_day l) first last Hb) in Hday.
        now rewrite Hday.
  - split; [now left | reflexivity].
Qed.

(** ** Aging buckets *)

Lemma bucket_add_four (k : string) (v b1 b2 b3 b4 : Z) :
  In k ["0-30"; "31-60"; "61-90"; "90+"]%string ->
  bucket_add k v
    [("0-30"%string, b1); ("31-60"%string, b2); ("61-90"%string, b3);
     ("90+"%string, b4)]
  = Some [("0-30"%string, b1 + if String.eqb k "0-30" then v else 0);
          ("31-60"%string, b2 + if String.eqb k "31-60" then v else 0);
          ("61-90"%string, b3 + if String.eqb k "61-90" then v else 0);
          ("90+"%string, b4 + if String.eqb k "90+" then v else 0)].
Proof.
  intros [<- | [<- | [<- | [<- | []]]]]; simpl; rewrite !Z.add_0_r; reflexivity.
Qed.

Lemma bucket_for_key (days_overdue : Z) :
  In (bucket_for days_overdue) ["0-30"; "31-60"; "61-90"; "90+"]%string.
Proof.
  unfold bucket_for.
  destruct (days_overdue <=? 30); [simpl; auto |].
  destruct (days_overdue <=? 60); [simpl; auto |].
  destruct (days_overdue <=? 90); simpl; auto.
Qed.

Lemma bucket_share_cons (h : heap) (asof : date) (c : nat) (rest : list nat)
    (k : string) :
  bucket_share h asof (c :: rest) k
  = (if in_bucket h asof k c then open_part h c else 0)
    + bucket_share h asof rest k.
Proof.
  unfold bucket_share. simpl. destruct (in_bucket h asof k c); reflexivity.
Qed.

Lemma bucket_loop_shares (h : heap) (asof : date) (charges : list nat)
    (b1 b2 b3 b4 total : Z) :
  bucket_loop h asof charges
    [("0-30"%string, b1); ("31-60"%string, b2); ("61-90"%string, b3);
     ("90+"%string, b4)] total
  = Some ([("0-30"%string, b1 + bucket_share h asof charges "0-30");
           ("31-60"%string, b2 + bucket_share h asof charges "31-60");
           ("61-90"%string, b3 + bucket_share h asof charges "61-90");
           ("90+"%string, b4 + bucket_share h asof charges "90+")],
          total + total_open h charges).
Proof.
  revert b1 b2 b3 b4 total.
  induction charges as [| c rest IH]; intros b1 b2 b3 b4 total.
  - unfold bucket_share, total_open. simpl. rewrite !Z.add_0_r. reflexivity.
  - assert (Hsum : total_open h (c :: rest) = open_part h c + total_open h rest)
      by reflexivity.
    rewrite Hsum, !bucket_share_cons. clear Hsum. cbn [bucket_loop].
    unfold in_bucket, open_part. destruct (h !! c) as [ch |].
    + destruct (open_cents ch <=? 0) eqn:Ho; bool_to_prop.
      * rewrite IH. replace (Z.max 0 (open_cents ch)) with 0 by lia.
        repeat match goal with |- context [if ?b then 0 else 0] =>
                 replace (if b then 0 else 0) with 0 by now destruct b end.
        reflexivity.
      * rewrite bucket_add_four by apply bucket_for_key. rewrite IH.
        replace (Z.max 0 (open_cents ch)) with (open_cents ch) by lia.
        rewrite !Z.add_assoc. reflexivity.
    + rewrite IH. reflexivity.
Qed.

Lemma bucket_shares_total (h : heap) (asof : date) (charges : list nat) :
  bucket_share h asof charges "0-30" + bucket_share h asof charges "31-60"
  + bucket_share h asof charges "61-90" + bucket_share h asof charges "90+"
  = total_open h charges.
Proof.
  induction charges as [| c rest IH]; [reflexivity |].
  assert (Hsum : total_open h (c :: rest) = open_part h c + total_open h rest)
    by reflexivity.
  rewrite Hsum, !bucket_share_cons, <- IH. clear Hsum IH.
  unfold in_bucket, open_part. destruct (h !! c) as [ch |]; [| lia].
  destruct (bucket_for_key (toordinal asof - toordinal (due_date ch)))
    as [<- | [<- | [<- | [<- | []]]]]; simpl; lia.
Qed.

Lemma bucket_share_nonneg (h : heap) (asof : date) (charges : list nat) (k : string) :
  0 <= bucket_share h asof charges k.
Proof.
  induction charges as [| c rest IH]; [unfold bucket_share; simpl; lia |].
  rewrite bucket_share_cons. unfold open_part.
  destruct (in_bucket h asof k c); [| lia].
  destruct (h !! c); lia.
Qed.

(** X21: the bucket loop of the aging never meets a missing key. For
    every input it ends with the four buckets; each holds what the
    charges the allocator returned still have open among those whose
    days overdue fall into its range, none is negative, and the
    buckets add up to the total reported. *)
Theorem aging_buckets_add_up (h : heap) (charges : list nat)
    (payments : list payment) (asof : date) (priority : string) :
  let h' := fst (apply_payments_fifo h charges payments asof priority) in
  let served := snd (apply_payments_fifo h charges payments asof priority) in
  exists b1 b2 b3 b4,
    tenant_aging h charges payments asof priority
    = Some ([("0-30"%string, b1); ("31-60"%string, b2); ("61-90"%string, b3);
             ("90+"%string, b4)],
            b1 + b2 + b3 + b4)
    /\ b1 = bucket_share h' asof served "0-30"
    /\ b2 = bucket_share h' asof served "31-60"
    /\ b3 = bucket_share h' asof served "61-90"
    /\ b4 = bucket_share h' asof served "90+"
    /\ 0 <= b1 /\ 0 <= b2 /\ 0 <= b3 /\ 0 <= b4
    /\ b1 + b2 + b3 + b4 = total_open h' served.
Proof.
  unfold tenant_aging.
  destruct (apply_payments_fifo h charges payments asof priority) as [h' served].
  cbn [fst snd]. unfold empty_buckets.
  rewrite bucket_loop_shares. simpl Z.add.
  do 4 eexists. split.
  - rewrite bucket_shares_total. reflexivity.
  - repeat split; try apply bucket_share_nonneg.
    apply bucket_shares_total.
Qed.

(** ** The aging of one tenant *)










Section TenantAging.
Variables (leases : list lease_row) (cx : db) (tid : string).
Variables (start_month end_month : month_id) (asof : date).
Variables (rent_accounts nk_accounts nka_accounts : list string).
Variable priority : string.


End TenantAging.


(** ** Rent check *)

Lemma status_component_values (tol_c paid due : Z) :
  In (status_component tol_c paid due) ["OK"; "Teil"; "Über"; "Fehlt"]%string.
Proof.
  unfold status_component.
  destruct (Z.abs (paid - due) <=? tol_c); [simpl; auto |].
  destruct ((0 <? paid) && (paid <? due - tol_c)); [simpl; auto |].
  destruct (due + tol_c <? paid); simpl; auto.
Qed.

(** X22: with a tolerance that is not negative, the status of one
    component is "OK" when the amount paid is within the tolerance of
    the amount due, "Teil" when it is positive and below that range,
    "Über" when it is above the range, and "Fehlt" when it is below the
    range and not positive. *)
Theorem status_component_ranges (tol_c paid due : Z) (Htol : 0 <= tol_c) :
  (status_component tol_c paid due = "OK"%string
   <-> due - tol_c <= paid <= due + tol_c)
  /\ (status_component tol_c paid due = "Teil"%string
      <-> 0 < paid < due - tol_c)
  /\ (status_component tol_c paid due = "Über"%string
      <-> due + tol_c < paid)
  /\ (status_component tol_c paid due = "Fehlt"%string
      <-> paid <= 0 /\ paid < due - tol_c).
Proof.
  unfold status_component.
  destruct (Z.abs (paid - due) <=? tol_c) eqn:Hok;
    [| destruct ((0 <? paid) && (paid <? due - tol_c)) eqn:Hpart;
       [| destruct (due + tol_c <? paid) eqn:Hover]];
    bool_to_prop;
    repeat split; intros; try discriminate; try lia.
Qed.

(** X23: the overall status of a lease, from the statuses of rent and
    operating costs: "OK" when both are "OK", "Fehlt" when both are
    "Fehlt", "Teil" when one of them is "Teil" or one is "OK" and the
    other "Fehlt", and "Über" in every other case, that is when one of
    them is "Über" and neither is "Teil"; so an overpayment of one
    component beside a missing payment of the other reads "Über". *)
Theorem overall_status_table (tol_c paid_rent rent_c paid_nk nk_c : Z) :
  let st_rent := status_component tol_c paid_rent rent_c in
  let st_nk := status_component tol_c paid_nk nk_c in
  (overall st_rent st_nk = "OK"%string
   <-> st_rent = "OK"%string /\ st_nk = "OK"%string)
  /\ (overall st_rent st_nk = "Fehlt"%string
      <-> st_rent = "Fehlt"%string /\ st_nk = "Fehlt"%string)
  /\ (overall st_rent st_nk = "Teil"%string
      <-> st_rent = "Teil"%string \/ st_nk = "Teil"%string
          \/ st_rent = "OK"%string /\ st_nk = "Fehlt"%string
          \/ st_rent = "Fehlt"%string /\ st_nk = "OK"%string)
  /\ (overall st_rent st_nk = "Über"%string
      <-> (st_rent = "Über"%string \/ st_nk = "Über"%string)
          /\ st_rent <> "Teil"%string /\ st_nk <> "Teil"%string).
Proof.
  intros st_rent st_nk.
  pose proof (status_component_values tol_c paid_rent rent_c) as Hr.
  pose proof (status_component_values tol_c paid_nk nk_c) as Hn.
  fold st_rent in Hr. fold st_nk in Hn.
  destruct Hr as [<- | [<- | [<- | [<- | []]]]];
    destruct Hn as [<- | [<- | [<- | [<- | []]]]];
    vm_compute; intuition (try discriminate; try congruence).
Qed.

Lemma rows_by_date_and_id (rows : list (date * Z * Z)) :
  StronglySorted
    (fun x y : date * Z * Z => date_leb (fst (fst x)) (fst (fst y)) = true)
    (sort_by
       (fun x y : date * Z * Z =>
          let '(d1, i1, _) := x in
          let '(d2, i2, _) := y in
          date_ltb d1 d2 || (date_eqb d1 d2 && (i1 <? i2)))
       rows).
Proof.
  match goal with |- StronglySorted _ (sort_by ?f _) => set (lt := f) end.
  destruct (sort_by_sorted lt (fun _ => True) rows) as [Hsorted _].
  - intros [[d1 i1] c1] [[d2 i2] c2] _ _. unfold lt.
    rewrite orb_true_iff, andb_true_iff, orb_false_iff, andb_false_iff,
      !date_ltb_spec, !date_eqb_spec, Z.ltb_lt, Z.ltb_ge.
    intros Hlt. split; [| destruct (date_eqb d2 d1) eqn:E;
                          [apply date_eqb_spec in E; right | left; reflexivity]].
    + destruct (date_ltb d2 d1) eqn:E; [| reflexivity].
      apply date_ltb_spec in E. lia.
    + lia.
  - intros [[d1 i1] c1] [[d2 i2] c2] [[d3 i3] c3] _ _ _. unfold lt.
    rewrite !orb_false_iff, !andb_false_iff, !Z.ltb_ge.
    intros [H21 H21'] [H32 H32'].
    assert (N21 : ~ (date_ltb d2 d1 = true)) by congruence.
    assert (N32 : ~ (date_ltb d3 d2 = true)) by congruence.
    rewrite date_ltb_spec in N21, N32.
    assert (E21 : date_eqb d2 d1 = true -> i1 <= i2).
    { intros E. destruct H21' as [E' | E']; [congruence | exact E']. }
    assert (E32 : date_eqb d3 d2 = true -> i2 <= i3).
    { intros E. destruct H32' as [E' | E']; [congruence | exact E']. }
    rewrite date_eqb_spec in E21, E32.
    split.
    + destruct (date_ltb d3 d1) eqn:E; [| reflexivity].
      apply date_ltb_spec in E. lia.
    + destruct (date_eqb d3 d1) eqn:E; [| now left].
      right. apply date_eqb_spec in E. lia.
  - apply List.Forall_forall. auto.
  - revert Hsorted. apply StronglySorted_impl.
    intros [[d1 i1] c1] [[d2 i2] c2]. unfold lt. simpl.
    rewrite orb_false_iff. intros [Hnlt _].
    rewrite date_leb_spec.
    assert (N : ~ (date_ltb d2 d1 = true)) by congruence.
    rewrite date_ltb_spec in N. lia.
Qed.

Lemma paid_full_loop_spec (rows : list (date * Z)) (run target_cents : Z) :
  (paid_full_loop rows run target_cents = None
   <-> forall i, (i < List.length rows)%nat ->
                 run + sum_Z (map snd (take (S i) rows)) < target_cents)
  /\ forall d,
       paid_full_loop rows run target_cents = Some d
       <-> exists i c,
             rows !! i = Some (d, c)
             /\ target_cents <= run + sum_Z (map snd (take (S i) rows))
             /\ forall j, (j < i)%nat ->
                          run + sum_Z (map snd (take (S j) rows)) < target_cents.
Proof.
  revert run. induction rows as [| [d0 c0] rest IH]; intros run.
  - simpl. split.
    + split; [intros _ i Hi; lia | reflexivity].
    + intros d. split; [discriminate | intros (i & c & Hi & _); discriminate].
  - cbn [paid_full_loop]. destruct (IH (run + c0)) as [IHnone IHsome].
    destruct (target_cents <=? run + c0) eqn:Hreach; bool_to_prop.
    + split.
      * split; [discriminate |]. intros Hall.
        specialize (Hall 0%nat ltac:(simpl; lia)). simpl in Hall. lia.
      * intros d. split.
        -- intros [= <-]. exists 0%nat, c0. split; [reflexivity |].
           split; [simpl; lia | intros j Hj; lia].
        -- intros (i & c & Hi & Hge & Hbefore).
           destruct i as [| i]; [simpl in Hi; congruence |].
           specialize (Hbefore 0%nat ltac:(lia)). simpl in Hbefore. lia.
    + split.
      * rewrite IHnone. split.
        -- intros Hall [| i] Hi; simpl in *; [lia |].
           specialize (Hall i ltac:(lia)). lia.
        -- intros Hall i Hi. specialize (Hall (S i) ltac:(simpl; lia)).
           simpl in *. lia.
      * intros d. rewrite IHsome. split.
        -- intros (i & c & Hi & Hge & Hbefore). exists (S i), c.
           split; [exact Hi |]. split; [simpl in *; lia |].
           intros [| j] Hj; simpl; [lia |].
           specialize (Hbefore j ltac:(lia)). simpl in Hbefore. lia.
        -- intros (i & c & Hi & Hge & Hbefore).
           destruct i as [| i].
           ++ simpl in Hi, Hge. lia.
           ++ exists i, c. split; [exact Hi |]. split; [simpl in *; lia |].
              intros j Hj. specialize (Hbefore (S j) ltac:(lia)).
              simpl in *. lia.
Qed.

(** X24: for a valid month, [date_paid_full] walks the rows of the
    tenant on the accounts within the month in date order and returns
    the date of the first row at which the running sum of the amounts
    reaches the target; it returns nothing when no row does, which is
    the case when there is no row at all, whatever the target. *)
Theorem date_paid_full_first_reach (cx : db) (tenant_id : string)
    (accounts : list string) (yyyymm : month_id) (target_cents : Z)
    (first last : date)
    (Hmonth : month_bounds yyyymm = Some (first, last)) :
  let rows := paid_rows_ordered cx tenant_id accounts first last in
  let paid_by i := sum_Z (map snd (take (S i) rows)) in
  StronglySorted (fun p q => date_leb (fst p) (fst q) = true) rows
  /\ Forall (fun p => date_leb first (fst p) = true
                      /\ date_leb (fst p) last = true) rows
  /\ (date_paid_full cx tenant_id accounts yyyymm target_cents = Some None
      <-> forall i, (i < List.length rows)%nat -> paid_by i < target_cents)
  /\ forall d,
       date_paid_full cx tenant_id accounts yyyymm target_cents = Some (Some d)
       <-> exists i c,
             rows !! i = Some (d, c)
             /\ target_cents <= paid_by i
             /\ forall j, (j < i)%nat -> paid_by j < target_cents.
Proof.
  intros rows paid_by. unfold date_paid_full. rewrite Hmonth.
  fold rows. destruct (paid_full_loop_spec rows 0 target_cents) as [Hnone Hsome].
  split; [| split; [| split]].
  - unfold rows, paid_rows_ordered.
    apply StronglySorted_map
      with (R := fun x y : date * Z * Z =>
                   date_leb (fst (fst x)) (fst (fst y)) = true).
    + intros [[d1 i1] c1] [[d2 i2] c2]. auto.
    + apply rows_by_date_and_id.
  - apply List.Forall_forall. intros p Hp. unfold rows, paid_rows_ordered in Hp.
    apply in_map_iff in Hp as ([[d i] c] & <- & Hx).
    apply sort_by_In in Hx. unfold paid_rows in Hx.
    apply in_flat_map in Hx as (s0 & _ & Hx).
    destruct (_ && _) in Hx; [| contradiction].
    apply in_map_iff in Hx as (b & [= <- <- <-] & Hb).
    apply filter_In in Hb as [_ Hb]. simpl.
    apply andb_prop in Hb as [Hb Hend]. apply andb_prop in Hb as [_ Hstart].
    auto.
  - split.
    + intros [= Hloop]. exact (proj1 Hnone Hloop).
    + intros Hall. f_equal. exact (proj2 Hnone Hall).
  - intros d. split.
    + intros [= Hloop]. exact (proj1 (Hsome d) Hloop).
    + intros Hex. do 2 f_equal. exact (proj2 (Hsome d) Hex).
Qed.

Lemma paid_rows_ordered_sum (cx : db) (tenant_id : string)
    (accounts : list string) (first last : date) :
  sum_Z (map snd (paid_rows_ordered cx tenant_id accounts first last))
  = sum_Z (map snd (paid_rows cx tenant_id accounts first last)).
Proof.
  unfold paid_rows_ordered. rewrite map_map.
  rewrite (List.map_ext _ (fun x : date * Z * Z => snd x))
    by (intros [[d i] c]; reflexivity).
  apply sum_Z_perm, Permutation_map, sort_by_perm.
Qed.

(** X25: the line [cmd_rent_check] prints for a lease shows as rent
    paid the sum of the rows of the month. Its last column is "-" when
    the rent status is not "OK" or the month has no row on the rent
    accounts; otherwise the rent status is "OK", [date_paid_full] finds
    a date, and the column reads "zu spät" when that date lies more
    than the grace days after the due date, and "OK" when it does
    not. *)
Theorem rent_check_late_flag (cx : db) (rent_accounts nk_accounts : list string)
    (month : month_id) (l : lease_row) (line : rent_check_line)
    (Hline : rent_check_lease cx rent_accounts nk_accounts month l = Some line) :
  exists first last due,
    month_bounds month = Some (first, last)
    /\ make_due_date month (l_due_day l) = Some due
    /\ let rows := paid_rows_ordered cx (l_tenant_id l) rent_accounts first last in
       let st_rent :=
         status_component (l_tolerance_cents l) (rc_rent_paid line) (l_rent_cents l) in
       rc_rent_paid line = sum_Z (map snd rows)
       /\ (rc_late_flag line = "-"%string
           <-> st_rent <> "OK"%string \/ rows = [])
       /\ (st_rent = "OK"%string -> rows <> [] ->
           exists d,
             date_paid_full cx (l_tenant_id l) rent_accounts month
               (l_rent_cents l - l_tolerance_cents l) = Some (Some d)
             /\ rc_late_flag line
                = if toordinal due + l_grace_days l <? toordinal d
                  then "zu spät"%string else "OK"%string).
Proof.
  unfold rent_check_lease, sum_paid_for, date_paid_full in *.
  destruct (month_bounds month) as [[first last] |] eqn:Hb; [| discriminate].
  destruct (make_due_date month (l_due_day l)) as [due |] eqn:Hdue; [| discriminate].
  exists first, last, due. split; [reflexivity |]. split; [reflexivity |].
  rewrite <- paid_rows_ordered_sum in Hline.
  set (rows := paid_rows_ordered cx (l_tenant_id l) rent_accounts first last) in *.
  set (paid := sum_Z (map snd rows)) in *.
  set (tol := l_tolerance_cents l) in *.
  set (st := status_component tol paid (l_rent_cents l)) in *.
  cbn zeta.
  destruct (paid_full_loop_spec rows 0 (l_rent_cents l - tol)) as [Hnone _].
  assert (Hfound : st = "OK"%string -> rows <> [] ->
                   paid_full_loop rows 0 (l_rent_cents l - tol) <> None).
  { intros Hok Hrows Hloop. pose proof (proj1 Hnone Hloop) as Hall. clear Hloop.
    rename Hall into Hloop.
    assert (Hlen : (0 < List.length rows)%nat)
      by (destruct rows; [congruence | simpl; lia]).
    specialize (Hloop (List.length rows - 1)%nat ltac:(lia)).
    replace (S (List.length rows - 1)) with (List.length rows) in Hloop by lia.
    rewrite firstn_all in Hloop. fold paid in Hloop.
    unfold st, status_component in Hok.
    destruct (Z.abs (paid - l_rent_cents l) <=? tol) eqn:Habs.
    - bool_to_prop. lia.
    - destruct ((0 <? paid) && (paid <? l_rent_cents l - tol));
        [discriminate |].
      destruct (l_rent_cents l + tol <? paid); discriminate. }
  assert (Hempty : rows = [] -> paid_full_loop rows 0 (l_rent_cents l - tol) = None).
  { intros ->. reflexivity. }
  destruct (String.eqb st "OK") eqn:Hst.
  - apply String.eqb_eq in Hst.
    destruct (paid_full_loop rows 0 (l_rent_cents l - tol)) as [d |] eqn:Hloop.
    + injection Hline as <-. cbn [rc_rent_paid rc_late_flag]. fold paid. fold st.
      split; [reflexivity |]. split.
      * split.
        -- destruct (_ <? _); discriminate.
        -- intros [Hno | Hno]; [congruence |].
           apply Hempty in Hno. congruence.
      * intros _ _. exists d. split; reflexivity.
    + injection Hline as <-. cbn [rc_rent_paid rc_late_flag]. fold paid. fold st.
      split; [reflexivity |]. split.
      * split; [| reflexivity]. intros _. right.
        destruct rows as [| r rows'] eqn:Hrows; [reflexivity |].
        exfalso. apply Hfound; [exact Hst | discriminate | reflexivity].
      * intros _ Hrows. exfalso. now apply Hfound.
  - apply String.eqb_neq in Hst.
    injection Hline as <-. cbn [rc_rent_paid rc_late_flag]. fold paid. fold st.
    split; [reflexivity |]. split.
    + split; [intros _; now left | reflexivity].
    + intros Hok. congruence.
Qed.

(** ** Unbalanced bank rows *)

Section Unbalanced.
Context `{Regex}.

(** X26: after a rule has been applied to a bank row (with bank ids
    unique), [cmd_unbalanced] lists that row exactly when it had splits
    before whose sum was not zero, and then with that sum as the
    difference: the rule allocates the whole bank amount on top of what
    was there. Every other row is listed as before. *)
Theorem applied_rule_and_unbalanced_rows (cx cx' : db) (rule_id bank_id : Z)
    (msg : message)
    (Hpk : List.NoDup (map b_id (bank cx)))
    (Happ : apply_rule_to_bank cx rule_id bank_id = (cx', Returned true msg)) :
  forall b s d,
    In (b, s, d) (cmd_unbalanced cx')
    <-> if b_id b =? bank_id
        then In b (bank cx)
             /\ split_sum cx bank_id <> 0
             /\ s = split_sum cx bank_id + b_amount_cents b
             /\ d = split_sum cx bank_id
        else In (b, s, d) (cmd_unbalanced cx).
Proof.
  intros b s d.
  destruct (apply_rule_to_bank_success cx rule_id bank_id cx' msg Happ)
    as (b0 & r & l & new & Hb0 & _ & _ & Htotal & _ & (Hbank & _) & Hsplits & Hw).
  destruct (written_amounts _ _ _ _ Hw) as [Hsum Hall].
  assert (Hss : forall k, split_sum cx' k
                          = if k =? bank_id then split_sum cx k + b_amount_cents b0
                            else split_sum cx k).
  { intros k. rewrite (split_sum_appended cx cx' new k bank_id Hsplits Hall).
    now rewrite Hsum, Htotal. }
  assert (Hb0in : In b0 (bank cx) /\ b_id b0 = bank_id).
  { unfold select_bank in Hb0. apply find_some in Hb0 as [Hin Hid].
    apply Z.eqb_eq in Hid. auto. }
  destruct Hb0in as [Hb0in Hb0id].
  unfold cmd_unbalanced, bank_by_id. rewrite Hbank.
  rewrite !in_map_iff.
  destruct (Z.eqb_spec (b_id b) bank_id) as [Hid | Hid]; cbv iota.
  - split.
    + intros (b' & [= -> <- <-] & Hin).
      apply filter_In in Hin as [Hin Hne]. apply sort_by_In in Hin.
      assert (b = b0) as -> by (apply (unique_key b_id (bank cx)); auto; congruence).
      rewrite Hss, Hb0id, Z.eqb_refl in *.
      apply negb_true_iff, Z.eqb_neq in Hne.
      repeat split; auto; lia.
    + intros (Hin & Hne & -> & ->).
      assert (b = b0) as -> by (apply (unique_key b_id (bank cx)); auto; congruence).
      exists b0. rewrite Hss, Hb0id, Z.eqb_refl. split; [repeat (f_equal; try lia) |].
      apply filter_In. split; [now apply sort_by_In |].
      rewrite Hss, Hb0id, Z.eqb_refl.
      apply negb_true_iff, Z.eqb_neq. lia.
  - apply Z.eqb_neq in Hid. split.
    + intros (b' & [= -> <- <-] & Hin).
      apply filter_In in Hin as [Hin Hne].
      rewrite Hss, Hid in *. apply in_map_iff. exists b. split; [reflexivity |].
      apply filter_In. auto.
    + intros Hx. apply in_map_iff in Hx as (b' & [= -> <- <-] & Hin).
      apply filter_In in Hin as [Hin Hne].
      exists b. rewrite Hss, Hid. split; [reflexivity |].
      apply filter_In. rewrite Hss, Hid. auto.
Qed.

End Unbalanced.

(** ** Settlement charges with payments *)

Lemma nka_loop_cons (r : manual_charge) (rows : list manual_charge) (st : nka_state) :
  nka_loop (r :: rows) st = nka_loop rows (nka_step st r).
Proof. reflexivity. Qed.

Lemma nka_loop_accounting (rows : list manual_charge) (st : nka_state) :
  0 <= payment_pool st ->
  0 <= payment_pool (nka_loop rows st)
  /\ total_orig (nka_loop rows st)
     = total_orig st + sum_Z (map m_amount_cents rows)
  /\ total_paid (nka_loop rows st) + total_open_nka (nka_loop rows st)
     = total_paid st + total_open_nka st + receivables_total rows
  /\ total_paid (nka_loop rows st) + payment_pool (nka_loop rows st)
     = total_paid st + payment_pool st + credits_total rows
  /\ total_paid st <= total_paid (nka_loop rows st)
  /\ total_open_nka st <= total_open_nka (nka_loop rows st)
  /\ exists lines,
       printed (nka_loop rows st) = printed st ++ lines
       /\ Forall2 nka_line_of rows lines.
Proof.
  revert st. induction rows as [| r rows IH]; intros st Hpool.
  - unfold nka_loop, receivables_total, credits_total. simpl.
    repeat split; try lia. exists []. rewrite app_nil_r. split; constructor.
  - rewrite nka_loop_cons.
    assert (Hstep :
      0 <= payment_pool (nka_step st r)
      /\ total_orig (nka_step st r) = total_orig st + m_amount_cents r
      /\ total_paid (nka_step st r) + total_open_nka (nka_step st r)
         = total_paid st + total_open_nka st
           + (if 0 <=? m_amount_cents r then m_amount_cents r else 0)
      /\ total_paid (nka_step st r) + payment_pool (nka_step st r)
         = total_paid st + payment_pool st
           + (if 0 <=? m_amount_cents r then 0 else Z.abs (m_amount_cents r))
      /\ total_paid st <= total_paid (nka_step st r)
      /\ total_open_nka st <= total_open_nka (nka_step st r)
      /\ exists line, printed (nka_step st r) = printed st ++ [line]
                      /\ nka_line_of r line).
    { unfold nka_step, nka_line_of.
      destruct (0 <=? m_amount_cents r) eqn:Hsign; bool_to_prop; simpl;
        (repeat split; try lia);
        eexists; (split; [reflexivity |]); simpl; repeat split; lia. }
    destruct Hstep as (Hp & Ho & Hpo & Hpp & Hmp & Hmo & line & Hline & Hl).
    destruct (IH (nka_step st r) Hp) as (Hp' & Ho' & Hpo' & Hpp' & Hmp' & Hmo' & lines & Hlines & Hls).
    assert (Hrec : receivables_total (r :: rows)
                   = (if 0 <=? m_amount_cents r then m_amount_cents r else 0)
                     + receivables_total rows).
    { unfold receivables_total. simpl. destruct (0 <=? m_amount_cents r); reflexivity. }
    assert (Hcred : credits_total (r :: rows)
                    = (if 0 <=? m_amount_cents r then 0 else Z.abs (m_amount_cents r))
                      + credits_total rows).
    { unfold credits_total. simpl. destruct (0 <=? m_amount_cents r); reflexivity. }
    rewrite Hrec, Hcred. simpl map. simpl sum_Z.
    repeat split; try lia.
    exists (line :: lines). rewrite Hlines, Hline, <- app_assoc. split; [reflexivity |].
    now constructor.
Qed.

Lemma nka_loop_without_credits (rows : list manual_charge) (st : nka_state) :
  0 <= payment_pool st ->
  Forall (fun r => 0 <= m_amount_cents r) rows ->
  total_paid (nka_loop rows st)
  = total_paid st + Z.min (payment_pool st) (sum_Z (map m_amount_cents rows)).
Proof.
  intros Hpool Hall. revert st Hpool.
  induction Hall as [| r rows Hr Hall IH]; intros st Hpool.
  - unfold nka_loop. simpl. lia.
  - rewrite nka_loop_cons.
    assert (Hsum : 0 <= sum_Z (map m_amount_cents rows)).
    { apply sum_Z_nonneg. rewrite List.Forall_forall in *. intros z Hz.
      apply in_map_iff in Hz as (x & <- & Hx). auto. }
    assert (Hstep : payment_pool (nka_step st r)
                    = payment_pool st - Z.min (m_amount_cents r) (payment_pool st)
                    /\ total_paid (nka_step st r)
                       = total_paid st + Z.min (m_amount_cents r) (payment_pool st)).
    { unfold nka_step. destruct (0 <=? m_amount_cents r) eqn:Hsign; bool_to_prop;
        [| lia]. simpl. split; lia. }
    destruct Hstep as [Hp Ht].
    rewrite IH by lia. rewrite Hp, Ht. simpl map. simpl sum_Z. lia.
Qed.

(** X27: the settlement list with payments. The pool starts as the
    total of the tenant's payments on the settlement accounts up to the
    as-of date. Each charge is shown with a paid part between zero and
    its amount and the rest as open; a credit is shown with neither and
    raises the pool for the rows after it. In the totals, paid plus
    open is the sum of the charges (so the three totals add up only
    when there is no credit), and what was paid, with what is left of
    the pool, is the payments plus the credits. Without credits the
    total paid is the smaller of the payments and the charges. *)
Theorem settlement_list_accounting (cx : db) (tenant_id : string)
    (nka_accounts : list string) (asof : date) (st : nka_state)
    (Hlist : list_nka_with_payments cx tenant_id nka_accounts asof = Some st) :
  let rows := select_nka_rows cx tenant_id in
  let payments :=
    sum_Z (map snd (fetch_payments cx tenant_id nka_accounts (mkDate 1900 1 1) asof)) in
  rows <> []
  /\ Forall2 nka_line_of rows (printed st)
  /\ total_orig st = sum_Z (map m_amount_cents rows)
  /\ total_paid st + total_open_nka st = receivables_total rows
  /\ total_orig st = total_paid st + total_open_nka st - credits_total rows
  /\ total_paid st + payment_pool st = payments + credits_total rows
  /\ 0 <= payment_pool st /\ 0 <= total_paid st /\ 0 <= total_open_nka st
  /\ (Forall (fun r => 0 <= m_amount_cents r) rows ->
      total_paid st = Z.min payments (receivables_total rows)
      /\ total_open_nka st = Z.max 0 (receivables_total rows - payments)).
Proof.
  intros rows payments. unfold list_nka_with_payments in Hlist. fold rows in Hlist.
  assert (Hpay : 0 <= payments).
  { unfold payments. apply sum_Z_nonneg.
    pose proof (fetch_payments_positive cx tenant_id nka_accounts (mkDate 1900 1 1) asof)
      as Hpos.
    rewrite List.Forall_forall in *. intros z Hz.
    apply in_map_iff in Hz as (p & <- & Hp). apply Hpos in Hp. lia. }
  assert (Hmoney : sum_Z (map m_amount_cents rows)
                   = receivables_total rows - credits_total rows).
  { unfold receivables_total, credits_total. clear.
    induction rows as [| r rows IH]; simpl; [reflexivity |].
    destruct (0 <=? m_amount_cents r) eqn:Hs; bool_to_prop; simpl; lia. }
  assert (Hst : rows <> []
                /\ st = nka_loop rows (mkNkaState payments 0 0 0 [])).
  { destruct rows as [| r rows']; [discriminate |].
    injection Hlist as <-. split; [discriminate | reflexivity]. }
  destruct Hst as [Hne ->].
  destruct (nka_loop_accounting rows (mkNkaState payments 0 0 0 []) Hpay)
    as (Hp & Ho & Hpo & Hpp & Hmp & Hmo & lines & Hlines & Hls).
  simpl in Ho, Hpo, Hpp, Hmp, Hmo, Hlines. subst lines.
  assert (Hlast : Forall (fun r => 0 <= m_amount_cents r) rows ->
                  total_paid (nka_loop rows (mkNkaState payments 0 0 0 []))
                  = Z.min payments (receivables_total rows)
                  /\ total_open_nka (nka_loop rows (mkNkaState payments 0 0 0 []))
                     = Z.max 0 (receivables_total rows - payments)).
  { intros Hall.
    pose proof (nka_loop_without_credits rows (mkNkaState payments 0 0 0 []) Hpay Hall)
      as Hpaid.
    simpl in Hpaid.
    assert (Hcred : credits_total rows = 0).
    { unfold credits_total. clear - Hall.
      induction Hall as [| r rows Hr _ IH]; simpl; [reflexivity |].
      apply Z.leb_le in Hr. rewrite Hr. exact IH. }
    split; lia. }
  split; [exact Hne |]. split; [exact Hls |].
  split; [lia |]. split; [lia |]. split; [lia |]. split; [lia |].
  split; [lia |]. split; [lia |]. split; [lia |]. exact Hlast.
Qed.

(** ** Manual splits *)

Section ManualSplits.
Context `{AmountParser}.

Lemma existsb_eqb_In (x : string) (l : list string) :
  existsb (String.eqb x) l = true <-> In x l.
Proof.
  rewrite existsb_exists. split.
  - intros (y & Hy & Heq). apply String.eqb_eq in Heq. now subst.
  - intros Hx. exists x. split; [exact Hx | apply String.eqb_refl].
Qed.

Lemma add_split_loop_spec (accounts tenants : list string) (bank_id : Z)
    (triples : list string) (cx cx' : db) (inserted : list inserted_split)
    (r : add_split_message + list inserted_split) :
  add_split_loop accounts tenants cx bank_id triples inserted = (cx', r) ->
  exists new,
    same_tables cx cx'
    /\ splits cx' = splits cx ++ new
    /\ Forall2 (split_of_triple accounts tenants bank_id)
         (take (List.length new) (triples_of triples)) new
    /\ match r with
       | inr ins =>
           ins = inserted
                 ++ map (fun s => (s_account s, s_tenant_id s, s_amount_cents s)) new
           /\ List.length triples = (3 * List.length new)%nat
       | inl (AccountUnknown a) =>
           (exists amount_tok tenant_tok,
               triples_of triples !! List.length new = Some (a, amount_tok, tenant_tok))
           /\ ~ In a accounts
       | inl (TenantUnknown t) =>
           (exists a amount_tok,
               triples_of triples !! List.length new = Some (a, amount_tok, t))
           /\ ~ In t tenants
       | inl AddSplitRaised => True
       | inl _ => False
       end.
Proof.
  revert cx inserted.
  induction triples as [triples IH] using (induction_ltof1 _ (@List.length string)).
  unfold ltof in IH. intros cx inserted.
  destruct triples as [| account [| amount_tok [| tenant_tok rest]]];
    cbn [add_split_loop].
  - intros [= <- <-]. exists []. simpl. rewrite !app_nil_r.
    repeat split; auto; constructor.
  - intros [= <- <-]. exists []. simpl. rewrite !app_nil_r.
    repeat split; auto; constructor.
  - intros [= <- <-]. exists []. simpl. rewrite !app_nil_r.
    repeat split; auto; constructor.
  - destruct (parse_amount_token amount_tok) as [amount_cents |] eqn:Hparse.
    2: { intros [= <- <-]. exists []. simpl. rewrite !app_nil_r.
         repeat split; auto; constructor. }
    destruct (existsb (String.eqb account) accounts) eqn:Hacc; cbn [negb].
    2: { intros [= <- <-]. exists []. rewrite !app_nil_r.
         split; [apply same_tables_refl |]. split; [reflexivity |].
         split; [constructor |]. split; [simpl; eauto |].
         rewrite <- existsb_eqb_In. congruence. }
    apply existsb_eqb_In in Hacc.
    destruct (tenant_of_token tenant_tok) as [t |] eqn:Hten.
    + destruct (existsb (String.eqb t) tenants) eqn:Hknown.
      * apply existsb_eqb_In in Hknown. intros Hloop.
        apply IH in Hloop; [| simpl; lia].
        destruct Hloop as (new & Hsame & Hsplits & Hrows & Hr).
        eexists (_ :: new). split; [| split; [| split]].
        -- eapply same_tables_trans; [| exact Hsame]. now repeat split.
        -- rewrite Hsplits. cbn [insert_split splits]. rewrite <- app_assoc.
           reflexivity.
        -- cbn [Datatypes.length triples_of take]. constructor; [| exact Hrows].
           cbn. rewrite Hten. repeat split; auto.
           intros t' [= <-]. exact Hknown.
        -- destruct r as [[] | ins]; try exact Hr.
           destruct Hr as [-> Hlen]. split.
           ++ rewrite <- app_assoc. reflexivity.
           ++ cbn [Datatypes.length]. lia.
      * intros [= <- <-]. exists []. rewrite !app_nil_r.
        split; [apply same_tables_refl |]. split; [reflexivity |].
        split; [constructor |]. split.
        -- simpl. exists account, amount_tok. do 2 f_equal.
           unfold tenant_of_token in Hten.
           destruct (_ || _) in Hten; congruence.
        -- rewrite <- existsb_eqb_In. congruence.
    + intros Hloop. apply IH in Hloop; [| simpl; lia].
      destruct Hloop as (new & Hsame & Hsplits & Hrows & Hr).
      eexists (_ :: new). split; [| split; [| split]].
      * eapply same_tables_trans; [| exact Hsame]. now repeat split.
      * rewrite Hsplits. cbn [insert_split splits]. rewrite <- app_assoc.
        reflexivity.
      * cbn [Datatypes.length triples_of take]. constructor; [| exact Hrows].
        cbn. rewrite Hten. repeat split; auto. intros t' [=].
      * destruct r as [[] | ins]; try exact Hr.
        destruct Hr as [-> Hlen]. split.
        -- rewrite <- app_assoc. reflexivity.
        -- cbn [Datatypes.length]. lia.
Qed.

(** X28: [cmd_add_split] keeps what it has written when it stops at an
    unknown account or tenant: the splits of the groups in front of the
    offending one stay in the store (the [return] leaves the [with]
    block, which commits), unlike a failed rule application. Nothing is
    written when the arguments do not come in threes, when the bank row
    is missing, or when an amount cannot be read (the exception rolls
    back). When the command runs through, it has appended one split per
    group, with an empty note, and it reports the new split sum of the
    bank row and its difference to the bank amount. *)
Theorem manual_splits_are_kept (accounts tenants : list string) (cx cx' : db)
    (bank_id : Z) (triples : list string) (msg : add_split_message)
    (Hcmd : cmd_add_split accounts tenants cx bank_id triples = (cx', msg)) :
  exists new,
    same_tables cx cx'
    /\ splits cx' = splits cx ++ new
    /\ Forall2 (split_of_triple accounts tenants bank_id)
         (take (List.length new) (triples_of triples)) new
    /\ match msg with
       | NotTriples => new = [] /\ Z.of_nat (List.length triples) mod 3 <> 0
       | BankIdNotFound => new = [] /\ select_bank cx bank_id = None
       | AddSplitRaised => cx' = cx
       | AccountUnknown a =>
           (exists amount_tok tenant_tok,
               triples_of triples !! List.length new = Some (a, amount_tok, tenant_tok))
           /\ ~ In a accounts
       | TenantUnknown t =>
           (exists a amount_tok,
               triples_of triples !! List.length new = Some (a, amount_tok, t))
           /\ ~ In t tenants
       | SplitsAdded inserted tot bank_amount diff =>
           List.length triples = (3 * List.length new)%nat
           /\ inserted = map (fun s => (s_account s, s_tenant_id s, s_amount_cents s)) new
           /\ (exists b, select_bank cx bank_id = Some b
                         /\ bank_amount = b_amount_cents b)
           /\ tot = split_sum cx bank_id + sum_Z (map s_amount_cents new)
           /\ diff = tot - bank_amount
       end.
Proof.
  unfold cmd_add_split in Hcmd.
  destruct (Z.of_nat (List.length triples) mod 3 =? 0) eqn:Hmod; cbn [negb] in Hcmd.
  2: { injection Hcmd as <- <-. exists []. rewrite app_nil_r.
       split; [apply same_tables_refl |]. split; [reflexivity |].
       split; [constructor |]. split; [reflexivity |].
       now apply Z.eqb_neq. }
  destruct (select_bank cx bank_id) as [b |] eqn:Hb.
  2: { injection Hcmd as <- <-. exists []. rewrite app_nil_r.
       split; [apply same_tables_refl |]. split; [reflexivity |].
       split; [constructor |]. split; reflexivity. }
  destruct (add_split_loop accounts tenants cx bank_id triples []) as [cx1 r] eqn:Hloop.
  destruct (add_split_loop_spec _ _ _ _ _ _ _ _ Hloop)
    as (new & Hsame & Hsplits & Hrows & Hr).
  destruct r as [[] | ins]; try contradiction.
  - injection Hcmd as <- <-. exists new. auto.
  - injection Hcmd as <- <-. exists new. auto.
  - injection Hcmd as <- <-. exists []. rewrite app_nil_r.
    split; [apply same_tables_refl |]. split; [reflexivity |].
    split; [constructor |]. reflexivity.
  - injection Hcmd as <- <-. exists new. destruct Hr as [-> Hlen].
    split; [exact Hsame |]. split; [exact Hsplits |]. split; [exact Hrows |].
    split; [exact Hlen |]. split; [reflexivity |]. split; [eauto |].
    split; [| reflexivity].
    fold (split_sum cx1 bank_id).
    rewrite (split_sum_appended cx cx1 new bank_id bank_id Hsplits), Z.eqb_refl;
      [reflexivity |].
    clear - Hrows. revert Hrows.
    generalize (take (List.length new) (triples_of triples)).
    intros gs Hrows. induction Hrows as [| [[a b'] c] s gs new Hg _ IH];
      constructor; [apply Hg | exact IH].
Qed.

End ManualSplits.

(** ** The examples, evaluated *)

Lemma allocation_balances_witness :
  (exists b new,
      select_bank example_db 1 = Some b
      /\ splits (fst (@apply_rule_to_bank no_regex example_db 1 1))
         = splits example_db ++ new
      /\ Forall (fun s => s_bank_id s = 1) new
      /\ sum_Z (map s_amount_cents new) = b_amount_cents b)
  /\ @apply_rule_to_bank no_regex example_db 2 2
     = (example_db, Returned false (BalanceMismatch 9999 10000)).
Proof.
  destruct (@allocation_balances_exactly no_regex) as [Hok Hbad]. split.
  - apply (Hok example_db 1 1 _ (SplitsCreated 3 "Stadtwerke")).
    vm_compute. reflexivity.
  - apply (Hbad example_db 2 2 (mkBank 2 d_2025_07_05 10000 (Some "Miete Mueller"%string))
             (mkRule 2 "Drittel" None None None "any" 20 1 None)
             [mkPending "3000" (Some "M001"%string) 3333 None;
              mkPending "3000" (Some "M002"%string) 3333 None;
              mkPending "3000" (Some "M003"%string) 3333 None]);
      try (vm_compute; reflexivity); vm_compute; discriminate.
Defined.

Lemma failed_allocation_witness :
  @apply_rule_to_bank no_regex example_db 2 2
  = (example_db, Returned false (BalanceMismatch 9999 10000))
  /\ fst (@apply_rule_to_bank no_regex example_db 2 2) = example_db
  /\ splits (fst (@apply_rule_to_bank no_regex example_db 2 2)) = splits example_db.
Proof.
  assert (Hfail : @apply_rule_to_bank no_regex example_db 2 2
                  = (fst (@apply_rule_to_bank no_regex example_db 2 2),
                     Returned false (BalanceMismatch 9999 10000)))
    by (vm_compute; reflexivity).
  destruct (@failed_allocation_writes_nothing no_regex example_db 2 2 _ _ Hfail)
    as (Hsame & Hsplits & _).
  split; [now rewrite Hfail, Hsame | split; assumption].
Defined.

(** Each way of failing, on the example ledger: the store comes back as
    it was. *)
Example each_failure_leaves_the_store :
  @apply_rule_to_bank no_regex example_db 1 4 = (example_db, Returned false BankNotFound)
  /\ @apply_rule_to_bank no_regex example_db 11 2
     = (example_db, Returned false RuleNotFound)
  /\ @apply_rule_to_bank no_regex example_db 1 2
     = (example_db, Returned false RuleDoesNotMatch)
  /\ @apply_rule_to_bank no_regex example_db 7 2 = (example_db, Returned false NoParts)
  /\ @apply_rule_to_bank no_regex example_db 4 2
     = (example_db, Returned false FixedWithoutValue)
  /\ @apply_rule_to_bank no_regex example_db 8 2
     = (example_db, Returned false PercentWithoutValue)
  /\ @apply_rule_to_bank no_regex example_db 3 2
     = (example_db, Returned false (PercentOverflow (0 + 60.0 + 40.01)%float))
  /\ @apply_rule_to_bank no_regex example_db 9 2
     = (example_db, Returned false MultipleRemainder)
  /\ @apply_rule_to_bank no_regex example_db 2 2
     = (example_db, Returned false (BalanceMismatch 9999 10000)).
Proof. repeat split; vm_compute; reflexivity. Qed.

(** A share that cannot be rounded raises, before anything is written:
    minus infinity percent of the amount 0 is not a number. *)
Example raised_allocation_leaves_the_store :
  @apply_rule_to_bank no_regex example_db 10 3 = (example_db, Raised ValueError).
Proof. vm_compute. reflexivity. Qed.

Lemma fixed_part_sign_witness :
  exists new s,
    splits (fst (@apply_rule_to_bank no_regex example_db 1 1))
    = splits example_db ++ new
    /\ In s new
    /\ s_bank_id s = 1
    /\ s_account s = "4000"%string
    /\ s_tenant_id s = None
    /\ (-12000 <> 0 -> s_amount_cents s = Z.sgn (-12000) * Z.abs 5000)
    /\ (-12000 = 0 -> s_amount_cents s = 5000).
Proof.
  apply (@fixed_part_sign_follows_transaction no_regex example_db 1 1 _
           (SplitsCreated 3 "Stadtwerke")
           (mkBank 1 d_2025_07_05 (-12000) (Some "Stadtwerke Abschlag"%string))
           (mkPart 1 1 "4000" None "fixed" (Some 5000) None None) 5000).
  - vm_compute. reflexivity.
  - reflexivity.
  - vm_compute. auto.
  - reflexivity.
  - reflexivity.
Defined.

(** On the bank row of amount 0, the rule "Storno" (a fixed part of
    -5000 and a remainder) succeeds, and the row of the fixed part keeps
    the stored sign of the part. *)
Lemma fixed_part_on_zero_amount_keeps_stored_sign :
  select_bank example_db 3 = Some (mkBank 3 d_2025_07_05 0 (Some "Storno"%string))
  /\ @apply_rule_to_bank no_regex example_db 5 3
     = ({| bank := example_bank;
           splits :=
             [mkSplit 1 3 "5300" None (-5000) (Some "Auto: Regel Storno"%string);
              mkSplit 2 3 "1000" None 5000 (Some "Auto: Regel Storno"%string)];
           splits_seq := 2;
           rules := example_rules;
           rule_parts := example_rule_parts;
           manual_charges := [] |},
        Returned true (SplitsCreated 2 "Storno"))
  /\ fixed_amount 0 (-5000) = -5000
  /\ fixed_amount 0 (-5000) <> Z.sgn 0 * Z.abs (-5000).
Proof.
  split; [reflexivity |]. split; [vm_compute; reflexivity |].
  split; [reflexivity | discriminate].
Qed.

Lemma percent_overflow_witness :
  @apply_rule_to_bank no_regex example_db 3 2
  = (example_db, Returned false (PercentOverflow (0 + 60.0 + 40.01)%float))
  /\ (0 + 60.0 + 40.01)%float
     = fold_left PrimFloat.add
         (map pp_pct [mkPercent "3010" None 60.0%float None;
                      mkPercent "3020" None 40.01%float None]) 0%float.
Proof.
  apply (@percent_overflow_rejected no_regex example_db 3 2
           (mkBank 2 d_2025_07_05 10000 (Some "Miete Mueller"%string))
           (mkRule 3 "Ueberzogen" None None None "any" 30 1 None)
           5000 [mkPending "3000" None 5000 None]).
  - reflexivity.
  - reflexivity.
  - vm_compute. reflexivity.
  - vm_compute. discriminate.
  - vm_compute. reflexivity.
  - vm_compute. reflexivity.
  - vm_compute. reflexivity.
Defined.

(** The check precedes the rounding of the shares: a part of +infinity
    percent is rejected, where rounding its share would raise. *)
Example percent_overflow_before_rounding :
  @apply_rule_to_bank no_regex example_db 6 2
  = (example_db, Returned false (PercentOverflow infinity))
  /\ percent_cents 10000 infinity = inl OverflowError.
Proof. split; vm_compute; reflexivity. Qed.

(** The rule "Ohne Betrag" has percent parts that sum to 100.01, and a
    fixed part without a value: the call ends in the loop over the fixed
    parts, with that loop's message, and never reaches the percent check. *)
Lemma percent_overflow_after_fixed_parts :
  (exists percent_sum percent_parts,
      percent_scan (select_rule_parts example_db 4) 0%float []
      = inr (percent_sum, percent_parts)
      /\ (100.000001 <? percent_sum)%float = true)
  /\ @apply_rule_to_bank no_regex example_db 4 2
     = (example_db, Returned false FixedWithoutValue)
  /\ Returned false FixedWithoutValue
     <> Returned false (PercentOverflow (0 + 60.0 + 40.01)%float).
Proof.
  split; [| split; [vm_compute; reflexivity | discriminate]].
  eexists _, _. split; vm_compute; reflexivity.
Qed.

Lemma batch_skips_balanced_witness :
  List.NoDup (map b_id (bank example_db_split))
  /\ In (mkBank 1 d_2025_07_05 (-12000) (Some "Stadtwerke Abschlag"%string))
       (bank example_db_split)
  /\ split_sum example_db_split 1 = -12000
  /\ splits_of (fst (@cmd_apply_rules no_regex example_db_split (mkArgs None false))) 1
     = splits_of example_db_split 1.
Proof.
  assert (Hpk : List.NoDup (map b_id (bank example_db_split))).
  { simpl. repeat constructor; simpl; intuition discriminate. }
  assert (Hin : In (mkBank 1 d_2025_07_05 (-12000) (Some "Stadtwerke Abschlag"%string))
                  (bank example_db_split)) by (simpl; auto).
  split; [exact Hpk |]. split; [exact Hin |]. split; [reflexivity |].
  exact (proj1 (@batch_skips_balanced_rows no_regex example_db_split
                  (mkArgs None false) (mkArgs None true) _ Hpk Hin) eq_refl).
Defined.

(** The batch over the example ledger splits bank row 1, and a second
    run adds nothing. *)
Example batch_on_example_ledger :
  @cmd_apply_rules no_regex example_db (mkArgs None false)
  = (example_db_split, inr 1)
  /\ @cmd_apply_rules no_regex example_db_split (mkArgs None false)
     = (example_db_split, inr 0).
Proof. split; vm_compute; reflexivity. Qed.

Lemma open_amount_invariant_witness :
  open_cents (Charge_init "M001" "rent" d_2025_07_03 85000) = 85000
  /\ rtc alloc_step (example_charges "M001")
       (fst (apply_payments_fifo (example_charges "M001") [0; 1]%nat
               example_payments d_2025_07_05 "oldest")).
Proof.
  destruct open_amount_invariant as (Hinit & _ & Hrun & _).
  split; [apply (Hinit "M001"%string "rent"%string d_2025_07_03 85000) | apply Hrun].
Defined.

(** The credit of the aging ledger becomes a charge with a negative
    open amount; the allocator filters it out and leaves it as it is. *)
Lemma credit_charge_stays_negative :
  fetch_manual_charges aging_db "M001" (mkDate 2025 1 1) (mkDate 2025 12 31) []
  = [mkCharge "M001" "nka" d_2025_07_03 (-500) (-500)]
  /\ apply_payments_fifo [mkCharge "M001" "nka" d_2025_07_03 (-500) (-500)]
       [0%nat] aging_payments d_2025_07_05 "oldest"
     = ([mkCharge "M001" "nka" d_2025_07_03 (-500) (-500)], [])
  /\ ~ open_within_amount (mkCharge "M001" "nka" d_2025_07_03 (-500) (-500)).
Proof.
  split; [vm_compute; reflexivity |]. split; [vm_compute; reflexivity |].
  unfold open_within_amount. simpl. lia.
Qed.

Lemma payments_pool_witness :
  aging_payments = [(d_2025_07_05, 85000); (d_2025_07_01, 20000)]
  /\ apply_payments_fifo (example_charges "M001") [0; 1]%nat aging_payments
       d_2025_07_05 "oldest"
     = apply_payments_fifo (example_charges "M001") [0; 1]%nat
         [(d_2025_07_01, 20000); (d_2025_07_05, 85000)] d_2025_07_05 "oldest"
  /\ apply_payments_fifo (example_charges "M001") [0; 1]%nat aging_payments
       d_2025_07_05 "oldest"
     = apply_payments_fifo (example_charges "M001") [0; 1]%nat
         [(d_2025_07_05, 105000)] d_2025_07_05 "oldest".
Proof.
  split; [vm_compute; reflexivity |].
  assert (Hpos : Forall (fun p : payment => 0 < snd p) aging_payments)
    by apply rent_aging_payments_positive.
  assert (Hpos' : Forall (fun p : payment => 0 < snd p)
                    [(d_2025_07_01, 20000); (d_2025_07_05, 85000)])
    by (repeat constructor).
  destruct (payments_pool_into_one_total (example_charges "M001") [0; 1]%nat
              aging_payments [(d_2025_07_01, 20000); (d_2025_07_05, 85000)]
              d_2025_07_05 "oldest" Hpos Hpos') as (Hperm & _ & Hone).
  split; [apply Hperm; vm_compute; apply perm_swap | exact Hone].
Defined.

Lemma payments_walked_witness :
  apply_payments_fifo (example_charges "M001") [0; 1]%nat
    ([(d_2025_07_05, 85000)] ++ [(d_2025_07_01, 20000)]) d_2025_07_05 "oldest"
  = (fst (walk [0; 1]%nat
            [mkCharge "M001" "rent" d_2025_07_03 85000 0;
             mkCharge "M001" "nk" d_2025_07_03 20000 20000] 20000),
     [0; 1]%nat)
  /\ apply_payments_fifo (example_charges "M001") [0; 1]%nat
       [(d_2025_07_05, 85000)] d_2025_07_05 "oldest"
     = spec_apply_payments (example_charges "M001") [0; 1]%nat
         [(d_2025_07_05, 85000)] d_2025_07_05 "oldest".
Proof.
  destruct (payments_walked_in_list_order (example_charges "M001") [0; 1]%nat
              [(d_2025_07_05, 85000)] d_2025_07_05 "oldest")
    as (Horder & _ & _ & Hspec).
  split; [exact (Horder (d_2025_07_01, 20000)) | exact Hspec].
Defined.

(** The payments of the aging ledger reach the allocator with the rent
    payment of 2025-07-05 in front of the operating-cost payment of
    2025-07-01, and are walked so: after the first walk the rent charge
    is settled by the later payment, where date order would have put the
    earlier payment of 20000 on it. *)
Lemma payments_not_walked_in_date_order :
  aging_payments = [(d_2025_07_05, 85000); (d_2025_07_01, 20000)]
  /\ eligible_payments aging_payments d_2025_07_05 = aging_payments
  /\ spec_chronological aging_payments
     = [(d_2025_07_01, 20000); (d_2025_07_05, 85000)]
  /\ eligible_payments aging_payments d_2025_07_05
     <> spec_chronological aging_payments
  /\ pay_all [0; 1]%nat (take 1 (eligible_payments aging_payments d_2025_07_05))
       (example_charges "M001")
     = [mkCharge "M001" "rent" d_2025_07_03 85000 0;
        mkCharge "M001" "nk" d_2025_07_03 20000 20000]
  /\ pay_all [0; 1]%nat (take 1 (spec_chronological aging_payments))
       (example_charges "M001")
     = [mkCharge "M001" "rent" d_2025_07_03 85000 65000;
        mkCharge "M001" "nk" d_2025_07_03 20000 20000].
Proof.
  repeat split; try (vm_compute; reflexivity).
  vm_compute. discriminate.
Qed.

(** ** Further examples *)

Lemma match_rule_amount_witness :
  1 <> 0
  /\ (forall min_c, Some (-20000) = Some min_c -> min_c <= -12000)
  /\ (forall max_c, Some (-100) = Some max_c -> -12000 <= max_c)
  /\ ("out"%string = "any"%string
      \/ "out"%string = "in"%string /\ 0 < -12000
      \/ "out"%string = "out"%string /\ -12000 < 0).
Proof.
  exact (@match_rule_amount_conditions no_regex
           (mkRule 1 "Stadtwerke" (Some "%Stadtwerke%"%string) (Some (-20000))
              (Some (-100)) "out" 10 1 None)
           (mkBank 1 d_2025_07_05 (-12000) (Some "Stadtwerke Abschlag"%string))
           eq_refl).
Defined.




Lemma several_remainders_witness :
  (2 <= List.length (remainder_parts (select_rule_parts example_db 9)))%nat
  /\ fst (@apply_rule_to_bank no_regex example_db 9 2) = example_db
  /\ forall msg, snd (@apply_rule_to_bank no_regex example_db 9 2) <> Returned true msg.
Proof.
  assert (Hmany : (2 <= List.length (remainder_parts (select_rule_parts example_db 9)))%nat)
    by (vm_compute; lia).
  split; [exact Hmany |].
  exact (@several_remainders_never_succeed no_regex example_db 9 2 Hmany).
Defined.

Lemma single_remainder_witness :
  remainder_parts (select_rule_parts example_db 1)
  = [mkPart 3 1 "4020" None "remainder" None None None]
  /\ exists b new s,
       select_bank example_db 1 = Some b
       /\ splits example_db_split = splits example_db ++ new ++ [s]
       /\ s_account s = "4020"%string
       /\ s_tenant_id s = None
       /\ s_amount_cents s = b_amount_cents b - sum_Z (map s_amount_cents new).
Proof.
  assert (Hone : remainder_parts (select_rule_parts example_db 1)
                 = [mkPart 3 1 "4020" None "remainder" None None None])
    by reflexivity.
  split; [exact Hone |].
  apply (proj2 (@single_remainder_absorbs_the_rest no_regex example_db 1 1 _ Hone)
           example_db_split (SplitsCreated 3 "Stadtwerke")).
  vm_compute. reflexivity.
Defined.

Lemma splits_created_witness :
  exists r new,
    select_rule example_db 1 = Some r
    /\ SplitsCreated 3 "Stadtwerke" = SplitsCreated 3 (r_name r)
    /\ splits example_db_split = splits example_db ++ new
    /\ List.length new = 3%nat
    /\ Forall (fun s => s_bank_id s = 1
                        /\ exists note, s_note s = Some note /\ note <> EmptyString)
         new.
Proof.
  apply (@splits_created_counts_the_parts no_regex example_db 1 1 example_db_split
           (SplitsCreated 3 "Stadtwerke")).
  vm_compute. reflexivity.
Defined.

Lemma batch_one_rule_per_row_witness :
  List.NoDup (map b_id (bank example_db))
  /\ (split_sum (fst (@cmd_apply_rules no_regex example_db (mkArgs None false))) 1
      = split_sum example_db 1
      \/ exists b,
           In b (select_bank_rows example_db (mkArgs None false)) /\ b_id b = 1
           /\ split_sum (fst (@cmd_apply_rules no_regex example_db (mkArgs None false))) 1
              = split_sum example_db 1 + b_amount_cents b).
Proof.
  assert (Hpk : List.NoDup (map b_id (bank example_db))).
  { simpl. repeat constructor; simpl; intuition discriminate. }
  split; [exact Hpk |].
  exact (@batch_applies_one_rule_per_row no_regex example_db (mkArgs None false) 1 Hpk).
Defined.

Lemma charges_not_due_witness :
  date_leb d_2025_07_03 d_2025_07_01 = false
  /\ ~ In 0%nat (snd (apply_payments_fifo (example_charges "M001") [0; 1]%nat
                       example_payments d_2025_07_01 "oldest"))
  /\ fst (apply_payments_fifo (example_charges "M001") [0; 1]%nat
            example_payments d_2025_07_01 "oldest") !! 0%nat
     = Some (Charge_init "M001" "rent" d_2025_07_03 85000).
Proof.
  split; [reflexivity |].
  apply (charges_not_due_are_left_out (example_charges "M001") [0; 1]%nat
           example_payments d_2025_07_01 "oldest" 0%nat
           (Charge_init "M001" "rent" d_2025_07_03 85000) eq_refl).
  left. reflexivity.
Defined.

Lemma late_payments_witness :
  Forall (fun p : payment => date_leb (fst p) d_2025_07_03 = false)
    [(d_2025_07_05, 90000)]
  /\ apply_payments_fifo (example_charges "M001") [0; 1]%nat
       ([(d_2025_07_01, 20000)] ++ [(d_2025_07_05, 90000)] ++ [(d_2025_07_03, 1000)])
       d_2025_07_03 "oldest"
     = apply_payments_fifo (example_charges "M001") [0; 1]%nat
         ([(d_2025_07_01, 20000)] ++ [(d_2025_07_03, 1000)]) d_2025_07_03 "oldest".
Proof.
  assert (Hlate : Forall (fun p : payment => date_leb (fst p) d_2025_07_03 = false)
                    [(d_2025_07_05, 90000)])
    by (repeat constructor).
  split; [exact Hlate |].
  exact (late_payments_have_no_effect (example_charges "M001") [0; 1]%nat
           [(d_2025_07_01, 20000)] [(d_2025_07_05, 90000)] [(d_2025_07_03, 1000)]
           d_2025_07_03 "oldest" Hlate).
Defined.

Lemma allocation_conserves_witness :
  List.NoDup [0; 1]%nat
  /\ Forall (fun p : payment => 0 < snd p) example_payments
  /\ let '(h', served) :=
       apply_payments_fifo (example_charges "M001") [0; 1]%nat example_payments
         d_2025_07_05 "oldest" in
     total_open h' served
     = Z.max 0 (total_open (example_charges "M001") served
                - eligible_total example_payments d_2025_07_05).
Proof.
  assert (Hnd : List.NoDup [0; 1]%nat).
  { repeat constructor; simpl; intuition discriminate. }
  assert (Hpos : Forall (fun p : payment => 0 < snd p) example_payments).
  { repeat constructor. }
  split; [exact Hnd |]. split; [exact Hpos |].
  exact (allocation_conserves_money (example_charges "M001") [0; 1]%nat
           example_payments d_2025_07_05 "oldest" Hnd Hpos).
Defined.

Lemma served_in_turn_witness :
  exists chi',
    fst (apply_payments_fifo (example_charges "M001") [0; 1]%nat example_payments
           d_2025_07_05 "oldest") !! 0%nat = Some chi'
    /\ open_cents chi' = 0.
Proof.
  assert (Hnd : List.NoDup [0; 1]%nat).
  { repeat constructor; simpl; intuition discriminate. }
  apply (charges_are_served_in_turn (example_charges "M001") [0; 1]%nat
           example_payments d_2025_07_05 "oldest" 0%nat 1%nat 0%nat 1%nat
           (Charge_init "M001" "nk" d_2025_07_03 20000)
           (mkCharge "M001" "nk" d_2025_07_03 20000 15000) Hnd).
  - lia.
  - reflexivity.
  - reflexivity.
  - reflexivity.
  - reflexivity.
  - simpl. lia.
Defined.

Lemma add_months_witness :
  valid_date (mkDate 2025 1 31)
  /\ match add_months (mkDate 2025 1 31) 1 with
     | Some d' =>
         valid_date d'
         /\ month_index (year d', month d') = month_index (2025, 1) + 1
         /\ exists last_day,
              monthrange_days (year d') (month d') = Some last_day
              /\ day d' = Z.min 31 last_day
     | None => month_index (2025, 1) + 1 < 12 \/ 120000 <= month_index (2025, 1) + 1
     end.
Proof.
  assert (Hvalid : valid_date (mkDate 2025 1 31)) by reflexivity.
  split; [exact Hvalid |].
  exact (add_months_moves_the_month (mkDate 2025 1 31) 1 Hvalid).
Defined.

Lemma iter_months_witness :
  iter_months (2024, 11) (2025, 2)
  = Some (months_between (2024, 11) (2025, 2),
          (month_index (2024, 11) <=? month_index (2025, 2))
          && (month_index (2025, 2) =? 119999))
  /\ List.length (months_between (2024, 11) (2025, 2))
     = Z.to_nat (month_index (2025, 2) - month_index (2024, 11) + 1)
  /\ (month_index (2024, 11) <= month_index (2025, 2) ->
      head (months_between (2024, 11) (2025, 2)) = Some (2024, 11)
      /\ last (months_between (2024, 11) (2025, 2)) = Some (2025, 2)).
Proof.
  apply (iter_months_yields_each_month (2024, 11) (2025, 2));
    unfold valid_month; simpl; lia.
Defined.

Lemma monthly_charges_witness :
  build_monthly_charges example_leases (2025, 2)
  = Some [Charge_init "M001" "rent" (mkDate 2025 2 3) 85000;
          Charge_init "M001" "nk" (mkDate 2025 2 3) 20000;
          Charge_init "M002" "rent" (mkDate 2025 2 28) 70000]
  /\ exists first last,
       month_bounds (2025, 2) = Some (first, last)
       /\ Forall (fun c =>
                    open_cents c = amount_cents c
                    /\ amount_cents c <> 0
                    /\ (year (due_date c), month_of_date c) = (2025, 2)
                    /\ date_leb first (due_date c) = true
                    /\ date_leb (due_date c) last = true
                    /\ exists l, In l example_leases
                                 /\ day (due_date c) = Z.min (l_due_day l) (day last))
            [Charge_init "M001" "rent" (mkDate 2025 2 3) 85000;
             Charge_init "M001" "nk" (mkDate 2025 2 3) 20000;
             Charge_init "M002" "rent" (mkDate 2025 2 28) 70000].
Proof.
  assert (Hbuilt : build_monthly_charges example_leases (2025, 2)
                   = Some [Charge_init "M001" "rent" (mkDate 2025 2 3) 85000;
                           Charge_init "M001" "nk" (mkDate 2025 2 3) 20000;
                           Charge_init "M002" "rent" (mkDate 2025 2 28) 70000])
    by reflexivity.
  split; [exact Hbuilt |].
  destruct (monthly_charges_follow_the_leases example_leases (2025, 2) _ Hbuilt)
    as (first & last & Hb & _ & Hall).
  exists first, last. split; [exact Hb | exact Hall].
Defined.

Lemma status_component_witness :
  (status_component 500 84600 85000 = "OK"%string
   <-> 85000 - 500 <= 84600 <= 85000 + 500)
  /\ (status_component 500 84600 85000 = "Teil"%string
      <-> 0 < 84600 < 85000 - 500)
  /\ (status_component 500 84600 85000 = "Über"%string
      <-> 85000 + 500 < 84600)
  /\ (status_component 500 84600 85000 = "Fehlt"%string
      <-> 84600 <= 0 /\ 84600 < 85000 - 500).
Proof.
  apply (status_component_ranges 500 84600 85000). lia.
Defined.

Lemma date_paid_full_witness :
  month_bounds (2025, 7) = Some (d_2025_07_01, mkDate 2025 7 31)
  /\ (date_paid_full aging_db "M001" ["3000"%string] (2025, 7) 85000
      = Some (Some d_2025_07_05)
      <-> exists i c,
            paid_rows_ordered aging_db "M001" ["3000"%string] d_2025_07_01
              (mkDate 2025 7 31) !! i = Some (d_2025_07_05, c)
            /\ 85000
               <= sum_Z (map snd
                           (take (S i)
                              (paid_rows_ordered aging_db "M001" ["3000"%string]
                                 d_2025_07_01 (mkDate 2025 7 31))))
            /\ forall j, (j < i)%nat ->
                 sum_Z (map snd
                          (take (S j)
                             (paid_rows_ordered aging_db "M001" ["3000"%string]
                                d_2025_07_01 (mkDate 2025 7 31))))
                 < 85000).
Proof.
  assert (Hmonth : month_bounds (2025, 7) = Some (d_2025_07_01, mkDate 2025 7 31))
    by reflexivity.
  split; [exact Hmonth |].
  exact (proj2 (proj2 (proj2
           (date_paid_full_first_reach aging_db "M001" ["3000"%string] (2025, 7)
              85000 _ _ Hmonth))) d_2025_07_05).
Defined.

Lemma rent_check_witness :
  rent_check_lease aging_db ["3000"%string] ["3010"%string] (2025, 7) lease_M001
  = Some (mkLine "M001" 85000 85000 20000 20000 "OK" "OK")
  /\ exists d,
       date_paid_full aging_db "M001" ["3000"%string] (2025, 7) (85000 - 0)
       = Some (Some d)
       /\ "OK"%string
          = if toordinal d_2025_07_03 + 3 <? toordinal d
            then "zu spät"%string else "OK"%string.
Proof.
  assert (Hline : rent_check_lease aging_db ["3000"%string] ["3010"%string]
                    (2025, 7) lease_M001
                  = Some (mkLine "M001" 85000 85000 20000 20000 "OK" "OK"))
    by reflexivity.
  split; [exact Hline |].
  destruct (rent_check_late_flag aging_db ["3000"%string] ["3010"%string] (2025, 7)
              lease_M001 _ Hline)
    as (first & last & due & Hb & Hdue & _ & _ & Hfound).
  injection Hb as <- <-. injection Hdue as <-.
  apply Hfound; [reflexivity | discriminate].
Defined.

Lemma applied_rule_unbalanced_witness :
  cmd_unbalanced example_db_split
  = [(mkBank 2 d_2025_07_05 10000 (Some "Miete Mueller"%string), 0, -10000)]
  /\ snd (@apply_rule_to_bank no_regex example_db_split 1 1)
     = Returned true (SplitsCreated 3 "Stadtwerke")
  /\ In (mkBank 1 d_2025_07_05 (-12000) (Some "Stadtwerke Abschlag"%string),
         -24000, -12000)
       (cmd_unbalanced (fst (@apply_rule_to_bank no_regex example_db_split 1 1))).
Proof.
  split; [reflexivity |]. split; [vm_compute; reflexivity |].
  assert (Hpk : List.NoDup (map b_id (bank example_db_split))).
  { simpl. repeat constructor; simpl; intuition discriminate. }
  assert (Happ : @apply_rule_to_bank no_regex example_db_split 1 1
                 = (fst (@apply_rule_to_bank no_regex example_db_split 1 1),
                    Returned true (SplitsCreated 3 "Stadtwerke")))
    by (vm_compute; reflexivity).
  apply (@applied_rule_and_unbalanced_rows no_regex example_db_split _ 1 1 _
           Hpk Happ).
  simpl. split; [auto |]. split; [discriminate |]. split; reflexivity.
Defined.

Lemma settlement_list_witness :
  list_nka_with_payments settlement_db "M001" ["3020"%string] (mkDate 2025 12 31)
  = Some (mkNkaState 0 23000 17000 11000
            [mkNkaLine 1 18000 12000 6000;
             mkNkaLine 2 (-5000) 0 0;
             mkNkaLine 3 10000 5000 5000])
  /\ 17000 + 11000 = receivables_total (select_nka_rows settlement_db "M001")
  /\ 23000 = 17000 + 11000 - credits_total (select_nka_rows settlement_db "M001").
Proof.
  assert (Hlist : list_nka_with_payments settlement_db "M001" ["3020"%string]
                    (mkDate 2025 12 31)
                  = Some (mkNkaState 0 23000 17000 11000
                            [mkNkaLine 1 18000 12000 6000;
                             mkNkaLine 2 (-5000) 0 0;
                             mkNkaLine 3 10000 5000 5000]))
    by reflexivity.
  split; [exact Hlist |].
  destruct (settlement_list_accounting settlement_db "M001" ["3020"%string]
              (mkDate 2025 12 31) _ Hlist)
    as (_ & _ & _ & Hsum & Horig & _).
  split; [exact Hsum | exact Horig].
Defined.

Lemma manual_splits_witness :
  @cmd_add_split digits_only ["3000"; "3010"]%string ["M001"]%string example_db 2
    ["3000"; "8000"; "M001"; "9999"; "2000"; "-"]%string
  = ({| bank := example_bank;
        splits := [mkSplit 1 2 "3000" (Some "M001"%string) 8000 (Some EmptyString)];
        splits_seq := 1;
        rules := example_rules;
        rule_parts := example_rule_parts;
        manual_charges := [] |},
     AccountUnknown "9999")
  /\ exists new : list split_row,
       List.length new = 1%nat
       /\ (exists amount_tok tenant_tok,
              triples_of ["3000"; "8000"; "M001"; "9999"; "2000"; "-"]%string
                !! List.length new
              = Some ("9999"%string, amount_tok, tenant_tok))
       /\ ~ In "9999"%string ["3000"; "3010"]%string.
Proof.
  assert (Hcmd : @cmd_add_split digits_only ["3000"; "3010"]%string ["M001"]%string
                   example_db 2 ["3000"; "8000"; "M001"; "9999"; "2000"; "-"]%string
                 = ({| bank := example_bank;
                       splits := [mkSplit 1 2 "3000" (Some "M001"%string) 8000
                                    (Some EmptyString)];
                       splits_seq := 1;
                       rules := example_rules;
                       rule_parts := example_rule_parts;
                       manual_charges := [] |},
                    AccountUnknown "9999"))
    by reflexivity.
  split; [exact Hcmd |].
  destruct (@manual_splits_are_kept digits_only _ _ _ _ _ _ _ Hcmd)
    as (new & _ & Hsplits & _ & Hgroup & Hno).
  exists new. split; [| split; [exact Hgroup | exact Hno]].
  simpl in Hsplits. now rewrite <- Hsplits.
Defined.

Lemma default_aging_period_witness :
  valid_date d_2025_07_05
  /\ aging_months d_2025_07_05 None
     = Some (months_between (2024, 8) (2025, 7), false)
  /\ List.length (months_between (2024, 8) (2025, 7)) = 12%nat.
Proof.
  assert (Hvalid : valid_date d_2025_07_05) by reflexivity.
  split; [exact Hvalid |].
  destruct (proj2 (default_aging_period d_2025_07_05 Hvalid)) as (Hrun & Hlen & _).
  - vm_compute. discriminate.
  - split; [exact Hrun | exact Hlen].
Defined.

